(** * PosePile: [posepile/util/preproc_for_efficiency.py]

    A shallow embedding of the crop planner and of the reprojection
    executor of [make_efficient_example], with the properties of its
    specification.

    Conventions of the embedding.
    - numpy floating-point scalars are read as real numbers ([R]),
      without rounding; where the source divides by a scalar that can
      be 0 (line 52), numpy's [inf] is written out. A box is the
      4-vector [(x, y, width, height)].
    - Python objects that can be mutated (cameras, numpy arrays, encoded
      masks, example records) live in a store indexed by locations;
      variables hold locations, so that aliasing is visible.
    - An invocation is a function from a state (store, file system,
      log of input/output and pixel operations) to an outcome (a value
      or a raised exception) and a final state.
    - Libraries that are not part of the file (cameralib, cv2 warps,
      the image codec, rlemasklib, simplepyutils) are interfaces
      (type classes); boxlib and the connected-component labelling are
      modelled by definitions. *)

From Stdlib Require Import Reals Lra ZArith List.
From stdpp Require Import gmap strings.

Open Scope R_scope.

(** ** Boxes *)

Record Box := mkBox { box_x : R; box_y : R; box_w : R; box_h : R }.

Definition Point : Type := R * R.

Module boxlib.

(** Modelled from the spec: [boxlib.full] is not under src/. "box
    covering the whole image, (0,0,w,h)". *)
Definition full (imsize : R * R) : Box :=
  mkBox 0 0 (fst imsize) (snd imsize).

(** Modelled from the spec: [boxlib.center] is not under src/. The
    centre point of a box. *)
Definition center (b : Box) : Point :=
  (box_x b + box_w b / 2, box_y b + box_h b / 2).

(** Modelled from the spec: [boxlib.box_around] is not under src/. The
    square box of the given side centred at a point. *)
Definition box_around (c : Point) (side : R) : Box :=
  mkBox (fst c - side / 2) (snd c - side / 2) side side.

(** Modelled from the spec: [boxlib.expand] is not under src/. The box
    with the same centre and both sides multiplied by the factor. *)
Definition expand (b : Box) (expansion_factor : R) : Box :=
  let c := center b in
  let w := box_w b * expansion_factor in
  let h := box_h b * expansion_factor in
  mkBox (fst c - w / 2) (snd c - h / 2) w h.

(** Modelled from the spec: [boxlib.intersection] is not under src/.
    Top-left is the componentwise maximum, bottom-right the
    componentwise minimum, and an empty overlap has size 0. *)
Definition intersection (a b : Box) : Box :=
  let x1 := Rmax (box_x a) (box_x b) in
  let y1 := Rmax (box_y a) (box_y b) in
  let x2 := Rmin (box_x a + box_w a) (box_x b + box_w b) in
  let y2 := Rmin (box_y a + box_h a) (box_y b + box_h b) in
  mkBox x1 y1 (Rmax 0 (x2 - x1)) (Rmax 0 (y2 - y1)).

Definition area (b : Box) : R := box_w b * box_h b.

(** Modelled from the spec: [boxlib.iou] is not under src/.
    Intersection area over union area. *)
Definition iou (a b : Box) : R :=
  let i := area (intersection a b) in
  i / (area a + area b - i).

End boxlib.

(** ** [get_expanded_crop_box] (source lines 126-140) *)

Definition get_expanded_crop_box
    (bbox full_box : Box) (further_expansion_factor : R) : Box :=
  let max_rotate := PI / 6 in
  let padding_factor := 1 / 0.85 in
  let scale_down_factor := 1 / 0.85 in
  let shift_factor := 1.1 in
  let '(s, c) := (sin max_rotate, cos max_rotate) in
  let '(w, h) := (box_w bbox, box_h bbox) in
  let box_center := boxlib.center bbox in
  let rot_bbox_side := Rmax (c * w + s * h) (c * h + s * w) in
  let rot_bbox := boxlib.box_around box_center rot_bbox_side in
  let expansion_factor :=
    padding_factor * shift_factor * scale_down_factor
    * further_expansion_factor in
  let expanded_bbox :=
    boxlib.intersection (boxlib.expand rot_bbox expansion_factor) full_box in
  expanded_bbox.

(** ** Plane geometry used by the containment property *)

(** A point lies in a box (sides included). *)
Definition in_box (b : Box) (p : Point) : Prop :=
  box_x b <= fst p <= box_x b + box_w b /\
  box_y b <= snd p <= box_y b + box_h b.

(** Rotation of [p] by the angle [theta] about the point [c]. *)
Definition rotate_about (c : Point) (theta : R) (p : Point) : Point :=
  let dx := fst p - fst c in
  let dy := snd p - snd c in
  (fst c + (cos theta * dx - sin theta * dy),
   snd c + (sin theta * dx + cos theta * dy)).

(** The crop box of the specification, written with explicit
    coordinates: the square of side [S] around the centre of [bbox],
    scaled about that centre, cut to [full_box]. *)
Definition rot_side_spec (w h : R) : R :=
  Rmax (cos (PI / 6) * w + sin (PI / 6) * h)
       (cos (PI / 6) * h + sin (PI / 6) * w).

Definition expansion_factor_spec (f : R) : R :=
  1 / 0.85 * 1.1 * (1 / 0.85) * f.

Definition crop_box_spec (bbox full_box : Box) (f : R) : Box :=
  let cx := box_x bbox + box_w bbox / 2 in
  let cy := box_y bbox + box_h bbox / 2 in
  let side := rot_side_spec (box_w bbox) (box_h bbox) * expansion_factor_spec f in
  let left := Rmax (cx - side / 2) (box_x full_box) in
  let top := Rmax (cy - side / 2) (box_y full_box) in
  let right := Rmin (cx + side / 2) (box_x full_box + box_w full_box) in
  let bottom := Rmin (cy + side / 2) (box_y full_box + box_h full_box) in
  mkBox left top (Rmax 0 (right - left)) (Rmax 0 (bottom - top)).


(** ** Exceptions and outcomes *)

(** The exceptions that matter to the function. [OtherException]
    stands for any other subclass of [Exception] (a decoding error, an
    [OSError] that is not a missing file, ...); [Interrupt] for a
    [BaseException] outside [Exception] ([KeyboardInterrupt],
    [SystemExit]), which [except Exception] does not catch. *)
Inductive exn : Type :=
| FileNotFoundError (path : string)
| AttributeError (attr : string)
| TypeError (what : string)
| OtherException (what : string)
| Interrupt.

Definition isinstance_Exception (e : exn) : bool :=
  match e with Interrupt => false | _ => true end.

Definition isinstance_FileNotFoundError (e : exn) : bool :=
  match e with FileNotFoundError _ => true | _ => false end.

Inductive outcome (A : Type) : Type :=
| Value (a : A)
| Raised (e : exn).
Arguments Value {A} a.
Arguments Raised {A} e.


(** ** Pixel grids and connected components *)

(** A 2-D array as the list of its rows. *)
Definition Grid (A : Type) : Type := list (list A).

Definition grid_get {A} (d : A) (g : Grid A) (r c : nat) : A :=
  nth c (nth r g []) d.

Definition grid_set {A} (g : Grid A) (r c : nat) (v : A) : Grid A :=
  <[r := <[c := v]> (nth r g [])]> g.

Definition grid_rows {A} (g : Grid A) : nat := length g.
Definition grid_cols {A} (g : Grid A) : nat := length (nth 0 g []).

(** The pixel coordinates [(row, column)] in raster order. *)
Definition pixels (rows cols : nat) : list (nat * nat) :=
  flat_map (fun r => map (fun c => (r, c)) (seq 0 cols)) (seq 0 rows).

Definition grid_const {A} (rows cols : nat) (v : A) : Grid A :=
  repeat (repeat v cols) rows.

(** The neighbours of a pixel under 8-connectivity: the pixels of its
    row, of the row above and of the row below that are next to it. *)
Definition neighbours8 (p : nat * nat) : list (nat * nat) :=
  let '(r, c) := p in
  let cs := (match c with O => [] | S c' => [c'] end) ++ [c; S c] in
  (match r with O => [] | S r' => map (fun c2 => (r', c2)) cs end)
  ++ (match c with O => [] | S c' => [(r, c')] end)
  ++ [(r, S c)]
  ++ map (fun c2 => (S r, c2)) cs.

(** Flood fill from the pixels of [stack]: every foreground pixel
    that is reached and still has label 0 receives [lab]. *)
Fixpoint flood (fuel : nat) (mask : Grid Z) (stack : list (nat * nat))
    (lab : Z) (labels : Grid Z) : Grid Z :=
  match fuel with
  | O => labels
  | S fuel' =>
      match stack with
      | [] => labels
      | (r, c) :: rest =>
          if negb (grid_get 0%Z mask r c =? 0)%Z
             && (grid_get 0%Z labels r c =? 0)%Z
          then flood fuel' mask (neighbours8 (r, c) ++ rest) lab
                 (grid_set labels r c lab)
          else flood fuel' mask rest lab labels
      end
  end.

(** Labels of the 8-connected components of the non-zero pixels:
    0 is the background; components are numbered from 1 in the raster
    order of their first pixel. Returns the labels and their number
    (background included). *)
Definition label_components (mask : Grid Z) : Grid Z * Z :=
  let rows := grid_rows mask in
  let cols := grid_cols mask in
  let fuel := S (8 * rows * cols) in
  fold_left
    (fun (acc : Grid Z * Z) (p : nat * nat) =>
       let '(labels, next) := acc in
       let '(r, c) := p in
       if negb (grid_get 0%Z mask r c =? 0)%Z
          && (grid_get 0%Z labels r c =? 0)%Z
       then (flood fuel mask [(r, c)] next labels, (next + 1)%Z)
       else (labels, next))
    (pixels rows cols)
    (grid_const rows cols 0%Z, 1%Z).

(** One row of [stats]: left, top, width, height, area of the pixels
    that carry the label. *)
Definition Stat : Type := Z * Z * Z * Z * Z.

Definition list_min (d : nat) (l : list nat) : nat := fold_right Nat.min d l.
Definition list_max (l : list nat) : nat := fold_right Nat.max O l.

Definition component_stat (labels : Grid Z) (lab : Z) : Stat :=
  let ps := filter (fun p : nat * nat =>
                      (grid_get 0%Z labels (fst p) (snd p) =? lab)%Z)
              (pixels (grid_rows labels) (grid_cols labels)) in
  match ps with
  | [] => (0, 0, 0, 0, 0)%Z
  | (r0, c0) :: _ =>
      let left := list_min c0 (map snd ps) in
      let top := list_min r0 (map fst ps) in
      let right := list_max (map snd ps) in
      let bottom := list_max (map fst ps) in
      (Z.of_nat left, Z.of_nat top,
       Z.of_nat (right - left + 1), Z.of_nat (bottom - top + 1),
       Z.of_nat (length ps))
  end.

(** Modelled from the spec and from the call of line 146:
    [cv2.connectedComponentsWithStats] is not under src/. The Python
    binding is [connectedComponentsWithStats(image[, labels[, stats[,
    centroids[, connectivity[, ltype]]]]])]: the source passes [4] and
    [cv2.CV_32S] by position, that is in the places of the output
    arrays [labels] and [stats], so [connectivity] keeps its default,
    8, and the labels are those of the 8-connected components. Label
    0 is the background, and [stats] has one row per label, the
    background's first. An image without rows or without columns is
    refused by cv2 with a [cv2.error]. The centroids are not used by
    the source and are left out. *)
Definition connectedComponentsWithStats (mask : Grid Z)
    : outcome (Z * Grid Z * list Stat) :=
  if ((grid_rows mask =? 0)%nat || (grid_cols mask =? 0)%nat)%bool
  then Raised (OtherException "cv2.error")
  else
    let '(labels, n) := label_components mask in
    Value (n, labels,
           map (fun l => component_stat labels (Z.of_nat l))
             (seq 0 (Z.to_nat n))).

(** [np.argmax] of a non-empty list: the first index of a maximum.
    The values are compared as real numbers; where two of them are
    equal or differ by less than the rounding of the floating-point
    division, numpy may order them otherwise. *)
Fixpoint argmax_from (l : list R) (i best : nat) (best_v : R) : nat :=
  match l with
  | [] => best
  | x :: t =>
      if Rlt_dec best_v x then argmax_from t (S i) i x
      else argmax_from t (S i) best best_v
  end.

Definition argmax (l : list R) : nat :=
  match l with
  | [] => O
  | x :: t => argmax_from t 1 0 x
  end.

Definition stat_box (s : Stat) : Box :=
  let '(x, y, w, h, _) := s in mkBox (IZR x) (IZR y) (IZR w) (IZR h).

(** A binary mask. *)
Definition Bitmap : Type := Grid bool.

(** ** rlemasklib *)

Class Rlemasklib := {
  Rle : Type;
  (** [rlemasklib.encode] *)
  rle_encode : Bitmap -> Rle;
  (** [rlemasklib.decode] *)
  rle_decode : Rle -> Bitmap;
}.

(** ** [get_connected_component_with_highest_iou] (source lines 143-150) *)

Definition get_connected_component_with_highest_iou `{Rlemasklib}
    (mask : Grid Z) (person_box : Box) : outcome Rle :=
  let mask := map (map (fun v => (v mod 256)%Z)) mask in
  match connectedComponentsWithStats mask with
  | Raised e => Raised e
  | Value (_, labels, stats) =>
      let component_boxes := map stat_box stats in
      let ious :=
        map (fun component_box => boxlib.iou component_box person_box)
          component_boxes in
      let person_label := argmax ious in
      Value (rle_encode
               (map (map (fun v => (v =? Z.of_nat person_label)%Z)) labels))
  end.

(** The synthetic mask of the specification's scenario: two disjoint
    10x10 blobs of value 255 in a frame of 12 rows and 34 columns, at
    columns 1..10 and 23..32, rows 1..10. *)
Definition in_blob (r0 c0 : nat) (r c : nat) : bool :=
  (r0 <=? r)%nat && (r <? r0 + 10)%nat && (c0 <=? c)%nat && (c <? c0 + 10)%nat.

Definition grid_init {A} (rows cols : nat) (f : nat -> nat -> A) : Grid A :=
  map (fun r => map (fun c => f r c) (seq 0 cols)) (seq 0 rows).

Definition two_blob_mask : Grid Z :=
  grid_init 12 34 (fun r c =>
    if in_blob 1 1 r c || in_blob 1 23 r c then 255%Z else 0%Z).

Definition left_blob : Bitmap := grid_init 12 34 (in_blob 1 1).

Definition two_blob_background : Bitmap :=
  grid_init 12 34 (fun r c => negb (in_blob 1 1 r c || in_blob 1 23 r c)).

Definition two_blob_labels : Grid Z :=
  grid_init 12 34 (fun r c =>
    if in_blob 1 1 r c then 1%Z else if in_blob 1 23 r c then 2%Z else 0%Z).

(** A subject box that overlaps the left blob only. *)
Definition subject_box_left : Box := mkBox 0 0 20 12.

(** The bounding box of the left blob. *)
Definition left_blob_box : Box := mkBox 1 1 10 10.
(** ** Interfaces of the libraries *)

Inductive interpolation : Type := INTER_LINEAR | INTER_CUBIC.

(** numpy, cv2 and [posepile.util.improc] operations on pixel arrays.
    Pixel values play no part in the properties below, so images are
    an abstract type. *)
Class ImageLib := {
  Image : Type;
  (** [im.shape[:2]]: rows, columns *)
  image_shape : Image -> Z * Z;
  (** [im[:, ::-1]] *)
  flip_columns : Image -> Image;
  (** [np.power(im.astype(np.float32) / 255, 2.2)] *)
  gamma_decode : Image -> Image;
  (** [improc.resize_by_factor] *)
  resize_by_factor : Image -> R -> Image;
  (** [np.clip(im, 0, 1)] *)
  clip01 : Image -> Image;
  (** [(im ** e * 255).astype(np.uint8)] *)
  gamma_encode : Image -> R -> Image;
  (** [improc.white_balance] *)
  white_balance : Image -> Z -> Z -> Image;
  (** [im[..., 0]] *)
  channel0 : Image -> Image;
  (** [im > t] *)
  greater_than : Image -> R -> Bitmap;
  (** [b * k] for a boolean array [b] *)
  bitmap_times : Bitmap -> Z -> Image;
}.

(** cameralib. The methods that change a camera in place are given by
    the new value of the receiver; the reprojection functions are
    taken total (a degenerate projection is outside the model). *)
Class CameraLib `{ImageLib} := {
  Camera : Type;
  create2D : Camera;
  turn_towards : Camera -> Point -> Camera;
  undistort : Camera -> Camera;
  shift_image : Camera -> Point -> Camera;
  scale_output : Camera -> R -> Camera;
  reproject_box_side_midpoints : Box -> Camera -> Camera -> Box;
  reproject_box_corners : Box -> Camera -> Camera -> Box;
  reproject_image_points : list Point -> Camera -> Camera -> list Point;
  reproject_image :
    Image -> Camera -> Camera -> Z * Z -> Z -> option interpolation -> Image;
}.

(** The file system as seen through [improc], [imageio], [posepile.util]
    and simplepyutils. *)
Class FileIO `{ImageLib} := {
  FS : Type;
  (** [util.ensure_absolute_path] *)
  ensure_absolute_path : string -> string;
  (** [improc.image_extents]: width, height *)
  image_extents : FS -> string -> outcome (Z * Z);
  (** [improc.imread] *)
  imread : FS -> string -> outcome Image;
  (** [spu.is_file_newer] *)
  is_file_newer : FS -> string -> option R -> bool;
  (** [improc.is_image_readable] *)
  is_image_readable : FS -> string -> bool;
  (** [spu.ensure_parent_dir_exists] *)
  ensure_parent_dir_exists : FS -> string -> FS;
  (** [imageio.imwrite(path, im, quality=q)] *)
  imwrite : FS -> string -> Image -> Z -> FS;
  (** one component of [spu.rounded_int_tuple] *)
  rounded_int : R -> Z;
}.

(** ** The crop plan (source lines 44-52 and 57) *)

Record CropPlan := mkCropPlan {
  plan_reprojected_box : Box;
  plan_full_box : Box;
  plan_expanded_bbox : Box;
  plan_scale_factor : R;
  plan_dst_shape : Z * Z;
}.

Section Plan.
Context `{IL : ImageLib} `{CL : !CameraLib} `{IO : !FileIO}.

(** Line 52. The longer side [m] is a numpy scalar: for [m = 0] the
    division gives [inf] (numpy warns, it does not raise), and
    [min(1.2, inf)] is 1.2. *)
Definition scale_factor_of (reprojected_box : Box) : R :=
  let m := Rmax (box_w reprojected_box) (box_h reprojected_box) in
  if Req_dec_T m 0 then 1.2 else Rmin 1.2 (256 / m * 1.5).

Definition crop_plan (bbox full_box : Box) (old_camera new_camera : Camera)
    (further_expansion_factor : R) (extreme_perspective : bool) : CropPlan :=
  let reprojected_box :=
    reproject_box_side_midpoints bbox old_camera new_camera in
  let reprojected_full_box :=
    if extreme_perspective then mkBox (-1e9) (-1e9) 2e9 2e9
    else reproject_box_corners full_box old_camera new_camera in
  let expanded_bbox :=
    if Rlt_dec 0 further_expansion_factor
    then get_expanded_crop_box reprojected_box reprojected_full_box
           further_expansion_factor
    else reprojected_box in
  let scale_factor := scale_factor_of reprojected_box in
  let dst_shape :=
    (rounded_int (scale_factor * box_h expanded_bbox),
     rounded_int (scale_factor * box_w expanded_bbox)) in
  mkCropPlan reprojected_box reprojected_full_box expanded_bbox
    scale_factor dst_shape.

End Plan.

Close Scope R_scope.

(** ** The store *)

Definition loc : Type := positive.

Inductive ndarray `{ImageLib} : Type :=
| NdBox (b : Box)
| NdPoints (p : list Point)
| NdWorld (p : list (R * R * R))
| NdImage (im : Image).

(** The [mask] attribute: [None], a path, or a reference to a dense
    array or to an encoded mask. *)
Inductive mask_field : Type :=
| MaskNone
| MaskPath (p : string)
| MaskObj (l : loc).

(** An example record. An attribute that may be missing is an
    [option] ([None] = the object has no such attribute);
    [camera = Some None] is the attribute set to Python's [None]. *)
Record Example := mkExample {
  image_path : string + loc;
  bbox : loc;
  camera : option (option loc);
  coords : option loc;
  world_coords : option loc;
  mask : option mask_field;
}.

(** Who an image operation works for: the source image or the mask. *)
Inductive role : Type := OnImage | OnMask.

Inductive pixel_op : Type :=
| Flip | GammaDecode | Resize | Reproject | Clip | GammaEncode
| WhiteBalance | Channel0 | Threshold | Components | Encode | Decode.

Inductive event : Type :=
| EvImageExtents (path : string)
| EvIsFileNewer (path : string)
| EvIsImageReadable (path : string)
| EvImread (r : role) (path : string)
| EvPixel (r : role) (op : pixel_op)
| EvMkdir (path : string)
| EvImwrite (path : string).

(** Kinds of logged operations. *)
Definition is_source_read (ev : event) : bool :=
  match ev with EvImread OnImage _ => true | _ => false end.

Definition is_pixel_computation (ev : event) : bool :=
  match ev with EvPixel _ _ => true | _ => false end.

Definition is_file_write (ev : event) : bool :=
  match ev with EvMkdir _ | EvImwrite _ => true | _ => false end.

(** The operation is made for the mask. *)
Definition on_mask (ev : event) : bool :=
  match ev with
  | EvImread OnMask _ | EvPixel OnMask _ => true
  | _ => false
  end.

(** The operation is neither a read of the source image, nor a write,
    nor a pixel computation other than for the mask. *)
Definition spares_image (ev : event) : Prop :=
  is_source_read ev = false /\ is_file_write ev = false /\
  (is_pixel_computation ev = true -> on_mask ev = true).

Section Program.
Context `{IL : ImageLib} `{CL : !CameraLib} `{IO : !FileIO} `{RL : Rlemasklib}.

Inductive obj : Type :=
| OCamera (c : Camera)
| ONdarray (a : ndarray)
| ORle (r : Rle)
| OExample (e : Example).

(** The state of an invocation: the store, the file system, and the
    log of what was done (latest first). *)
Record state := mkState {
  heap : gmap loc obj;
  files : FS;
  log : list event;
}.

Definition set_heap (h : gmap loc obj) (s : state) : state :=
  mkState h (files s) (log s).
Definition set_files (f : FS) (s : state) : state :=
  mkState (heap s) f (log s).
Definition add_log (ev : event) (s : state) : state :=
  mkState (heap s) (files s) (ev :: log s).

(** ** The monad of invocations *)

Definition M (A : Type) : Type := state -> outcome A * state.

Definition ret {A} (a : A) : M A := fun s => (Value a, s).

Definition raise {A} (e : exn) : M A := fun s => (Raised e, s).

Definition bind {A B} (m : M A) (k : A -> M B) : M B :=
  fun s =>
    match m s with
    | (Value a, s') => k a s'
    | (Raised e, s') => (Raised e, s')
    end.

(** [try: m except: h] with a handler that sees every exception (the
    handler re-raises what its clause does not catch). *)
Definition try_except {A} (m : M A) (h : exn -> M A) : M A :=
  fun s =>
    match m s with
    | (Raised e, s') => h e s'
    | r => r
    end.

End Program.

Notation "x <- m ;; k" := (bind m (fun x => k))
  (at level 100, m at next level, right associativity).
Notation "m ;;; k" := (bind m (fun _ => k))
  (at level 100, right associativity).

Section Operations.
Context `{IL : ImageLib} `{CL : !CameraLib} `{IO : !FileIO} `{RL : Rlemasklib}.

(** ** Operations on the store *)

(** A new object: its location is one the store does not use. *)
Definition alloc (o : obj) : M loc :=
  fun s =>
    let l := fresh (dom (heap s)) in
    (Value l, set_heap (<[l := o]> (heap s)) s).

Definition store (l : loc) (o : obj) : M unit :=
  fun s => (Value tt, set_heap (<[l := o]> (heap s)) s).

Definition load_camera (l : loc) : M Camera :=
  fun s =>
    match heap s !! l with
    | Some (OCamera c) => (Value c, s)
    | _ => (Raised (TypeError "Camera"), s)
    end.

Definition load_box (l : loc) : M Box :=
  fun s =>
    match heap s !! l with
    | Some (ONdarray (NdBox b)) => (Value b, s)
    | _ => (Raised (TypeError "box"), s)
    end.

Definition load_points (l : loc) : M (list Point) :=
  fun s =>
    match heap s !! l with
    | Some (ONdarray (NdPoints p)) => (Value p, s)
    | _ => (Raised (TypeError "points"), s)
    end.

Definition load_image (l : loc) : M Image :=
  fun s =>
    match heap s !! l with
    | Some (ONdarray (NdImage im)) => (Value im, s)
    | _ => (Raised (TypeError "image"), s)
    end.

Definition load_example (l : loc) : M Example :=
  fun s =>
    match heap s !! l with
    | Some (OExample e) => (Value e, s)
    | _ => (Raised (TypeError "example"), s)
    end.

Definition load (l : loc) : M obj :=
  fun s =>
    match heap s !! l with
    | Some o => (Value o, s)
    | None => (Raised (TypeError "object"), s)
    end.

(** [camera.copy()] *)
Definition camera_copy (l : loc) : M loc :=
  c <- load_camera l ;; alloc (OCamera c).

(** A method that changes the camera at [l] in place. *)
Definition camera_call (l : loc) (f : Camera -> Camera) : M unit :=
  c <- load_camera l ;; store l (OCamera (f c)).

(** An attribute assignment on the example at [l]. *)
Definition setattr (l : loc) (f : Example -> Example) : M unit :=
  e <- load_example l ;; store l (OExample (f e)).

Definition with_bbox (v : loc) (e : Example) : Example :=
  mkExample (image_path e) v (camera e) (coords e) (world_coords e) (mask e).
Definition with_image_path (v : string + loc) (e : Example) : Example :=
  mkExample v (bbox e) (camera e) (coords e) (world_coords e) (mask e).
Definition with_camera (v : option (option loc)) (e : Example) : Example :=
  mkExample (image_path e) (bbox e) v (coords e) (world_coords e) (mask e).
Definition with_coords (v : option loc) (e : Example) : Example :=
  mkExample (image_path e) (bbox e) (camera e) v (world_coords e) (mask e).
Definition with_mask (v : option mask_field) (e : Example) : Example :=
  mkExample (image_path e) (bbox e) (camera e) (coords e) (world_coords e) v.

(** ** Logged operations *)

Definition emit (ev : event) : M unit := fun s => (Value tt, add_log ev s).

(** An operation over pixel arrays. *)
Definition pixel {A} (r : role) (op : pixel_op) (v : A) : M A :=
  emit (EvPixel r op) ;;; ret v.

(** An operation over pixel arrays that may raise. *)
Definition pixel_try {A} (r : role) (op : pixel_op) (o : outcome A) : M A :=
  fun s => (o, add_log (EvPixel r op) s).

Definition fs_image_extents (path : string) : M (Z * Z) :=
  fun s => (image_extents (files s) path, add_log (EvImageExtents path) s).

Definition fs_imread (r : role) (path : string) : M Image :=
  fun s => (imread (files s) path, add_log (EvImread r path) s).

Definition fs_is_file_newer (path : string) (t : option R) : M bool :=
  fun s => (Value (is_file_newer (files s) path t),
            add_log (EvIsFileNewer path) s).

Definition fs_is_image_readable (path : string) : M bool :=
  fun s => (Value (is_image_readable (files s) path),
            add_log (EvIsImageReadable path) s).

Definition fs_ensure_parent_dir_exists (path : string) : M unit :=
  fun s => (Value tt,
            add_log (EvMkdir path)
              (set_files (ensure_parent_dir_exists (files s) path) s)).

Definition fs_imwrite (path : string) (im : Image) (quality : Z) : M unit :=
  fun s => (Value tt,
            add_log (EvImwrite path)
              (set_files (imwrite (files s) path im quality) s)).

(** ** [copy.deepcopy(ex)]

    Every object the example refers to is copied to a new location;
    strings and [None] are immutable and are kept. (The memo table of
    [deepcopy], which would keep two attributes that refer to one
    object together, is not modelled.) *)

Definition copy_obj (l : loc) : M loc := o <- load l ;; alloc o.

Definition copy_opt (v : option loc) : M (option loc) :=
  match v with
  | None => ret None
  | Some l => l' <- copy_obj l ;; ret (Some l')
  end.

Definition copy_image_path (v : string + loc) : M (string + loc) :=
  match v with
  | inl p => ret (inl p)
  | inr l => l' <- copy_obj l ;; ret (inr l')
  end.

Definition copy_camera (v : option (option loc)) : M (option (option loc)) :=
  match v with
  | None => ret None
  | Some c => c' <- copy_opt c ;; ret (Some c')
  end.

Definition copy_mask (v : option mask_field) : M (option mask_field) :=
  match v with
  | Some (MaskObj l) => l' <- copy_obj l ;; ret (Some (MaskObj l'))
  | Some MaskNone => ret (Some MaskNone)
  | Some (MaskPath p) => ret (Some (MaskPath p))
  | None => ret None
  end.

Definition deepcopy (ex : loc) : M loc :=
  e <- load_example ex ;;
  image_path' <- copy_image_path (image_path e) ;;
  bbox' <- copy_obj (bbox e) ;;
  camera' <- copy_camera (camera e) ;;
  coords' <- copy_opt (coords e) ;;
  world_coords' <- copy_opt (world_coords e) ;;
  mask' <- copy_mask (mask e) ;;
  alloc (OExample
           (mkExample image_path' bbox' camera' coords' world_coords' mask')).

(** ** [make_efficient_example] (source lines 22-123) *)

(** Lines 29-31, first half: the source image is a path or an array
    in memory. *)
Definition source_image (e : Example) : M (string + Image) :=
  match image_path e with
  | inl p => ret (inl p)
  | inr l => im <- load_image l ;; ret (inr im)
  end.

(** Lines 29-31: [(w, h)]. *)
Definition image_size (src : string + Image) : M (Z * Z) :=
  match src with
  | inl p => fs_image_extents (ensure_absolute_path p)
  | inr im => ret (snd (image_shape im), fst (image_shape im))
  end.

Definition has_3d_camera (e : Example) : bool :=
  match camera e with
  | Some (Some _) => true
  | _ => false
  end.

Definition is3d (e : Example) : bool :=
  match world_coords e with Some _ => true | None => false end.

(** Lines 34-43: the old and the new camera. *)
Definition make_cameras (e : Example) : M (loc * loc) :=
  match camera e with
  | Some (Some lc) =>
      let old_camera := lc in
      new_camera <- camera_copy lc ;;
      b <- load_box (bbox e) ;;
      camera_call new_camera (fun c => turn_towards c (boxlib.center b)) ;;;
      camera_call new_camera undistort ;;;
      ret (old_camera, new_camera)
  | _ =>
      old_camera <- alloc (OCamera create2D) ;;
      new_camera <- camera_copy old_camera ;;
      ret (old_camera, new_camera)
  end.

(** Lines 61-62: is the destination fresh and readable? *)
Definition destination_is_cached (new_image_abspath : string)
    (min_time : option R) : M bool :=
  newer <- fs_is_file_newer new_image_abspath min_time ;;
  if newer then fs_is_image_readable new_image_abspath else ret false.

(** Lines 63-70: the read of the source image. [None] is the early
    [return None]. *)
Definition read_source (src : string + Image) (ignore_broken_image : bool)
    : M (option Image) :=
  try_except
    (match src with
     | inl p => im <- fs_imread OnImage p ;; ret (Some im)
     | inr im => ret (Some im)
     end)
    (fun exception =>
       if isinstance_Exception exception
       then
         if ignore_broken_image
            && negb (isinstance_FileNotFoundError exception)
         then ret None
         else raise exception
       else raise exception).

(** Lines 71-95: the pixels of the new image and the write. *)
Definition render_image (im : Image) (old_camera new_camera : loc)
    (p : CropPlan) (new_image_abspath : string)
    (image_adjustments_3dhp horizontal_flip downscale_input_for_antialias
       : bool) : M unit :=
  im <- (if horizontal_flip then pixel OnImage Flip (flip_columns im)
         else ret im) ;;
  im <- pixel OnImage GammaDecode (gamma_decode im) ;;
  scaled <-
    (if downscale_input_for_antialias then
       let input_scale_factor := Rmin 1 (plan_scale_factor p * 4) in
       im' <- pixel OnImage Resize (resize_by_factor im input_scale_factor) ;;
       old_camera_scaled <- camera_copy old_camera ;;
       camera_call old_camera_scaled
         (fun c => scale_output c input_scale_factor) ;;;
       ret (im', old_camera_scaled)
     else ret (im, old_camera)) ;;
  oc <- load_camera (snd scaled) ;;
  nc <- load_camera new_camera ;;
  new_im <- pixel OnImage Reproject
              (reproject_image (fst scaled) oc nc (plan_dst_shape p) 2
                 (Some INTER_CUBIC)) ;;
  new_im <- pixel OnImage Clip (clip01 new_im) ;;
  new_im <-
    (if image_adjustments_3dhp then
       x <- pixel OnImage GammaEncode
              (gamma_encode new_im (1 / 2.2 * 0.67)%R) ;;
       pixel OnImage WhiteBalance (white_balance x 110 145)
     else pixel OnImage GammaEncode (gamma_encode new_im (1 / 2.2)%R)) ;;
  fs_ensure_parent_dir_exists new_image_abspath ;;;
  fs_imwrite new_image_abspath new_im 95.

(** [ex.camera] as the argument of [cameralib.reproject_image] in the
    mask branch: the attribute may be missing, and a [None] fails
    inside the library at its first attribute access. *)
Definition ex_camera (e : Example) : M Camera :=
  match camera e with
  | None => raise (AttributeError "camera")
  | Some None => raise (AttributeError "NoneType")
  | Some (Some lc) => load_camera lc
  end.

Definition bitmap_to_uint8 (b : Bitmap) : Grid Z :=
  map (map (fun v : bool => if v then 255%Z else 0%Z)) b.

(** Lines 107-122: the mask. *)
Definition transform_mask (e : Example) (new_ex new_camera : loc)
    (dst_shape : Z * Z) (reprojected_box : Box) : M unit :=
  match mask e with
  | None | Some MaskNone => ret tt
  | Some (MaskPath path) =>
      m <- fs_imread OnMask (ensure_absolute_path path) ;;
      m <- pixel OnMask Channel0 (channel0 m) ;;
      oc <- ex_camera e ;;
      nc <- load_camera new_camera ;;
      mask_reproj <- pixel OnMask Reproject
                       (reproject_image m oc nc dst_shape 2 None) ;;
      mask_reproj <- pixel OnMask Threshold
                       (bitmap_to_uint8
                          (greater_than mask_reproj (32 / 255)%R)) ;;
      r <- pixel_try OnMask Components
             (get_connected_component_with_highest_iou mask_reproj
                reprojected_box) ;;
      lm <- alloc (ORle r) ;;
      setattr new_ex (with_mask (Some (MaskObj lm)))
  | Some (MaskObj l) =>
      o <- load l ;;
      match o with
      | ONdarray a =>
          m <- match a with
               | NdImage im => ret im
               | _ => raise (TypeError "image")
               end ;;
          oc <- ex_camera e ;;
          nc <- load_camera new_camera ;;
          mask_reproj <- pixel OnMask Reproject
                           (reproject_image m oc nc dst_shape 2 None) ;;
          r <- pixel OnMask Encode
                 (rle_encode (greater_than mask_reproj 127%R)) ;;
          lm <- alloc (ORle r) ;;
          setattr new_ex (with_mask (Some (MaskObj lm)))
      | ORle enc =>
          m <- pixel OnMask Decode (bitmap_times (rle_decode enc) 255) ;;
          oc <- ex_camera e ;;
          nc <- load_camera new_camera ;;
          new_mask <- pixel OnMask Reproject
                        (reproject_image m oc nc dst_shape 2 None) ;;
          r <- pixel OnMask Encode
                 (rle_encode (greater_than new_mask 127%R)) ;;
          lm <- alloc (ORle r) ;;
          setattr new_ex (with_mask (Some (MaskObj lm)))
      | _ => raise (TypeError "mask")
      end
  end.

(** Lines 97-123: the new record. *)
Definition make_record (ex : loc) (e : Example) (new_image_path : string)
    (old_camera new_camera : loc) (reprojected_box : Box)
    (dst_shape : Z * Z) : M (option loc) :=
  new_ex <- deepcopy ex ;;
  lb <- alloc (ONdarray (NdBox reprojected_box)) ;;
  setattr new_ex (with_bbox lb) ;;;
  setattr new_ex (with_image_path (inl new_image_path)) ;;;
  (if has_3d_camera e
   then setattr new_ex (with_camera (Some (Some new_camera)))
   else ret tt) ;;;
  (if negb (is3d e) then
     ne <- load_example new_ex ;;
     match coords ne with
     | None => raise (AttributeError "coords")
     | Some lc =>
         pts <- load_points lc ;;
         oc <- load_camera old_camera ;;
         nc <- load_camera new_camera ;;
         lp <- alloc (ONdarray (NdPoints (reproject_image_points pts oc nc))) ;;
         setattr new_ex (with_coords (Some lp))
     end
   else ret tt) ;;;
  transform_mask e new_ex new_camera dst_shape reprojected_box ;;;
  ret (Some new_ex).

(** The function. The attributes of [ex] are read once, at the start;
    the keyword [joint_info] is not used by the source and is left
    out. The result [None] is Python's [None]. *)
Definition make_efficient_example (ex : loc) (new_image_path : string)
    (further_expansion_factor : R)
    (image_adjustments_3dhp : bool) (min_time : option R)
    (ignore_broken_image horizontal_flip downscale_input_for_antialias
       extreme_perspective : bool) : M (option loc) :=
  e <- load_example ex ;;
  src <- source_image e ;;
  wh <- image_size src ;;
  let full_box := boxlib.full (IZR (fst wh), IZR (snd wh)) in
  cams <- make_cameras e ;;
  let old_camera := fst cams in
  let new_camera := snd cams in
  b <- load_box (bbox e) ;;
  oc <- load_camera old_camera ;;
  nc <- load_camera new_camera ;;
  let p := crop_plan b full_box oc nc further_expansion_factor
             extreme_perspective in
  camera_call new_camera
    (fun c => shift_image c (- box_x (plan_expanded_bbox p),
                             - box_y (plan_expanded_bbox p))%R) ;;;
  camera_call new_camera (fun c => scale_output c (plan_scale_factor p)) ;;;
  nc' <- load_camera new_camera ;;
  let reprojected_box := reproject_box_side_midpoints b oc nc' in
  let dst_shape := plan_dst_shape p in
  let new_image_abspath := ensure_absolute_path new_image_path in
  cached <- destination_is_cached new_image_abspath min_time ;;
  if negb cached then
    r <- read_source src ignore_broken_image ;;
    match r with
    | None => ret None
    | Some im =>
        render_image im old_camera new_camera p new_image_abspath
          image_adjustments_3dhp horizontal_flip
          downscale_input_for_antialias ;;;
        make_record ex e new_image_path old_camera new_camera
          reprojected_box dst_shape
    end
  else
    make_record ex e new_image_path old_camera new_camera
      reprojected_box dst_shape.

End Operations.

(** ** Records by value

    The value of an example record: every reference replaced by the
    object it refers to. Two records are equivalent when their values
    are equal. *)

Section Views.
Context `{IL : ImageLib} `{CL : !CameraLib} `{IO : !FileIO} `{RL : Rlemasklib}.

Inductive MaskView : Type :=
| MvNone
| MvPath (p : string)
| MvDense (im : Image)
| MvRle (r : Rle).

Record ExampleView := mkView {
  v_image_path : string + Image;
  v_bbox : Box;
  v_camera : option (option Camera);
  v_coords : option (list Point);
  v_world_coords : option (list (R * R * R));
  v_mask : option MaskView;
}.

Definition get_camera (h : gmap loc obj) (l : loc) : option Camera :=
  match h !! l with Some (OCamera c) => Some c | _ => None end.
Definition get_box (h : gmap loc obj) (l : loc) : option Box :=
  match h !! l with Some (ONdarray (NdBox b)) => Some b | _ => None end.
Definition get_points (h : gmap loc obj) (l : loc) : option (list Point) :=
  match h !! l with Some (ONdarray (NdPoints p)) => Some p | _ => None end.
Definition get_world (h : gmap loc obj) (l : loc)
    : option (list (R * R * R)) :=
  match h !! l with Some (ONdarray (NdWorld p)) => Some p | _ => None end.
Definition get_image (h : gmap loc obj) (l : loc) : option Image :=
  match h !! l with Some (ONdarray (NdImage im)) => Some im | _ => None end.

Definition view_image_path (h : gmap loc obj) (v : string + loc)
    : option (string + Image) :=
  match v with
  | inl p => Some (inl p)
  | inr l => im ← get_image h l; Some (inr im)
  end.

Definition view_camera (h : gmap loc obj) (v : option (option loc))
    : option (option (option Camera)) :=
  match v with
  | None => Some None
  | Some None => Some (Some None)
  | Some (Some l) => c ← get_camera h l; Some (Some (Some c))
  end.

Definition view_opt {A} (get : gmap loc obj -> loc -> option A)
    (h : gmap loc obj) (v : option loc) : option (option A) :=
  match v with
  | None => Some None
  | Some l => a ← get h l; Some (Some a)
  end.

Definition view_mask (h : gmap loc obj) (v : option mask_field)
    : option (option MaskView) :=
  match v with
  | None => Some None
  | Some MaskNone => Some (Some MvNone)
  | Some (MaskPath p) => Some (Some (MvPath p))
  | Some (MaskObj l) =>
      match h !! l with
      | Some (ONdarray (NdImage im)) => Some (Some (MvDense im))
      | Some (ORle r) => Some (Some (MvRle r))
      | _ => None
      end
  end.

Definition view_example (h : gmap loc obj) (e : Example)
    : option ExampleView :=
  ip ← view_image_path h (image_path e);
  b ← get_box h (bbox e);
  cam ← view_camera h (camera e);
  co ← view_opt get_points h (coords e);
  wc ← view_opt get_world h (world_coords e);
  m ← view_mask h (mask e);
  Some (mkView ip b cam co wc m).

(** The value of the record at [l]; [None] when [l] is not a record
    all of whose attributes refer to objects of the expected kind. *)
Definition view (h : gmap loc obj) (l : loc) : option ExampleView :=
  match h !! l with
  | Some (OExample e) => view_example h e
  | _ => None
  end.

(** The locations an example record refers to. *)
Definition example_locs (e : Example) : list loc :=
  match image_path e with inr l => [l] | inl _ => [] end
  ++ [bbox e]
  ++ match camera e with Some (Some l) => [l] | _ => [] end
  ++ match coords e with Some l => [l] | None => [] end
  ++ match world_coords e with Some l => [l] | None => [] end
  ++ match mask e with Some (MaskObj l) => [l] | _ => [] end.

(** None of the locations the record refers to is used by [h],
    attribute by attribute. *)
Definition locs_unused (h : gmap loc obj) (e : Example) : Prop :=
  (forall l, image_path e = inr l -> h !! l = None) /\
  h !! bbox e = None /\
  (forall l, camera e = Some (Some l) -> h !! l = None) /\
  (forall l, coords e = Some l -> h !! l = None) /\
  (forall l, world_coords e = Some l -> h !! l = None) /\
  (forall l, mask e = Some (MaskObj l) -> h !! l = None).

(** The record at [l] and everything it refers to was created after
    the store [h]: none of these locations is used by [h]. *)
Definition fresh_record (h h' : gmap loc obj) (l : loc) : Prop :=
  h !! l = None /\
  exists e', h' !! l = Some (OExample e') /\
             Forall (fun l2 => h !! l2 = None) (example_locs e').

(** ** The function by value

    What an invocation computes, as a function of the value of the
    input record and of the file system: the outcome, the file system
    afterwards, and the operations in the order they happen. *)

Definition v_has_3d_camera (v : ExampleView) : bool :=
  match v_camera v with Some (Some _) => true | _ => false end.

Definition v_is3d (v : ExampleView) : bool :=
  match v_world_coords v with Some _ => true | None => false end.

Definition expected_size (v : ExampleView) (fs : FS) : outcome (Z * Z) :=
  match v_image_path v with
  | inl p => image_extents fs (ensure_absolute_path p)
  | inr im => Value (snd (image_shape im), fst (image_shape im))
  end.

Definition size_log (v : ExampleView) : list event :=
  match v_image_path v with
  | inl p => [EvImageExtents (ensure_absolute_path p)]
  | inr _ => []
  end.

(** The old camera and the new camera before the crop (lines 34-43). *)
Definition expected_cameras (v : ExampleView) : Camera * Camera :=
  match v_camera v with
  | Some (Some c) =>
      (c, undistort (turn_towards c (boxlib.center (v_bbox v))))
  | _ => (create2D, create2D)
  end.

Definition expected_plan (v : ExampleView) (wh : Z * Z)
    (further_expansion_factor : R) (extreme_perspective : bool) : CropPlan :=
  crop_plan (v_bbox v) (boxlib.full (IZR (fst wh), IZR (snd wh)))
    (fst (expected_cameras v)) (snd (expected_cameras v))
    further_expansion_factor extreme_perspective.

(** The new camera of the result (lines 53-54). *)
Definition expected_new_camera (v : ExampleView) (p : CropPlan) : Camera :=
  scale_output
    (shift_image (snd (expected_cameras v))
       (- box_x (plan_expanded_bbox p), - box_y (plan_expanded_bbox p))%R)
    (plan_scale_factor p).

(** The box of the result (line 56). *)
Definition expected_bbox (v : ExampleView) (p : CropPlan) : Box :=
  reproject_box_side_midpoints (v_bbox v) (fst (expected_cameras v))
    (expected_new_camera v p).

Definition expected_cached (fs : FS) (abspath : string) (min_time : option R)
    : bool :=
  is_file_newer fs abspath min_time && is_image_readable fs abspath.

Definition cached_log (fs : FS) (abspath : string) (min_time : option R)
    : list event :=
  EvIsFileNewer abspath
  :: (if is_file_newer fs abspath min_time
      then [EvIsImageReadable abspath] else []).

Definition expected_read (v : ExampleView) (fs : FS)
    (ignore_broken_image : bool) : outcome (option Image) :=
  match v_image_path v with
  | inr im => Value (Some im)
  | inl p =>
      match imread fs p with
      | Value im => Value (Some im)
      | Raised e =>
          if isinstance_Exception e
          then if ignore_broken_image && negb (isinstance_FileNotFoundError e)
               then Value None else Raised e
          else Raised e
      end
  end.

Definition read_log (v : ExampleView) : list event :=
  match v_image_path v with
  | inl p => [EvImread OnImage p]
  | inr _ => []
  end.

(** The pixels written to the destination (lines 71-93), from the old
    and the new camera. *)
Definition expected_image (im : Image) (old_camera new_camera : Camera)
    (p : CropPlan)
    (image_adjustments_3dhp horizontal_flip downscale_input_for_antialias
       : bool) : Image :=
  let im := if horizontal_flip then flip_columns im else im in
  let im := gamma_decode im in
  let input_scale_factor := Rmin 1 (plan_scale_factor p * 4) in
  let im' :=
    if downscale_input_for_antialias
    then resize_by_factor im input_scale_factor else im in
  let oc :=
    if downscale_input_for_antialias
    then scale_output old_camera input_scale_factor
    else old_camera in
  let new_im :=
    clip01 (reproject_image im' oc new_camera (plan_dst_shape p) 2
              (Some INTER_CUBIC)) in
  if image_adjustments_3dhp
  then white_balance (gamma_encode new_im (1 / 2.2 * 0.67)%R) 110 145
  else gamma_encode new_im (1 / 2.2)%R.

Definition render_log (abspath : string)
    (image_adjustments_3dhp horizontal_flip downscale_input_for_antialias
       : bool) : list event :=
  (if horizontal_flip then [EvPixel OnImage Flip] else [])
  ++ [EvPixel OnImage GammaDecode]
  ++ (if downscale_input_for_antialias then [EvPixel OnImage Resize] else [])
  ++ [EvPixel OnImage Reproject; EvPixel OnImage Clip;
      EvPixel OnImage GammaEncode]
  ++ (if image_adjustments_3dhp then [EvPixel OnImage WhiteBalance] else [])
  ++ [EvMkdir abspath; EvImwrite abspath].

Definition expected_ex_camera (v : ExampleView) : outcome Camera :=
  match v_camera v with
  | None => Raised (AttributeError "camera")
  | Some None => Raised (AttributeError "NoneType")
  | Some (Some c) => Value c
  end.

(** What the attribute access on a missing camera complains about. *)
Definition missing_camera_attr (v : ExampleView) : string :=
  match v_camera v with
  | None => "camera"
  | _ => "NoneType"
  end.

(** The mask of the result (lines 107-122) and the operations made
    for it. *)
Definition expected_mask (v : ExampleView) (fs : FS) (nc : Camera)
    (dst_shape : Z * Z) (reprojected_box : Box)
    : outcome (option MaskView) * list event :=
  match v_mask v with
  | None => (Value None, [])
  | Some MvNone => (Value (Some MvNone), [])
  | Some (MvPath path) =>
      let abspath := ensure_absolute_path path in
      match imread fs abspath with
      | Raised e => (Raised e, [EvImread OnMask abspath])
      | Value m =>
          match expected_ex_camera v with
          | Raised e =>
              (Raised e, [EvImread OnMask abspath; EvPixel OnMask Channel0])
          | Value oc =>
              let mask_reproj :=
                reproject_image (channel0 m) oc nc dst_shape 2 None in
              (match get_connected_component_with_highest_iou
                       (bitmap_to_uint8
                          (greater_than mask_reproj (32 / 255)%R))
                       reprojected_box with
               | Value r => Value (Some (MvRle r))
               | Raised e => Raised e
               end,
               [EvImread OnMask abspath; EvPixel OnMask Channel0;
                EvPixel OnMask Reproject; EvPixel OnMask Threshold;
                EvPixel OnMask Components])
          end
      end
  | Some (MvDense m) =>
      match expected_ex_camera v with
      | Raised e => (Raised e, [])
      | Value oc =>
          (Value (Some (MvRle
             (rle_encode
                (greater_than (reproject_image m oc nc dst_shape 2 None)
                   127%R)))),
           [EvPixel OnMask Reproject; EvPixel OnMask Encode])
      end
  | Some (MvRle enc) =>
      match expected_ex_camera v with
      | Raised e => (Raised e, [EvPixel OnMask Decode])
      | Value oc =>
          (Value (Some (MvRle
             (rle_encode
                (greater_than
                   (reproject_image (bitmap_times (rle_decode enc) 255)
                      oc nc dst_shape 2 None)
                   127%R)))),
           [EvPixel OnMask Decode; EvPixel OnMask Reproject;
            EvPixel OnMask Encode])
      end
  end.

(** The coordinates of the result (lines 104-105). *)
Definition expected_coords (v : ExampleView) (oc nc : Camera)
    : outcome (option (list Point)) :=
  if v_is3d v then Value (v_coords v)
  else
    match v_coords v with
    | None => Raised (AttributeError "coords")
    | Some pts => Value (Some (reproject_image_points pts oc nc))
    end.

(** The record of the result (lines 97-123). *)
Definition expected_record (v : ExampleView) (fs : FS)
    (new_image_path : string) (oc nc : Camera) (reprojected_box : Box)
    (dst_shape : Z * Z)
    : outcome (option ExampleView) * list event :=
  match expected_coords v oc nc with
  | Raised e => (Raised e, [])
  | Value co =>
      match expected_mask v fs nc dst_shape reprojected_box with
      | (Raised e, evs) => (Raised e, evs)
      | (Value m, evs) =>
          (Value (Some
             (mkView (inl new_image_path)
                reprojected_box
                (if v_has_3d_camera v then Some (Some nc) else v_camera v)
                co
                (v_world_coords v)
                m)),
           evs)
      end
  end.

(** The record of the result for a crop plan. *)
Definition expected_record_of (v : ExampleView) (fs : FS) (p : CropPlan)
    (new_image_path : string)
    : outcome (option ExampleView) * list event :=
  expected_record v fs new_image_path (fst (expected_cameras v))
    (expected_new_camera v p) (expected_bbox v p) (plan_dst_shape p).

Definition expected (v : ExampleView) (fs : FS) (new_image_path : string)
    (further_expansion_factor : R)
    (image_adjustments_3dhp : bool) (min_time : option R)
    (ignore_broken_image horizontal_flip downscale_input_for_antialias
       extreme_perspective : bool)
    : outcome (option ExampleView) * FS * list event :=
  match expected_size v fs with
  | Raised e => (Raised e, fs, size_log v)
  | Value wh =>
      let p := expected_plan v wh further_expansion_factor
                 extreme_perspective in
      let abspath := ensure_absolute_path new_image_path in
      let ev1 := size_log v ++ cached_log fs abspath min_time in
      if expected_cached fs abspath min_time then
        let r := expected_record_of v fs p new_image_path in
        (fst r, fs, ev1 ++ snd r)
      else
        match expected_read v fs ignore_broken_image with
        | Raised e => (Raised e, fs, ev1 ++ read_log v)
        | Value None => (Value None, fs, ev1 ++ read_log v)
        | Value (Some im) =>
            let new_im :=
              expected_image im (fst (expected_cameras v))
                (expected_new_camera v p) p image_adjustments_3dhp
                horizontal_flip downscale_input_for_antialias in
            let fs' :=
              imwrite (ensure_parent_dir_exists fs abspath) abspath new_im 95
            in
            let r := expected_record_of v fs' p new_image_path in
            (fst r, fs',
             ev1 ++ read_log v
             ++ render_log abspath image_adjustments_3dhp horizontal_flip
                  downscale_input_for_antialias
             ++ snd r)
        end
  end.

(** How the outcome of an invocation (on the store) matches an
    outcome by value. *)
Definition outcome_matches (h h' : gmap loc obj)
    (o : outcome (option loc)) (o' : outcome (option ExampleView)) : Prop :=
  match o, o' with
  | Raised e, Raised e' => e = e'
  | Value None, Value None => True
  | Value (Some l), Value (Some v') =>
      view h' l = Some v' /\ fresh_record h h' l
  | _, _ => False
  end.

(** The state after the operations [evs] (in the order they happen)
    were logged. *)
Definition add_logs (evs : list event) (s : state) : state :=
  mkState (heap s) (files s) (rev evs ++ log s).

(** Values of records with one attribute replaced. *)
Definition v_with_bbox (b : Box) (v : ExampleView) : ExampleView :=
  mkView (v_image_path v) b (v_camera v) (v_coords v) (v_world_coords v)
    (v_mask v).
Definition v_with_image_path (x : string + Image) (v : ExampleView)
    : ExampleView :=
  mkView x (v_bbox v) (v_camera v) (v_coords v) (v_world_coords v) (v_mask v).
Definition v_with_camera (x : option (option Camera)) (v : ExampleView)
    : ExampleView :=
  mkView (v_image_path v) (v_bbox v) x (v_coords v) (v_world_coords v)
    (v_mask v).
Definition v_with_coords (x : option (list Point)) (v : ExampleView)
    : ExampleView :=
  mkView (v_image_path v) (v_bbox v) (v_camera v) x (v_world_coords v)
    (v_mask v).
Definition v_with_mask (x : option MaskView) (v : ExampleView)
    : ExampleView :=
  mkView (v_image_path v) (v_bbox v) (v_camera v) (v_coords v)
    (v_world_coords v) x.

(** The record under construction: [n] is a record created after the
    store [hb], with the attributes [e1] and the value [v1]; it refers
    to objects created after the earlier store [h0] only. *)
Definition record_at (h0 hb : gmap loc obj) (s : state) (n : loc)
    (e1 : Example) (v1 : ExampleView) : Prop :=
  h0 ⊆ hb /\ hb ⊆ heap s /\ hb !! n = None /\
  heap s !! n = Some (OExample e1) /\
  view_example (heap s) e1 = Some v1 /\
  locs_unused h0 e1.

(** [s'] differs from [s] by new objects only. *)
Definition extends (s s' : state) : Prop :=
  heap s ⊆ heap s' /\ files s' = files s /\ log s' = log s.

(** [runs m s o s']: from [s], [m] ends with the outcome [o] in [s']. *)
Definition runs {A} (m : M A) (s : state) (o : outcome A) (s' : state)
    : Prop :=
  m s = (o, s').

(** Outcome and final state of an invocation. *)
Definition outcome_of {A} (m : M A) (s : state) : outcome A := fst (m s).
Definition final_state {A} (m : M A) (s : state) : state := snd (m s).

(** The operations an invocation made, in the order they happened:
    what it added to the log. *)
Definition events_of {A} (m : M A) (s : state) : list event :=
  rev (take (length (log (final_state m s)) - length (log s))
         (log (final_state m s))).

(** Two outcomes are equivalent: the same exception, or [None] twice,
    or two records of equal value. *)
Definition outcomes_equivalent (h1 : gmap loc obj) (o1 : outcome (option loc))
    (h2 : gmap loc obj) (o2 : outcome (option loc)) : Prop :=
  match o1, o2 with
  | Raised e1, Raised e2 => e1 = e2
  | Value None, Value None => True
  | Value (Some l1), Value (Some l2) =>
      exists v', view h1 l1 = Some v' /\ view h2 l2 = Some v'
  | _, _ => False
  end.

End Views.

(** ** A small instance of the interfaces

    Flat cameras (a shift and a scale of the image plane), images as
    grids of integers on which the pixel operations that play no part
    in the properties are the identity, a file system as a finite map
    from paths to files, and masks encoded as themselves. The
    properties below are stated for every instance; this one serves
    to exercise them on concrete inputs. *)

Module Flat.

Record camera := mkCamera { cam_shift : Point; cam_scale : R }.

(** A point of the old image seen in the new image. *)
Definition move (old new : camera) (p : Point) : Point :=
  ((fst p - fst (cam_shift old)) / cam_scale old * cam_scale new
     + fst (cam_shift new),
   (snd p - snd (cam_shift old)) / cam_scale old * cam_scale new
     + snd (cam_shift new))%R.

Definition move_box (b : Box) (old new : camera) : Box :=
  let p := move old new (box_x b, box_y b) in
  mkBox (fst p) (snd p)
    (box_w b / cam_scale old * cam_scale new)%R
    (box_h b / cam_scale old * cam_scale new)%R.

#[export] Instance image_lib : ImageLib := {|
  Image := Grid Z;
  image_shape im := (Z.of_nat (grid_rows im), Z.of_nat (grid_cols im));
  flip_columns im := map (@rev Z) im;
  gamma_decode im := im;
  resize_by_factor im _ := im;
  clip01 im := im;
  gamma_encode im _ := im;
  white_balance im _ _ := im;
  channel0 im := im;
  greater_than im _ := map (map (fun v => (0 <? v)%Z)) im;
  bitmap_times b k := map (map (fun v : bool => if v then k else 0%Z)) b;
|}.

#[export] Instance camera_lib : CameraLib := {|
  Camera := camera;
  create2D := mkCamera (0, 0)%R 1%R;
  turn_towards c _ := c;
  undistort c := c;
  shift_image c off :=
    mkCamera (fst (cam_shift c) + fst off, snd (cam_shift c) + snd off)%R
      (cam_scale c);
  scale_output c k :=
    mkCamera (fst (cam_shift c) * k, snd (cam_shift c) * k)%R
      (cam_scale c * k)%R;
  reproject_box_side_midpoints := move_box;
  reproject_box_corners := move_box;
  reproject_image_points pts old new := map (move old new) pts;
  reproject_image im _ _ _ _ _ := im;
|}.

(** A file: its modification time, the width and height its header
    announces and, when it decodes, its image. *)
Record file := mkFile {
  mtime : Z;
  extents : Z * Z;
  content : option (Grid Z);
}.

Definition file_of_image (t : Z) (im : Grid Z) : file :=
  mkFile t (Z.of_nat (grid_cols im), Z.of_nat (grid_rows im)) (Some im).

Definition read_file (fs : gmap string file) (path : string)
    : outcome (Grid Z) :=
  match fs !! path with
  | None => Raised (FileNotFoundError path)
  | Some f =>
      match content f with
      | None => Raised (OtherException "cannot identify image file")
      | Some im => Value im
      end
  end.

#[export] Instance file_io : FileIO := {|
  FS := gmap string file;
  ensure_absolute_path p := p;
  image_extents fs p :=
    match fs !! p with
    | None => Raised (FileNotFoundError p)
    | Some f => Value (extents f)
    end;
  imread := read_file;
  is_file_newer fs p t :=
    match fs !! p with
    | None => false
    | Some f =>
        match t with
        | None => true
        | Some t => if Rle_dec t (IZR (mtime f)) then true else false
        end
    end;
  is_image_readable fs p :=
    match read_file fs p with Value _ => true | Raised _ => false end;
  ensure_parent_dir_exists fs _ := fs;
  imwrite fs p im _ := <[p := file_of_image 0 im]> fs;
  rounded_int r := Int_part (r + / 2)%R;
|}.

#[export] Instance rle_lib : Rlemasklib := {|
  Rle := Bitmap;
  rle_encode b := b;
  rle_decode b := b;
|}.

(** A 2-D example: an image on disk, a box, one keypoint; no camera,
    no mask. *)
Definition ex2d : Example :=
  mkExample (inl "src.jpg") 2%positive None (Some 3%positive) None None.

Definition box0 : Box := mkBox 100 100 50 80.

Definition picture : Image := [[10; 20]; [30; 40]]%Z.

Definition heap2d : gmap loc obj :=
  <[1%positive := OExample ex2d]>
    (<[2%positive := ONdarray (NdBox box0)]>
       (<[3%positive := ONdarray (NdPoints [(120, 140)%R])]> ∅)).

Definition view2d : ExampleView :=
  mkView (inl "src.jpg") box0 None (Some [(120, 140)%R]) None None.

(** The same example with a dense mask. *)
Definition ex2d_mask : Example :=
  mkExample (inl "src.jpg") 2%positive None (Some 3%positive) None
    (Some (MaskObj 4%positive)).

Definition heap2d_mask : gmap loc obj :=
  <[1%positive := OExample ex2d_mask]>
    (<[2%positive := ONdarray (NdBox box0)]>
       (<[3%positive := ONdarray (NdPoints [(120, 140)%R])]>
          (<[4%positive := ONdarray (NdImage [[0; 255]; [255; 0]]%Z)]> ∅))).

Definition view2d_mask : ExampleView :=
  mkView (inl "src.jpg") box0 None (Some [(120, 140)%R]) None
    (Some (MvDense [[0; 255]; [255; 0]]%Z)).

(** A 3-D example: a camera and world coordinates. *)
Definition ex3d : Example :=
  mkExample (inl "src.jpg") 2%positive (Some (Some 5%positive)) None
    (Some 3%positive) None.

Definition camera0 : Camera := mkCamera (0, 0)%R 1%R.

Definition heap3d : gmap loc obj :=
  <[1%positive := OExample ex3d]>
    (<[2%positive := ONdarray (NdBox box0)]>
       (<[3%positive := ONdarray (NdWorld [(1, 2, 3)%R])]>
          (<[5%positive := OCamera camera0]> ∅))).

Definition view3d : ExampleView :=
  mkView (inl "src.jpg") box0 (Some (Some camera0)) None
    (Some [(1, 2, 3)%R]) None.

(** The 3-D example with a dense mask. *)
Definition ex3d_mask : Example :=
  mkExample (inl "src.jpg") 2%positive (Some (Some 5%positive)) None
    (Some 3%positive) (Some (MaskObj 4%positive)).

Definition heap3d_mask : gmap loc obj :=
  <[1%positive := OExample ex3d_mask]>
    (<[2%positive := ONdarray (NdBox box0)]>
       (<[3%positive := ONdarray (NdWorld [(1, 2, 3)%R])]>
          (<[4%positive := ONdarray (NdImage [[0; 255]; [255; 0]]%Z)]>
             (<[5%positive := OCamera camera0]> ∅)))).

Definition view3d_mask : ExampleView :=
  mkView (inl "src.jpg") box0 (Some (Some camera0)) None
    (Some [(1, 2, 3)%R]) (Some (MvDense [[0; 255]; [255; 0]]%Z)).

(** File systems: the source only; the source and a fresh destination;
    a source that does not decode; no file at all. *)
Definition fs_source : gmap string file :=
  <["src.jpg" := file_of_image 0 picture]> ∅.

Definition fs_cached : gmap string file :=
  <["dst.jpg" := file_of_image 1 picture]> fs_source.

Definition fs_corrupt : gmap string file :=
  <["src.jpg" := mkFile 0 (2, 2)%Z None]> ∅.

Definition state_of (h : gmap loc obj) (fs : gmap string file) : state :=
  mkState h fs [].

(** A 2-D example that lacks the [coords] attribute. *)
Definition ex2d_nocoords : Example :=
  mkExample (inl "src.jpg") 2%positive None None None None.

Definition heap2d_nocoords : gmap loc obj :=
  <[1%positive := OExample ex2d_nocoords]>
    (<[2%positive := ONdarray (NdBox box0)]> ∅).

Definition view2d_nocoords : ExampleView :=
  mkView (inl "src.jpg") box0 None None None None.

(** A 3-D example whose mask is a path. *)
Definition ex3d_maskpath : Example :=
  mkExample (inl "src.jpg") 2%positive (Some (Some 5%positive)) None
    (Some 3%positive) (Some (MaskPath "mask.png")).

Definition heap3d_maskpath : gmap loc obj :=
  <[1%positive := OExample ex3d_maskpath]>
    (<[2%positive := ONdarray (NdBox box0)]>
       (<[3%positive := ONdarray (NdWorld [(1, 2, 3)%R])]>
          (<[5%positive := OCamera camera0]> ∅))).

Definition view3d_maskpath : ExampleView :=
  mkView (inl "src.jpg") box0 (Some (Some camera0)) None
    (Some [(1, 2, 3)%R]) (Some (MvPath "mask.png")).

(** A 2-D example whose image is an array in memory. *)
Definition ex2d_inmem : Example :=
  mkExample (inr 6%positive) 2%positive None (Some 3%positive) None None.

Definition heap2d_inmem : gmap loc obj :=
  <[1%positive := OExample ex2d_inmem]>
    (<[2%positive := ONdarray (NdBox box0)]>
       (<[3%positive := ONdarray (NdPoints [(120, 140)%R])]>
          (<[6%positive := ONdarray (NdImage picture)]> ∅))).

Definition view2d_inmem : ExampleView :=
  mkView (inr picture) box0 None (Some [(120, 140)%R]) None None.

(** A file system with a fresh destination and no source. *)
Definition fs_destination_only : gmap string file :=
  <["dst.jpg" := file_of_image 1 picture]> ∅.

(** An invocation on the record at location 1: destination
    ["dst.jpg"], factor 1, no time threshold, and all flags unset but
    [ignore_broken_image]. *)
Definition invoke (ignore_broken_image : bool) : M (option loc) :=
  make_efficient_example 1%positive "dst.jpg" 1%R false None
    ignore_broken_image false false false.

End Flat.
(** * Properties *)

(** ** Facts on the geometry *)

Section Geometry.
Local Open Scope R_scope.

Lemma sqrt3_lower : 1.7 <= sqrt 3.
Proof.
  rewrite <- (sqrt_square 1.7) by lra.
  apply sqrt_le_1_alt. lra.
Qed.

Lemma cos_PI6_lower : 0.85 <= cos (PI / 6).
Proof. rewrite cos_PI6. pose proof sqrt3_lower. lra. Qed.

Lemma cos_PI6_upper : cos (PI / 6) <= 1.
Proof. apply COS_bound. Qed.

(** For an angle of at most 30 degrees either way, the sine is at most
    one half in absolute value. *)
Lemma sin_small_angle (theta : R) :
  Rabs theta <= PI / 6 -> - (1 / 2) <= sin theta <= 1 / 2.
Proof.
  intros Hth. pose proof PI_RGT_0 as Hpi.
  assert (Hlo : - (PI / 6) <= theta) by
    (unfold Rabs in Hth; destruct (Rcase_abs theta); lra).
  assert (Hhi : theta <= PI / 6) by
    (unfold Rabs in Hth; destruct (Rcase_abs theta); lra).
  split.
  - rewrite <- sin_PI6, <- sin_neg.
    apply sin_incr_1; lra.
  - rewrite <- sin_PI6.
    apply sin_incr_1; lra.
Qed.

Lemma cos_small_angle (theta : R) : - 1 <= cos theta <= 1.
Proof. apply COS_bound. Qed.

(** A bilinear bound: [|a*x - b*y| <= A*X + B*Y] when [|a| <= A],
    [|b| <= B], [|x| <= X], [|y| <= Y]. *)
Lemma abs_mul_le (a x A X : R) :
  - A <= a <= A -> - X <= x <= X -> - (A * X) <= a * x <= A * X.
Proof.
  intros Ha Hx.
  assert (HA : 0 <= A) by lra. assert (HX : 0 <= X) by lra.
  split; nra.
Qed.

Lemma rot_side_spec_lower (w h : R) :
  0 <= w -> 0 <= h ->
  0.85 * w + h / 2 <= rot_side_spec w h /\
  0.85 * h + w / 2 <= rot_side_spec w h.
Proof.
  intros Hw Hh. unfold rot_side_spec. rewrite sin_PI6.
  pose proof cos_PI6_lower as Hc.
  assert (0.85 * w <= cos (PI / 6) * w) by (apply Rmult_le_compat_r; lra).
  assert (0.85 * h <= cos (PI / 6) * h) by (apply Rmult_le_compat_r; lra).
  split.
  - eapply Rle_trans; [|apply Rmax_l]. lra.
  - eapply Rle_trans; [|apply Rmax_r]. lra.
Qed.

Lemma expansion_factor_spec_lower (f : R) :
  1 <= f -> 1.5 <= expansion_factor_spec f.
Proof. intros Hf. unfold expansion_factor_spec. lra. Qed.

(** The square that [get_expanded_crop_box] builds before it cuts to
    [full_box]. *)
Definition unclipped_crop_box (bbox : Box) (f : R) : Box :=
  boxlib.expand
    (boxlib.box_around (boxlib.center bbox)
       (rot_side_spec (box_w bbox) (box_h bbox)))
    (expansion_factor_spec f).

Lemma get_expanded_crop_box_unfold (bbox full_box : Box) (f : R) :
  get_expanded_crop_box bbox full_box f
  = boxlib.intersection (unclipped_crop_box bbox f) full_box.
Proof. reflexivity. Qed.

Lemma in_box_intersection (a b : Box) (p : Point) :
  in_box a p -> in_box b p -> in_box (boxlib.intersection a b) p.
Proof.
  unfold in_box, boxlib.intersection. simpl.
  intros [[Hax1 Hax2] [Hay1 Hay2]] [[Hbx1 Hbx2] [Hby1 Hby2]].
  assert (Hx1 : Rmax (box_x a) (box_x b) <= fst p) by (apply Rmax_lub; lra).
  assert (Hy1 : Rmax (box_y a) (box_y b) <= snd p) by (apply Rmax_lub; lra).
  assert (Hx2 : fst p <= Rmin (box_x a + box_w a) (box_x b + box_w b))
    by (apply Rmin_glb; lra).
  assert (Hy2 : snd p <= Rmin (box_y a + box_h a) (box_y b + box_h b))
    by (apply Rmin_glb; lra).
  repeat split; try assumption.
  - rewrite (Rmax_right 0) by lra. lra.
  - rewrite (Rmax_right 0) by lra. lra.
Qed.

(** Before the cut to [full_box], the square contains the box turned by
    any angle of at most 30 degrees. *)
Lemma unclipped_crop_box_contains_rotated
    (b : Box) (f theta : R) (p : Point) :
  0 <= box_w b -> 0 <= box_h b -> 1 <= f -> Rabs theta <= PI / 6 ->
  in_box b p ->
  in_box (unclipped_crop_box b f) (rotate_about (boxlib.center b) theta p).
Proof.
  intros Hw Hh Hf Hth [[Hx1 Hx2] [Hy1 Hy2]].
  destruct (rot_side_spec_lower _ _ Hw Hh) as [HS1 HS2].
  pose proof (expansion_factor_spec_lower f Hf) as HE.
  pose proof (sin_small_angle theta Hth) as Hsin.
  pose proof (cos_small_angle theta) as Hcos.
  unfold in_box, unclipped_crop_box, rotate_about, boxlib.expand,
    boxlib.box_around, boxlib.center. simpl.
  set (S := rot_side_spec (box_w b) (box_h b)) in *.
  set (E := expansion_factor_spec f) in *.
  set (dx := fst p - (box_x b + box_w b / 2)).
  set (dy := snd p - (box_y b + box_h b / 2)).
  assert (Hdx : - (box_w b / 2) <= dx <= box_w b / 2) by (unfold dx; lra).
  assert (Hdy : - (box_h b / 2) <= dy <= box_h b / 2) by (unfold dy; lra).
  assert (HS0 : 0 <= S) by lra.
  assert (HSE : 1.5 * S <= S * E) by nra.
  pose proof (abs_mul_le (cos theta) dx 1 (box_w b / 2) ltac:(lra) Hdx) as Hcx.
  pose proof (abs_mul_le (sin theta) dy (1 / 2) (box_h b / 2) ltac:(lra) Hdy) as Hsy.
  pose proof (abs_mul_le (sin theta) dx (1 / 2) (box_w b / 2) ltac:(lra) Hdx) as Hsx.
  pose proof (abs_mul_le (cos theta) dy 1 (box_h b / 2) ltac:(lra) Hdy) as Hcy.
  repeat split; lra.
Qed.

End Geometry.

(** ** Running invocations *)

Section Runs.
Context `{IL : ImageLib} `{CL : !CameraLib} `{IO : !FileIO} `{RL : Rlemasklib}.

Implicit Types (s : state) (h : gmap loc obj) (l : loc).

Lemma runs_ret {A} (a : A) s : runs (ret a) s (Value a) s.
Proof. reflexivity. Qed.

Lemma runs_raise {A} (e : exn) s : runs (raise (A := A) e) s (Raised e) s.
Proof. reflexivity. Qed.

Lemma runs_bind {A B} (m : M A) (k : A -> M B) s a s1 o s2 :
  runs m s (Value a) s1 -> runs (k a) s1 o s2 -> runs (bind m k) s o s2.
Proof. unfold runs, bind. intros -> ->. reflexivity. Qed.

Lemma runs_bind_raised {A B} (m : M A) (k : A -> M B) s e s1 :
  runs m s (Raised e) s1 -> runs (bind m k) s (Raised e) s1.
Proof. unfold runs, bind. intros ->. reflexivity. Qed.

Lemma runs_bind_assoc {A B C} (m : M A) (f : A -> M B) (g : B -> M C)
    s o s' :
  runs (bind (bind m f) g) s o s' ->
  runs (bind m (fun a => bind (f a) g)) s o s'.
Proof. unfold runs, bind. by destruct (m s) as [[a|e] s1]. Qed.

Lemma runs_det {A} (m : M A) s o1 s1 o2 s2 :
  runs m s o1 s1 -> runs m s o2 s2 -> o1 = o2 /\ s1 = s2.
Proof. unfold runs. intros H1 H2. rewrite H1 in H2. by inversion H2. Qed.

Lemma fresh_unused h : h !! fresh (dom h) = None.
Proof. apply not_elem_of_dom, is_fresh. Qed.

Lemma runs_alloc o s :
  runs (alloc o) s (Value (fresh (dom (heap s))))
    (set_heap (<[fresh (dom (heap s)) := o]> (heap s)) s).
Proof. reflexivity. Qed.

Lemma runs_store l o s :
  runs (store l o) s (Value tt) (set_heap (<[l := o]> (heap s)) s).
Proof. reflexivity. Qed.

Lemma runs_load_camera l c s :
  get_camera (heap s) l = Some c -> runs (load_camera l) s (Value c) s.
Proof.
  unfold get_camera, runs, load_camera. intros H.
  destruct (heap s !! l) as [[]|]; by simplify_eq.
Qed.

Lemma runs_load_box l b s :
  get_box (heap s) l = Some b -> runs (load_box l) s (Value b) s.
Proof.
  unfold get_box, runs, load_box. intros H.
  destruct (heap s !! l) as [[|[]| |]|]; by simplify_eq.
Qed.

Lemma runs_load_points l p s :
  get_points (heap s) l = Some p -> runs (load_points l) s (Value p) s.
Proof.
  unfold get_points, runs, load_points. intros H.
  destruct (heap s !! l) as [[|[]| |]|]; by simplify_eq.
Qed.

Lemma runs_load_image l im s :
  get_image (heap s) l = Some im -> runs (load_image l) s (Value im) s.
Proof.
  unfold get_image, runs, load_image. intros H.
  destruct (heap s !! l) as [[|[]| |]|]; by simplify_eq.
Qed.

Lemma runs_load_example l e s :
  heap s !! l = Some (OExample e) -> runs (load_example l) s (Value e) s.
Proof. unfold runs, load_example. by intros ->. Qed.

Lemma runs_load l o s :
  heap s !! l = Some o -> runs (load l) s (Value o) s.
Proof. unfold runs, load. by intros ->. Qed.

Lemma runs_emit ev s : runs (emit ev) s (Value tt) (add_log ev s).
Proof. reflexivity. Qed.

Lemma runs_pixel {A} r op (v : A) s :
  runs (pixel r op v) s (Value v) (add_log (EvPixel r op) s).
Proof. reflexivity. Qed.

(** Lookups survive in a larger store. *)
Lemma get_camera_weaken h h' l c :
  h ⊆ h' -> get_camera h l = Some c -> get_camera h' l = Some c.
Proof.
  unfold get_camera. intros Hsub H.
  destruct (h !! l) as [o|] eqn:E; [|done].
  by rewrite (lookup_weaken _ _ _ _ E Hsub).
Qed.

Lemma get_box_weaken h h' l b :
  h ⊆ h' -> get_box h l = Some b -> get_box h' l = Some b.
Proof.
  unfold get_box. intros Hsub H.
  destruct (h !! l) as [o|] eqn:E; [|done].
  by rewrite (lookup_weaken _ _ _ _ E Hsub).
Qed.

Lemma get_points_weaken h h' l p :
  h ⊆ h' -> get_points h l = Some p -> get_points h' l = Some p.
Proof.
  unfold get_points. intros Hsub H.
  destruct (h !! l) as [o|] eqn:E; [|done].
  by rewrite (lookup_weaken _ _ _ _ E Hsub).
Qed.

Lemma get_world_weaken h h' l p :
  h ⊆ h' -> get_world h l = Some p -> get_world h' l = Some p.
Proof.
  unfold get_world. intros Hsub H.
  destruct (h !! l) as [o|] eqn:E; [|done].
  by rewrite (lookup_weaken _ _ _ _ E Hsub).
Qed.

Lemma get_image_weaken h h' l im :
  h ⊆ h' -> get_image h l = Some im -> get_image h' l = Some im.
Proof.
  unfold get_image. intros Hsub H.
  destruct (h !! l) as [o|] eqn:E; [|done].
  by rewrite (lookup_weaken _ _ _ _ E Hsub).
Qed.

Lemma get_camera_insert h l c : get_camera (<[l := OCamera c]> h) l = Some c.
Proof. unfold get_camera. by rewrite lookup_insert_eq. Qed.

Lemma get_camera_insert_ne h l l' o :
  l ≠ l' -> get_camera (<[l := o]> h) l' = get_camera h l'.
Proof. intros. unfold get_camera. by rewrite lookup_insert_ne. Qed.

End Runs.

(** ** Values of records *)

Section ViewLemmas.
Context `{IL : ImageLib} `{CL : !CameraLib} `{IO : !FileIO} `{RL : Rlemasklib}.

Implicit Types (s : state) (h : gmap loc obj) (l : loc) (e : Example)
  (v : ExampleView).

Lemma view_example_inv h e v :
  view_example h e = Some v ->
  view_image_path h (image_path e) = Some (v_image_path v) /\
  get_box h (bbox e) = Some (v_bbox v) /\
  view_camera h (camera e) = Some (v_camera v) /\
  view_opt get_points h (coords e) = Some (v_coords v) /\
  view_opt get_world h (world_coords e) = Some (v_world_coords v) /\
  view_mask h (mask e) = Some (v_mask v).
Proof.
  unfold view_example. intros H.
  destruct (view_image_path h (image_path e)); simpl in H; [|done].
  destruct (get_box h (bbox e)); simpl in H; [|done].
  destruct (view_camera h (camera e)); simpl in H; [|done].
  destruct (view_opt get_points h (coords e)); simpl in H; [|done].
  destruct (view_opt get_world h (world_coords e)); simpl in H; [|done].
  destruct (view_mask h (mask e)); simpl in H; [|done].
  by simplify_eq.
Qed.

Lemma view_example_intro h e ip b cam co wc m :
  view_image_path h (image_path e) = Some ip ->
  get_box h (bbox e) = Some b ->
  view_camera h (camera e) = Some cam ->
  view_opt get_points h (coords e) = Some co ->
  view_opt get_world h (world_coords e) = Some wc ->
  view_mask h (mask e) = Some m ->
  view_example h e = Some (mkView ip b cam co wc m).
Proof. unfold view_example. by intros -> -> -> -> -> ->. Qed.

Lemma view_image_path_weaken h h' x y :
  h ⊆ h' -> view_image_path h x = Some y -> view_image_path h' x = Some y.
Proof.
  intros Hsub. destruct x as [p|l]; simpl; [done|].
  destruct (get_image h l) eqn:E; simpl; [|done].
  by rewrite (get_image_weaken _ _ _ _ Hsub E).
Qed.

Lemma view_camera_weaken h h' x y :
  h ⊆ h' -> view_camera h x = Some y -> view_camera h' x = Some y.
Proof.
  intros Hsub. destruct x as [[l|]|]; simpl; try done.
  destruct (get_camera h l) eqn:E; simpl; [|done].
  by rewrite (get_camera_weaken _ _ _ _ Hsub E).
Qed.

Lemma view_opt_weaken {A} (get : gmap loc obj -> loc -> option A) h h' x y :
  (forall l a, get h l = Some a -> get h' l = Some a) ->
  view_opt get h x = Some y -> view_opt get h' x = Some y.
Proof.
  intros Hget. destruct x as [l|]; simpl; [|done].
  destruct (get h l) eqn:E; simpl; [|done].
  by rewrite (Hget _ _ E).
Qed.

Lemma view_mask_weaken h h' x y :
  h ⊆ h' -> view_mask h x = Some y -> view_mask h' x = Some y.
Proof.
  intros Hsub. destruct x as [[|p|l]|]; simpl; try done.
  destruct (h !! l) as [o|] eqn:E; [|done].
  by rewrite (lookup_weaken _ _ _ _ E Hsub).
Qed.

Lemma view_example_weaken h h' e v :
  h ⊆ h' -> view_example h e = Some v -> view_example h' e = Some v.
Proof.
  intros Hsub Hv.
  destruct (view_example_inv _ _ _ Hv) as (H1 & H2 & H3 & H4 & H5 & H6).
  destruct v. simpl in *.
  apply view_example_intro;
    eauto using view_image_path_weaken, get_box_weaken, view_camera_weaken,
      view_mask_weaken, view_opt_weaken, get_points_weaken, get_world_weaken.
Qed.

Lemma view_weaken h h' l v :
  h ⊆ h' -> view h l = Some v -> view h' l = Some v.
Proof.
  unfold view. intros Hsub Hv.
  destruct (h !! l) as [o|] eqn:E; [|done].
  rewrite (lookup_weaken _ _ _ _ E Hsub).
  destruct o; try done. eauto using view_example_weaken.
Qed.

Lemma view_inv h l v :
  view h l = Some v ->
  exists e, h !! l = Some (OExample e) /\ view_example h e = Some v.
Proof.
  unfold view. destruct (h !! l) as [[]|]; try done. eauto.
Qed.

End ViewLemmas.

(** ** The phases of [make_efficient_example] *)

Section Phases.
Context `{IL : ImageLib} `{CL : !CameraLib} `{IO : !FileIO} `{RL : Rlemasklib}.

Implicit Types (s : state) (h : gmap loc obj) (l : loc) (e : Example)
  (v : ExampleView).

Lemma get_camera_fresh_ne h l c : get_camera h l = Some c -> l ≠ fresh (dom h).
Proof.
  unfold get_camera. intros H ->. by rewrite fresh_unused in H.
Qed.

Lemma runs_camera_copy l c s :
  get_camera (heap s) l = Some c ->
  runs (camera_copy l) s (Value (fresh (dom (heap s))))
    (set_heap (<[fresh (dom (heap s)) := OCamera c]> (heap s)) s).
Proof.
  intros H. unfold camera_copy.
  eapply runs_bind; [by apply runs_load_camera|]. apply runs_alloc.
Qed.

Lemma runs_camera_call l f c s :
  get_camera (heap s) l = Some c ->
  runs (camera_call l f) s (Value tt)
    (set_heap (<[l := OCamera (f c)]> (heap s)) s).
Proof.
  intros H. unfold camera_call.
  eapply runs_bind; [by apply runs_load_camera|]. apply runs_store.
Qed.

Lemma runs_setattr l f e s :
  heap s !! l = Some (OExample e) ->
  runs (setattr l f) s (Value tt)
    (set_heap (<[l := OExample (f e)]> (heap s)) s).
Proof.
  intros H. unfold setattr.
  eapply runs_bind; [by apply runs_load_example|]. apply runs_store.
Qed.

(** Lines 34-43. The new camera is a new object; the old camera is
    the example's own when it has one. *)
Lemma make_cameras_spec s e v :
  view_camera (heap s) (camera e) = Some (v_camera v) ->
  get_box (heap s) (bbox e) = Some (v_bbox v) ->
  exists oc nc s',
    runs (make_cameras e) s (Value (oc, nc)) s' /\
    heap s ⊆ heap s' /\
    get_camera (heap s') oc = Some (fst (expected_cameras v)) /\
    get_camera (heap s') nc = Some (snd (expected_cameras v)) /\
    heap s !! nc = None /\ oc ≠ nc /\
    (forall lc, camera e = Some (Some lc) -> oc = lc) /\
    files s' = files s /\ log s' = log s.
Proof.
  intros Hcam Hbox. unfold make_cameras, expected_cameras.
  destruct (camera e) as [[lc|]|] eqn:Ecam; simpl in Hcam.
  - destruct (get_camera (heap s) lc) as [c|] eqn:Ec; simpl in Hcam; [|done].
    injection Hcam as <-.
    set (nc := fresh (dom (heap s))).
    assert (Hnc : heap s !! nc = None) by apply fresh_unused.
    assert (Hne : lc ≠ nc) by eauto using get_camera_fresh_ne.
    eexists lc, nc, _. split.
    { eapply runs_bind; [by apply runs_camera_copy|].
      eapply runs_bind.
      { apply runs_load_box. simpl.
        eapply get_box_weaken; [|done]. by apply insert_subseteq. }
      eapply runs_bind.
      { apply runs_camera_call. simpl. apply get_camera_insert. }
      eapply runs_bind.
      { apply runs_camera_call. simpl. apply get_camera_insert. }
      apply runs_ret. }
    simpl. rewrite !insert_insert_eq.
    repeat split; try done.
    + by apply insert_subseteq.
    + by rewrite get_camera_insert_ne.
    + apply get_camera_insert.
    + by intros ? [= ->].
  - injection Hcam as <-.
    set (oc := fresh (dom (heap s))).
    set (nc := fresh (dom (<[oc := OCamera create2D]> (heap s)))).
    assert (Hoc : heap s !! oc = None) by apply fresh_unused.
    assert (Hnc : <[oc := OCamera create2D]> (heap s) !! nc = None)
      by apply fresh_unused.
    apply lookup_insert_None in Hnc as [Hnc Hne].
    eexists oc, nc, _. split.
    { eapply runs_bind; [apply runs_alloc|].
      eapply runs_bind.
      { apply runs_camera_copy. simpl. apply get_camera_insert. }
      apply runs_ret. }
    simpl. repeat split; try done.
    + transitivity (<[oc := OCamera create2D]> (heap s));
        [by apply insert_subseteq|].
      apply insert_subseteq. by rewrite lookup_insert_ne.
    + rewrite get_camera_insert_ne by done. apply get_camera_insert.
    + apply get_camera_insert.
  - injection Hcam as <-.
    set (oc := fresh (dom (heap s))).
    set (nc := fresh (dom (<[oc := OCamera create2D]> (heap s)))).
    assert (Hoc : heap s !! oc = None) by apply fresh_unused.
    assert (Hnc : <[oc := OCamera create2D]> (heap s) !! nc = None)
      by apply fresh_unused.
    apply lookup_insert_None in Hnc as [Hnc Hne].
    eexists oc, nc, _. split.
    { eapply runs_bind; [apply runs_alloc|].
      eapply runs_bind.
      { apply runs_camera_copy. simpl. apply get_camera_insert. }
      apply runs_ret. }
    simpl. repeat split; try done.
    + transitivity (<[oc := OCamera create2D]> (heap s));
        [by apply insert_subseteq|].
      apply insert_subseteq. by rewrite lookup_insert_ne.
    + rewrite get_camera_insert_ne by done. apply get_camera_insert.
    + apply get_camera_insert.
Qed.

(** Lines 29-31. *)
Lemma source_image_spec s e ip :
  view_image_path (heap s) (image_path e) = Some ip ->
  runs (source_image e) s (Value ip) s.
Proof.
  unfold source_image. destruct (image_path e) as [p|l]; simpl.
  - intros [= <-]. apply runs_ret.
  - destruct (get_image (heap s) l) as [im|] eqn:E; simpl; [|done].
    intros [= <-].
    eapply runs_bind; [by apply runs_load_image|]. apply runs_ret.
Qed.

Lemma image_size_spec s v :
  runs (image_size (v_image_path v)) s (expected_size v (files s))
    (add_logs (size_log v) s).
Proof.
  unfold image_size, expected_size, size_log, add_logs.
  destruct (v_image_path v) as [p|im]; simpl.
  - reflexivity.
  - unfold runs, ret. by destruct s.
Qed.

(** Lines 61-62. *)
Lemma destination_is_cached_spec s path t :
  runs (destination_is_cached path t) s
    (Value (expected_cached (files s) path t))
    (add_logs (cached_log (files s) path t) s).
Proof.
  unfold destination_is_cached, expected_cached, cached_log, add_logs, runs,
    bind, fs_is_file_newer, fs_is_image_readable, ret. simpl.
  destruct (is_file_newer (files s) path t); simpl; reflexivity.
Qed.

(** Lines 63-70. *)
Lemma read_source_spec s v ignore_broken_image :
  runs (read_source (v_image_path v) ignore_broken_image) s
    (expected_read v (files s) ignore_broken_image)
    (add_logs (read_log v) s).
Proof.
  unfold read_source, expected_read, read_log, add_logs, runs, try_except,
    bind, fs_imread, ret, raise.
  destruct (v_image_path v) as [p|im]; simpl.
  - destruct (imread (files s) p) as [im|e]; simpl; [done|].
    destruct (isinstance_Exception e); [|done].
    by destruct (ignore_broken_image && negb (isinstance_FileNotFoundError e)).
  - by destruct s.
Qed.

(** Lines 71-95. The only object that may be created is the scaled
    copy of the old camera. *)
Lemma render_image_spec s im oc nc ocv ncv p abspath a3 flip down :
  get_camera (heap s) oc = Some ocv ->
  get_camera (heap s) nc = Some ncv ->
  exists s',
    runs (render_image im oc nc p abspath a3 flip down) s (Value tt) s' /\
    heap s ⊆ heap s' /\
    files s' = imwrite (ensure_parent_dir_exists (files s) abspath) abspath
                 (expected_image im ocv ncv p a3 flip down) 95 /\
    log s' = rev (render_log abspath a3 flip down) ++ log s.
Proof.
  intros Hoc Hnc. unfold render_image, expected_image, render_log.
  assert (Hfresh : heap s !! fresh (dom (heap s)) = None)
    by apply fresh_unused.
  assert (Hne : nc ≠ fresh (dom (heap s)))
    by eauto using get_camera_fresh_ne.
  destruct down.
  - destruct flip, a3.
    all: eexists; split;
      [ eapply runs_bind; [reflexivity|];
        eapply runs_bind; [reflexivity|];
        eapply runs_bind;
          [ eapply runs_bind; [reflexivity|];
            eapply runs_bind; [apply runs_camera_copy; simpl; exact Hoc|];
            eapply runs_bind;
              [apply runs_camera_call; simpl; apply get_camera_insert|];
            apply runs_ret |];
        simpl;
        eapply runs_bind;
          [apply runs_load_camera; simpl; apply get_camera_insert|];
        eapply runs_bind;
          [ apply runs_load_camera; simpl;
            rewrite !get_camera_insert_ne by done; exact Hnc |];
        eapply runs_bind; [reflexivity|];
        eapply runs_bind; [reflexivity|];
        eapply runs_bind; [reflexivity|];
        reflexivity
      | simpl; rewrite insert_insert_eq;
        split; [by apply insert_subseteq | done] ].
  - destruct flip, a3.
    all: eexists; split;
      [ eapply runs_bind; [reflexivity|];
        eapply runs_bind; [reflexivity|];
        eapply runs_bind; [apply runs_ret|];
        simpl;
        eapply runs_bind; [apply runs_load_camera; simpl; exact Hoc|];
        eapply runs_bind; [apply runs_load_camera; simpl; exact Hnc|];
        eapply runs_bind; [reflexivity|];
        eapply runs_bind; [reflexivity|];
        eapply runs_bind; [reflexivity|];
        reflexivity
      | simpl; split; done ].
Qed.

(** *** [copy.deepcopy] *)

Lemma extends_refl s : extends s s.
Proof. by unfold extends. Qed.

Lemma extends_trans s1 s2 s3 : extends s1 s2 -> extends s2 s3 -> extends s1 s3.
Proof.
  unfold extends. intros (H1 & H2 & H3) (H4 & H5 & H6).
  split; [by transitivity (heap s2)|]. split; congruence.
Qed.

Lemma unused_weaken h h' l : h ⊆ h' -> h' !! l = None -> h !! l = None.
Proof.
  intros Hsub Hl. destruct (h !! l) as [o|] eqn:E; [|done].
  by rewrite (lookup_weaken _ _ _ _ E Hsub) in Hl.
Qed.

Lemma get_camera_lookup h l c :
  get_camera h l = Some c <-> h !! l = Some (OCamera c).
Proof.
  unfold get_camera. split.
  - destruct (h !! l) as [[]|]; naive_solver.
  - by intros ->.
Qed.

Lemma get_box_lookup h l b :
  get_box h l = Some b <-> h !! l = Some (ONdarray (NdBox b)).
Proof.
  unfold get_box. split.
  - destruct (h !! l) as [[|[]| |]|]; naive_solver.
  - by intros ->.
Qed.

Lemma get_points_lookup h l p :
  get_points h l = Some p <-> h !! l = Some (ONdarray (NdPoints p)).
Proof.
  unfold get_points. split.
  - destruct (h !! l) as [[|[]| |]|]; naive_solver.
  - by intros ->.
Qed.

Lemma get_world_lookup h l p :
  get_world h l = Some p <-> h !! l = Some (ONdarray (NdWorld p)).
Proof.
  unfold get_world. split.
  - destruct (h !! l) as [[|[]| |]|]; naive_solver.
  - by intros ->.
Qed.

Lemma get_image_lookup h l im :
  get_image h l = Some im <-> h !! l = Some (ONdarray (NdImage im)).
Proof.
  unfold get_image. split.
  - destruct (h !! l) as [[|[]| |]|]; naive_solver.
  - by intros ->.
Qed.

Lemma copy_obj_spec s l o :
  heap s !! l = Some o ->
  exists l' s',
    runs (copy_obj l) s (Value l') s' /\ extends s s' /\
    heap s !! l' = None /\ heap s' !! l' = Some o.
Proof.
  intros Hl. pose proof (fresh_unused (heap s)) as Hf.
  eexists _, _. split.
  { unfold copy_obj. eapply runs_bind; [by apply runs_load|].
    apply runs_alloc. }
  simpl. repeat split; try done.
  - by apply insert_subseteq.
  - by rewrite lookup_insert_eq.
Qed.

Lemma copy_image_path_spec s x y :
  view_image_path (heap s) x = Some y ->
  exists x' s',
    runs (copy_image_path x) s (Value x') s' /\
    extends s s' /\
    view_image_path (heap s') x' = Some y /\
    (forall l, x' = inr l -> heap s !! l = None).
Proof.
  destruct x as [p|l]; simpl.
  - intros [= <-]. exists (inl p), s. repeat split; try done; try apply extends_refl.
  - destruct (get_image (heap s) l) as [im|] eqn:E; simpl; [|done].
    intros [= <-]. apply get_image_lookup in E.
    destruct (copy_obj_spec _ _ _ E) as (l' & s' & Hrun & Hext & Hf & Hl').
    exists (inr l'), s'. repeat split; try apply Hext.
    + eapply runs_bind; [exact Hrun|]. apply runs_ret.
    + simpl. apply get_image_lookup in Hl'. by rewrite Hl'.
    + by intros ? [= <-].
Qed.

Lemma copy_camera_spec s x y :
  view_camera (heap s) x = Some y ->
  exists x' s',
    runs (copy_camera x) s (Value x') s' /\
    extends s s' /\
    view_camera (heap s') x' = Some y /\
    (forall l, x' = Some (Some l) -> heap s !! l = None).
Proof.
  destruct x as [[l|]|]; simpl.
  - destruct (get_camera (heap s) l) as [c|] eqn:E; simpl; [|done].
    intros [= <-]. apply get_camera_lookup in E.
    destruct (copy_obj_spec _ _ _ E) as (l' & s' & Hrun & Hext & Hf & Hl').
    exists (Some (Some l')), s'. repeat split; try apply Hext.
    + eapply runs_bind; [|apply runs_ret].
      eapply runs_bind; [exact Hrun|]. apply runs_ret.
    + simpl. apply get_camera_lookup in Hl'. by rewrite Hl'.
    + by intros ? [= <-].
  - intros [= <-]. exists (Some None), s. repeat split; try done; try apply extends_refl.
  - intros [= <-]. exists None, s. repeat split; try done; try apply extends_refl.
Qed.

Lemma copy_points_spec s x y :
  view_opt get_points (heap s) x = Some y ->
  exists x' s',
    runs (copy_opt x) s (Value x') s' /\ extends s s' /\
    view_opt get_points (heap s') x' = Some y /\
    (forall l, x' = Some l -> heap s !! l = None).
Proof.
  destruct x as [l|]; simpl.
  - destruct (get_points (heap s) l) as [c|] eqn:E; simpl; [|done].
    intros [= <-]. apply get_points_lookup in E.
    destruct (copy_obj_spec _ _ _ E) as (l' & s' & Hrun & Hext & Hf & Hl').
    exists (Some l'), s'. repeat split; try apply Hext.
    + eapply runs_bind; [exact Hrun|]. apply runs_ret.
    + simpl. apply get_points_lookup in Hl'. by rewrite Hl'.
    + by intros ? [= <-].
  - intros [= <-]. exists None, s. repeat split; try done; try apply extends_refl.
Qed.

Lemma copy_world_spec s x y :
  view_opt get_world (heap s) x = Some y ->
  exists x' s',
    runs (copy_opt x) s (Value x') s' /\ extends s s' /\
    view_opt get_world (heap s') x' = Some y /\
    (forall l, x' = Some l -> heap s !! l = None).
Proof.
  destruct x as [l|]; simpl.
  - destruct (get_world (heap s) l) as [c|] eqn:E; simpl; [|done].
    intros [= <-]. apply get_world_lookup in E.
    destruct (copy_obj_spec _ _ _ E) as (l' & s' & Hrun & Hext & Hf & Hl').
    exists (Some l'), s'. repeat split; try apply Hext.
    + eapply runs_bind; [exact Hrun|]. apply runs_ret.
    + simpl. apply get_world_lookup in Hl'. by rewrite Hl'.
    + by intros ? [= <-].
  - intros [= <-]. exists None, s. repeat split; try done; try apply extends_refl.
Qed.

Lemma copy_mask_spec s x y :
  view_mask (heap s) x = Some y ->
  exists x' s',
    runs (copy_mask x) s (Value x') s' /\
    extends s s' /\
    view_mask (heap s') x' = Some y /\
    (forall l, x' = Some (MaskObj l) -> heap s !! l = None).
Proof.
  destruct x as [[|p|l]|]; simpl.
  - intros [= <-]. exists (Some MaskNone), s. repeat split; try done; try apply extends_refl.
  - intros [= <-]. exists (Some (MaskPath p)), s. repeat split; try done; try apply extends_refl.
  - destruct (heap s !! l) as [o|] eqn:E; [|done]. intros Hy.
    destruct (copy_obj_spec _ _ _ E) as (l' & s' & Hrun & Hext & Hf & Hl').
    exists (Some (MaskObj l')), s'. repeat split; try apply Hext.
    + eapply runs_bind; [exact Hrun|]. apply runs_ret.
    + simpl. by rewrite Hl'.
    + by intros ? [= <-].
  - intros [= <-]. exists None, s. repeat split; try done; try apply extends_refl.
Qed.

Lemma Forall_unused_opt (P : loc -> Prop) (x : option loc) :
  (forall l, x = Some l -> P l) ->
  Forall P (match x with Some l => [l] | None => [] end).
Proof. destruct x; auto. Qed.

(** The copy is a new record with the same value; it and everything
    it refers to are new objects. *)
Lemma deepcopy_spec s ex e v :
  heap s !! ex = Some (OExample e) ->
  view_example (heap s) e = Some v ->
  exists l' e' s',
    runs (deepcopy ex) s (Value l') s' /\ extends s s' /\
    heap s !! l' = None /\
    heap s' !! l' = Some (OExample e') /\
    view_example (heap s') e' = Some v /\
    Forall (fun l2 => heap s !! l2 = None) (example_locs e').
Proof.
  intros Hex Hv.
  destruct (view_example_inv _ _ _ Hv) as (V1 & V2 & V3 & V4 & V5 & V6).
  destruct (copy_image_path_spec _ _ _ V1)
    as (ip' & s1 & R1 & E1 & W1 & F1).
  assert (B1 : heap s1 !! bbox e = Some (ONdarray (NdBox (v_bbox v)))).
  { apply get_box_lookup. eapply get_box_weaken; [apply E1|done]. }
  destruct (copy_obj_spec _ _ _ B1) as (b' & s2 & R2 & E2 & F2 & W2).
  pose proof (extends_trans _ _ _ E1 E2) as E02.
  assert (V3' : view_camera (heap s2) (camera e) = Some (v_camera v))
    by (eapply view_camera_weaken; [apply E02|done]).
  destruct (copy_camera_spec _ _ _ V3') as (c' & s3 & R3 & E3 & W3 & F3).
  pose proof (extends_trans _ _ _ E02 E3) as E03.
  assert (V4' : view_opt get_points (heap s3) (coords e) = Some (v_coords v)).
  { eapply view_opt_weaken; [|done]. intros ??.
    apply get_points_weaken, E03. }
  destruct (copy_points_spec _ _ _ V4') as (co' & s4 & R4 & E4 & W4 & F4).
  pose proof (extends_trans _ _ _ E03 E4) as E04.
  assert (V5' : view_opt get_world (heap s4) (world_coords e)
                = Some (v_world_coords v)).
  { eapply view_opt_weaken; [|done]. intros ??.
    apply get_world_weaken, E04. }
  destruct (copy_world_spec _ _ _ V5') as (wc' & s5 & R5 & E5 & W5 & F5).
  pose proof (extends_trans _ _ _ E04 E5) as E05.
  assert (V6' : view_mask (heap s5) (mask e) = Some (v_mask v))
    by (eapply view_mask_weaken; [apply E05|done]).
  destruct (copy_mask_spec _ _ _ V6') as (m' & s6 & R6 & E6 & W6 & F6).
  pose proof (extends_trans _ _ _ E05 E6) as E06.
  set (l' := fresh (dom (heap s6))).
  set (e' := mkExample ip' b' c' co' wc' m').
  assert (Hl' : heap s6 !! l' = None) by apply fresh_unused.
  assert (E67 : extends s6 (set_heap (<[l' := OExample e']> (heap s6)) s6)).
  { split; [|done]. simpl. by apply insert_subseteq. }
  pose proof (extends_trans _ _ _ E06 E67) as E07.
  exists l', e', (set_heap (<[l' := OExample e']> (heap s6)) s6).
  split.
  { unfold deepcopy.
    eapply runs_bind; [by apply runs_load_example|].
    eapply runs_bind; [exact R1|].
    eapply runs_bind; [exact R2|].
    eapply runs_bind; [exact R3|].
    eapply runs_bind; [exact R4|].
    eapply runs_bind; [exact R5|].
    eapply runs_bind; [exact R6|].
    apply runs_alloc. }
  split; [done|].
  split; [eapply unused_weaken; [apply E06|done]|].
  split; [simpl; by rewrite lookup_insert_eq|].
  split.
  - destruct v as [vip vb vc vco vwc vm]. simpl in *.
    apply view_example_intro; simpl.
    + eapply view_image_path_weaken; [|exact W1].
      transitivity (heap s6); [|apply E67].
      transitivity (heap s2); [apply E2|].
      transitivity (heap s3); [apply E3|].
      transitivity (heap s4); [apply E4|].
      transitivity (heap s5); [apply E5|apply E6].
    + apply get_box_lookup. eapply lookup_weaken; [exact W2|].
      transitivity (heap s6); [|apply E67].
      transitivity (heap s3); [apply E3|].
      transitivity (heap s4); [apply E4|].
      transitivity (heap s5); [apply E5|apply E6].
    + eapply view_camera_weaken; [|exact W3].
      transitivity (heap s6); [|apply E67].
      transitivity (heap s4); [apply E4|].
      transitivity (heap s5); [apply E5|apply E6].
    + eapply view_opt_weaken; [|exact W4]. intros ??.
      apply get_points_weaken.
      transitivity (heap s6); [|apply E67].
      transitivity (heap s5); [apply E5|apply E6].
    + eapply view_opt_weaken; [|exact W5]. intros ??.
      apply get_world_weaken.
      transitivity (heap s6); [apply E6|apply E67].
    + eapply view_mask_weaken; [apply E67|exact W6].
  - unfold example_locs.
    repeat apply Forall_app_2; simpl.
    + destruct ip' as [p|l]; [constructor|].
      repeat constructor. by apply F1.
    + repeat constructor. eapply unused_weaken; [apply E1|done].
    + destruct c' as [[l|]|]; repeat constructor.
      eapply unused_weaken; [apply E02|]. by apply F3.
    + apply Forall_unused_opt. intros l ->.
      eapply unused_weaken; [apply E03|]. by apply F4.
    + apply Forall_unused_opt. intros l ->.
      eapply unused_weaken; [apply E04|]. by apply F5.
    + destruct m' as [[|p|l]|]; repeat constructor.
      eapply unused_weaken; [apply E05|]. by apply F6.
Qed.

Lemma locs_unused_Forall h e :
  locs_unused h e <-> Forall (fun l => h !! l = None) (example_locs e).
Proof.
  unfold locs_unused, example_locs.
  rewrite !Forall_app.
  assert (H1 : Forall (fun l => h !! l = None)
                 match image_path e with inr l => [l] | inl _ => [] end
               <-> forall l, image_path e = inr l -> h !! l = None).
  { destruct (image_path e); rewrite ?Forall_cons, ?Forall_nil;
      naive_solver. }
  assert (H2 : Forall (fun l => h !! l = None) [bbox e]
               <-> h !! bbox e = None).
  { rewrite Forall_cons, Forall_nil. naive_solver. }
  assert (H3 : Forall (fun l => h !! l = None)
                 match camera e with Some (Some l) => [l] | _ => [] end
               <-> forall l, camera e = Some (Some l) -> h !! l = None).
  { destruct (camera e) as [[|]|]; rewrite ?Forall_cons, ?Forall_nil;
      naive_solver. }
  assert (H4 : Forall (fun l => h !! l = None)
                 match coords e with Some l => [l] | None => [] end
               <-> forall l, coords e = Some l -> h !! l = None).
  { destruct (coords e); rewrite ?Forall_cons, ?Forall_nil; naive_solver. }
  assert (H5 : Forall (fun l => h !! l = None)
                 match world_coords e with Some l => [l] | None => [] end
               <-> forall l, world_coords e = Some l -> h !! l = None).
  { destruct (world_coords e); rewrite ?Forall_cons, ?Forall_nil;
      naive_solver. }
  assert (H6 : Forall (fun l => h !! l = None)
                 match mask e with Some (MaskObj l) => [l] | _ => [] end
               <-> forall l, mask e = Some (MaskObj l) -> h !! l = None).
  { destruct (mask e) as [[| |]|]; rewrite ?Forall_cons, ?Forall_nil;
      naive_solver. }
  rewrite H1, H2, H3, H4, H5, H6. tauto.
Qed.

(** *** Replacing a record in the store

    The value of a record is read from cameras, arrays and encoded
    masks only: assigning to the attributes of some record leaves the
    values of the objects alone. *)

Section Replace.
Context (h : gmap loc obj) (l : loc) (x0 x : Example).
Hypothesis Hl : h !! l = Some (OExample x0).

Lemma replace_lookup l2 o :
  (forall y, o ≠ OExample y) ->
  <[l := OExample x]> h !! l2 = Some o <-> h !! l2 = Some o.
Proof using Hl.
  intros Ho. destruct (decide (l = l2)) as [<-|Hne].
  - rewrite lookup_insert_eq, Hl. split; intros [= <-]; by edestruct Ho.
  - by rewrite lookup_insert_ne.
Qed.

Lemma replace_get_camera l2 :
  get_camera (<[l := OExample x]> h) l2 = get_camera h l2.
Proof using Hl.
  unfold get_camera. destruct (decide (l = l2)) as [<-|Hne].
  - by rewrite lookup_insert_eq, Hl.
  - by rewrite lookup_insert_ne.
Qed.

Lemma replace_get_box l2 :
  get_box (<[l := OExample x]> h) l2 = get_box h l2.
Proof using Hl.
  unfold get_box. destruct (decide (l = l2)) as [<-|Hne].
  - by rewrite lookup_insert_eq, Hl.
  - by rewrite lookup_insert_ne.
Qed.

Lemma replace_get_points l2 :
  get_points (<[l := OExample x]> h) l2 = get_points h l2.
Proof using Hl.
  unfold get_points. destruct (decide (l = l2)) as [<-|Hne].
  - by rewrite lookup_insert_eq, Hl.
  - by rewrite lookup_insert_ne.
Qed.

Lemma replace_get_world l2 :
  get_world (<[l := OExample x]> h) l2 = get_world h l2.
Proof using Hl.
  unfold get_world. destruct (decide (l = l2)) as [<-|Hne].
  - by rewrite lookup_insert_eq, Hl.
  - by rewrite lookup_insert_ne.
Qed.

Lemma replace_get_image l2 :
  get_image (<[l := OExample x]> h) l2 = get_image h l2.
Proof using Hl.
  unfold get_image. destruct (decide (l = l2)) as [<-|Hne].
  - by rewrite lookup_insert_eq, Hl.
  - by rewrite lookup_insert_ne.
Qed.

Lemma replace_view_mask m :
  view_mask (<[l := OExample x]> h) m = view_mask h m.
Proof using Hl.
  destruct m as [[|p|l2]|]; simpl; try done.
  destruct (decide (l = l2)) as [<-|Hne].
  - by rewrite lookup_insert_eq, Hl.
  - by rewrite lookup_insert_ne.
Qed.

Lemma replace_view_example e :
  view_example (<[l := OExample x]> h) e = view_example h e.
Proof using Hl.
  unfold view_example, view_image_path, view_camera, view_opt.
  rewrite replace_get_box, replace_view_mask.
  destruct (image_path e), (camera e) as [[|]|], (coords e),
    (world_coords e);
    by rewrite ?replace_get_image, ?replace_get_camera, ?replace_get_points,
         ?replace_get_world.
Qed.

End Replace.

(** *** Steps on the record under construction *)

Lemma record_at_alloc h0 hb s n e1 v1 o :
  record_at h0 hb s n e1 v1 ->
  let l := fresh (dom (heap s)) in
  let s' := set_heap (<[l := o]> (heap s)) s in
  runs (alloc o) s (Value l) s' /\
  record_at h0 hb s' n e1 v1 /\
  h0 !! l = None /\ heap s' !! l = Some o /\ heap s ⊆ heap s'.
Proof.
  intros (H00 & H0 & Hn & Hl & Hv & Hu) l s'.
  assert (Hf : heap s !! l = None) by apply fresh_unused.
  assert (Hsub : heap s ⊆ heap s') by (by apply insert_subseteq).
  split; [apply runs_alloc|].
  split; [|split; [eapply unused_weaken; [|exact Hf]; by transitivity hb
                  |split; [simpl; by rewrite lookup_insert_eq|done]]].
  split; [done|].
  split; [by transitivity (heap s)|]. split; [done|].
  split; [by eapply lookup_weaken|].
  split; [by eapply view_example_weaken|done].
Qed.

Lemma record_at_setattr h0 hb s n e1 v1 f v2 :
  record_at h0 hb s n e1 v1 ->
  view_example (heap s) (f e1) = Some v2 ->
  locs_unused h0 (f e1) ->
  let s' := set_heap (<[n := OExample (f e1)]> (heap s)) s in
  runs (setattr n f) s (Value tt) s' /\
  record_at h0 hb s' n (f e1) v2 /\
  (forall l, get_camera (heap s') l = get_camera (heap s) l).
Proof.
  intros (H00 & H0 & Hn & Hl & Hv & Hu) Hv2 Hu2 s'.
  split; [by apply runs_setattr|].
  split.
  - split; [done|].
    split; [by apply insert_subseteq_r|]. split; [done|].
    split; [simpl; by rewrite lookup_insert_eq|].
    split; [|done]. simpl. by erewrite replace_view_example.
  - intros l. simpl. by erewrite replace_get_camera.
Qed.

Lemma view_with_bbox h e1 v1 lb b :
  view_example h e1 = Some v1 -> get_box h lb = Some b ->
  view_example h (with_bbox lb e1) = Some (v_with_bbox b v1).
Proof.
  intros Hv Hb.
  destruct (view_example_inv _ _ _ Hv) as (V1 & V2 & V3 & V4 & V5 & V6).
  by apply view_example_intro.
Qed.

Lemma view_with_image_path h e1 v1 x y :
  view_example h e1 = Some v1 -> view_image_path h x = Some y ->
  view_example h (with_image_path x e1) = Some (v_with_image_path y v1).
Proof.
  intros Hv Hb.
  destruct (view_example_inv _ _ _ Hv) as (V1 & V2 & V3 & V4 & V5 & V6).
  by apply view_example_intro.
Qed.

Lemma view_with_camera h e1 v1 x y :
  view_example h e1 = Some v1 -> view_camera h x = Some y ->
  view_example h (with_camera x e1) = Some (v_with_camera y v1).
Proof.
  intros Hv Hb.
  destruct (view_example_inv _ _ _ Hv) as (V1 & V2 & V3 & V4 & V5 & V6).
  by apply view_example_intro.
Qed.

Lemma view_with_coords h e1 v1 x y :
  view_example h e1 = Some v1 -> view_opt get_points h x = Some y ->
  view_example h (with_coords x e1) = Some (v_with_coords y v1).
Proof.
  intros Hv Hb.
  destruct (view_example_inv _ _ _ Hv) as (V1 & V2 & V3 & V4 & V5 & V6).
  by apply view_example_intro.
Qed.

Lemma view_with_mask h e1 v1 x y :
  view_example h e1 = Some v1 -> view_mask h x = Some y ->
  view_example h (with_mask x e1) = Some (v_with_mask y v1).
Proof.
  intros Hv Hb.
  destruct (view_example_inv _ _ _ Hv) as (V1 & V2 & V3 & V4 & V5 & V6).
  by apply view_example_intro.
Qed.

(** A new object is assigned to an attribute of the record. *)
Lemma record_at_assign_new h0 hb s n e1 v1 o (f : loc -> Example -> Example)
    v2 :
  record_at h0 hb s n e1 v1 ->
  (forall h l, h !! l = Some o -> view_example h e1 = Some v1 ->
     view_example h (f l e1) = Some v2) ->
  (forall l, h0 !! l = None -> locs_unused h0 e1 ->
     locs_unused h0 (f l e1)) ->
  exists s',
    runs (l <- alloc o ;; setattr n (f l)) s (Value tt) s' /\
    record_at h0 hb s' n (f (fresh (dom (heap s))) e1) v2 /\
    (forall l c, get_camera (heap s) l = Some c ->
       get_camera (heap s') l = Some c) /\
    files s' = files s /\ log s' = log s.
Proof.
  intros Hrec Hview Hunused.
  destruct (record_at_alloc _ _ _ _ _ _ o Hrec)
    as (R1 & Hrec1 & Hf & Hlo & Hsub).
  set (l := fresh (dom (heap s))) in *.
  set (s1 := set_heap (<[l := o]> (heap s)) s) in *.
  assert (Hv2 : view_example (heap s1) (f l e1) = Some v2)
    by (apply Hview; [done|apply Hrec1]).
  assert (Hu2 : locs_unused h0 (f l e1))
    by (apply Hunused; [done|apply Hrec1]).
  destruct (record_at_setattr _ _ _ _ _ _ (f l) _ Hrec1 Hv2 Hu2)
    as (R2 & Hrec2 & Hcam).
  eexists. split; [eapply runs_bind; [exact R1|exact R2]|].
  split; [exact Hrec2|]. split; [|done].
  intros l2 c Hc. rewrite Hcam. by eapply get_camera_weaken.
Qed.

Lemma record_at_same_heap h0 hb s s' n e1 v1 :
  heap s' = heap s -> record_at h0 hb s n e1 v1 -> record_at h0 hb s' n e1 v1.
Proof. unfold record_at. by intros ->. Qed.

Lemma ex_camera_spec s e v :
  view_camera (heap s) (camera e) = Some (v_camera v) ->
  runs (ex_camera e) s (expected_ex_camera v) s.
Proof.
  unfold ex_camera, expected_ex_camera.
  destruct (camera e) as [[l|]|]; simpl.
  - destruct (get_camera (heap s) l) as [c|] eqn:E; simpl; [|done].
    intros [= <-]. by apply runs_load_camera.
  - by intros [= <-].
  - by intros [= <-].
Qed.

(** The encoded mask [r] becomes the mask of the record. *)
Lemma set_mask_spec h0 hb s n e1 v1 r :
  record_at h0 hb s n e1 v1 ->
  exists s' e2,
    runs (lm <- alloc (ORle r) ;; setattr n (with_mask (Some (MaskObj lm))))
      s (Value tt) s' /\
    record_at h0 hb s' n e2 (v_with_mask (Some (MvRle r)) v1) /\
    files s' = files s /\ log s' = log s.
Proof.
  intros Hrec.
  destruct (record_at_assign_new h0 hb s n e1 v1 (ORle r)
              (fun l => with_mask (Some (MaskObj l)))
              (v_with_mask (Some (MvRle r)) v1) Hrec)
    as (s' & R & Hrec' & _ & Hf & Hlog).
  - intros h l Hl Hv. apply view_with_mask; [done|]. simpl. by rewrite Hl.
  - intros l Hl (U1 & U2 & U3 & U4 & U5 & U6).
    repeat split; try done. simpl. by intros ? [= <-].
  - by exists s', (with_mask (Some (MaskObj (fresh (dom (heap s))))) e1).
Qed.

(** Lines 107-122. *)
Lemma transform_mask_spec h0 hb s n e1 v1 e v nc ncv dst box :
  record_at h0 hb s n e1 v1 ->
  view_mask (heap s) (mask e) = Some (v_mask v) ->
  view_camera (heap s) (camera e) = Some (v_camera v) ->
  get_camera (heap s) nc = Some ncv ->
  v_mask v1 = v_mask v ->
  exists o s',
    runs (transform_mask e n nc dst box) s o s' /\
    hb ⊆ heap s' /\ files s' = files s /\
    log s' = rev (snd (expected_mask v (files s) ncv dst box)) ++ log s /\
    match fst (expected_mask v (files s) ncv dst box) with
    | Raised err => o = Raised err
    | Value m =>
        o = Value tt /\ exists e2, record_at h0 hb s' n e2 (v_with_mask m v1)
    end.
Proof.
  intros Hrec Hmask Hcam Hnc Hm1.
  pose proof (ex_camera_spec s e v Hcam) as Hexc.
  assert (Hsame : v_with_mask (v_mask v) v1 = v1)
    by (rewrite <- Hm1; by destruct v1).
  unfold transform_mask, expected_mask.
  destruct (mask e) as [[|path|l]|] eqn:Emask; simpl in Hmask.
  - injection Hmask as Hmv. rewrite <- Hmv in Hsame |- *.
    exists (Value tt), s. simpl.
    repeat split; try done; [apply Hrec|].
    exists e1. by rewrite Hsame.
  - injection Hmask as <-.
    set (abspath := ensure_absolute_path path).
    destruct (imread (files s) abspath) as [m|err] eqn:Eread.
    2:{ exists (Raised err), (add_log (EvImread OnMask abspath) s).
        split; [|by repeat split; try apply Hrec].
        apply runs_bind_raised. unfold runs, fs_imread.
        by rewrite Eread. }
    set (s1 := add_log (EvImread OnMask abspath) s).
    set (s2 := add_log (EvPixel OnMask Channel0) s1).
    assert (R1 : runs (fs_imread OnMask abspath) s (Value m) s1)
      by (unfold runs, fs_imread; by rewrite Eread).
    assert (Hexc2 : runs (ex_camera e) s2 (expected_ex_camera v) s2)
      by (by apply ex_camera_spec).
    destruct (expected_ex_camera v) as [ocv|err].
    2:{ exists (Raised err), s2.
        split; [|by repeat split; try apply Hrec].
        eapply runs_bind; [exact R1|].
        eapply runs_bind; [reflexivity|].
        by apply runs_bind_raised. }
    set (mask_reproj := reproject_image (channel0 m) ocv ncv dst 2 None).
    set (bits := bitmap_to_uint8 (greater_than mask_reproj (32 / 255)%R)).
    set (s5 := add_log (EvPixel OnMask Components)
                 (add_log (EvPixel OnMask Threshold)
                    (add_log (EvPixel OnMask Reproject) s2))).
    assert (Hrec5 : record_at h0 hb s5 n e1 v1)
      by (by eapply record_at_same_heap; [|exact Hrec]).
    destruct (get_connected_component_with_highest_iou bits box)
      as [r|err] eqn:Ecc.
    2:{ exists (Raised err), s5.
        split; [|by repeat split; try apply Hrec].
        eapply runs_bind; [exact R1|].
        eapply runs_bind; [reflexivity|].
        eapply runs_bind; [exact Hexc2|].
        eapply runs_bind; [by apply runs_load_camera|].
        eapply runs_bind; [reflexivity|].
        eapply runs_bind; [reflexivity|].
        apply runs_bind_raised. unfold runs, pixel_try.
        fold mask_reproj. fold bits. by rewrite Ecc. }
    destruct (set_mask_spec _ _ _ _ _ _ r Hrec5)
      as (s' & e2 & R6 & Hrec' & Hf & Hlog).
    exists (Value tt), s'. split.
    { eapply runs_bind; [exact R1|].
      eapply runs_bind; [reflexivity|].
      eapply runs_bind; [exact Hexc2|].
      eapply runs_bind; [by apply runs_load_camera|].
      eapply runs_bind; [reflexivity|].
      eapply runs_bind; [reflexivity|].
      eapply runs_bind;
        [unfold runs, pixel_try; fold mask_reproj; fold bits;
         by rewrite Ecc|].
      exact R6. }
    simpl. repeat split; try done; [apply Hrec'|]. by exists e2.
  - destruct (heap s !! l) as [[| [| | |im] |enc|]|] eqn:El; try done.
    + injection Hmask as <-.
      assert (Hexc2 : runs (ex_camera e) s (expected_ex_camera v) s)
        by done.
      destruct (expected_ex_camera v) as [ocv|err].
      2:{ exists (Raised err), s.
          split; [|by repeat split; try apply Hrec].
          eapply runs_bind; [by apply runs_load|].
          eapply runs_bind; [apply runs_ret|].
          by apply runs_bind_raised. }
      set (r := rle_encode
                  (greater_than (reproject_image im ocv ncv dst 2 None)
                     127%R)).
      set (s3 := add_log (EvPixel OnMask Encode)
                   (add_log (EvPixel OnMask Reproject) s)).
      assert (Hrec3 : record_at h0 hb s3 n e1 v1)
        by (by eapply record_at_same_heap; [|exact Hrec]).
      destruct (set_mask_spec _ _ _ _ _ _ r Hrec3)
        as (s' & e2 & R6 & Hrec' & Hf & Hlog).
      exists (Value tt), s'. split.
      { eapply runs_bind; [by apply runs_load|].
        eapply runs_bind; [apply runs_ret|].
        eapply runs_bind; [exact Hexc2|].
        eapply runs_bind; [by apply runs_load_camera|].
        eapply runs_bind; [reflexivity|].
        eapply runs_bind; [reflexivity|].
        exact R6. }
      simpl. repeat split; try done; [apply Hrec'|]. by exists e2.
    + injection Hmask as <-.
      set (s1 := add_log (EvPixel OnMask Decode) s).
      assert (Hexc2 : runs (ex_camera e) s1 (expected_ex_camera v) s1)
        by (by apply ex_camera_spec).
      destruct (expected_ex_camera v) as [ocv|err].
      2:{ exists (Raised err), s1.
          split; [|by repeat split; try apply Hrec].
          eapply runs_bind; [by apply runs_load|].
          eapply runs_bind; [reflexivity|].
          by apply runs_bind_raised. }
      set (r := rle_encode
                  (greater_than
                     (reproject_image (bitmap_times (rle_decode enc) 255)
                        ocv ncv dst 2 None) 127%R)).
      set (s3 := add_log (EvPixel OnMask Encode)
                   (add_log (EvPixel OnMask Reproject) s1)).
      assert (Hrec3 : record_at h0 hb s3 n e1 v1)
        by (by eapply record_at_same_heap; [|exact Hrec]).
      destruct (set_mask_spec _ _ _ _ _ _ r Hrec3)
        as (s' & e2 & R6 & Hrec' & Hf & Hlog).
      exists (Value tt), s'. split.
      { eapply runs_bind; [by apply runs_load|].
        eapply runs_bind; [reflexivity|].
        eapply runs_bind; [exact Hexc2|].
        eapply runs_bind; [by apply runs_load_camera|].
        eapply runs_bind; [reflexivity|].
        eapply runs_bind; [reflexivity|].
        exact R6. }
      simpl. repeat split; try done; [apply Hrec'|]. by exists e2.
  - injection Hmask as Hmv. rewrite <- Hmv in Hsame |- *.
    exists (Value tt), s. simpl.
    repeat split; try done; [apply Hrec|].
    exists e1. by rewrite Hsame.
Qed.

Lemma locs_unused_weaken h0 h e :
  h0 ⊆ h -> locs_unused h e -> locs_unused h0 e.
Proof.
  intros Hsub (U1 & U2 & U3 & U4 & U5 & U6).
  repeat split; eauto using unused_weaken.
Qed.

(** Line 98. *)
Lemma set_bbox_spec h0 hb s n e1 v1 b :
  record_at h0 hb s n e1 v1 ->
  exists s' e2,
    runs (lb <- alloc (ONdarray (NdBox b)) ;; setattr n (with_bbox lb))
      s (Value tt) s' /\
    record_at h0 hb s' n e2 (v_with_bbox b v1) /\
    coords e2 = coords e1 /\
    (forall l c, get_camera (heap s) l = Some c ->
       get_camera (heap s') l = Some c) /\
    files s' = files s /\ log s' = log s.
Proof.
  intros Hrec.
  destruct (record_at_assign_new h0 hb s n e1 v1 (ONdarray (NdBox b))
              with_bbox (v_with_bbox b v1) Hrec)
    as (s' & R & Hrec' & Hcam & Hf & Hlog).
  - intros h l Hl Hv. apply view_with_bbox; [done|].
    by apply get_box_lookup.
  - intros l Hl (U1 & U2 & U3 & U4 & U5 & U6). by repeat split.
  - by exists s', (with_bbox (fresh (dom (heap s))) e1).
Qed.

(** Line 99. *)
Lemma set_image_path_spec h0 hb s n e1 v1 path :
  record_at h0 hb s n e1 v1 ->
  exists s' e2,
    runs (setattr n (with_image_path (inl path))) s (Value tt) s' /\
    record_at h0 hb s' n e2 (v_with_image_path (inl path) v1) /\
    coords e2 = coords e1 /\
    (forall l c, get_camera (heap s) l = Some c ->
       get_camera (heap s') l = Some c) /\
    files s' = files s /\ log s' = log s.
Proof.
  intros Hrec.
  destruct (record_at_setattr h0 hb s n e1 v1 (with_image_path (inl path))
              (v_with_image_path (inl path) v1) Hrec)
    as (R & Hrec' & Hcam).
  - apply view_with_image_path; [apply Hrec|done].
  - destruct Hrec as (_ & _ & _ & _ & _ & U1 & U2 & U3 & U4 & U5 & U6).
    by repeat split.
  - eexists _, _. split; [exact R|]. split; [exact Hrec'|].
    repeat split; try done. intros l c. by rewrite Hcam.
Qed.

(** Lines 101-102. *)
Lemma set_camera_spec h0 hb s n e1 v1 (b : bool) nc ncv :
  record_at h0 hb s n e1 v1 ->
  get_camera (heap s) nc = Some ncv -> h0 !! nc = None ->
  exists s' e2,
    runs (if b then setattr n (with_camera (Some (Some nc))) else ret tt)
      s (Value tt) s' /\
    record_at h0 hb s' n e2
      (if b then v_with_camera (Some (Some ncv)) v1 else v1) /\
    coords e2 = coords e1 /\
    (forall l c, get_camera (heap s) l = Some c ->
       get_camera (heap s') l = Some c) /\
    files s' = files s /\ log s' = log s.
Proof.
  intros Hrec Hnc Hfresh. destruct b.
  - destruct (record_at_setattr h0 hb s n e1 v1 (with_camera (Some (Some nc)))
                (v_with_camera (Some (Some ncv)) v1) Hrec)
      as (R & Hrec' & Hcam).
    + apply view_with_camera; [apply Hrec|]. simpl. by rewrite Hnc.
    + destruct Hrec as (_ & _ & _ & _ & _ & U1 & U2 & U3 & U4 & U5 & U6).
      repeat split; try done. simpl. by intros ? [= <-].
    + eexists _, _. split; [exact R|]. split; [exact Hrec'|].
      repeat split; try done. intros l c. by rewrite Hcam.
  - exists s, e1. split; [apply runs_ret|]. split; [exact Hrec|].
    by repeat split.
Qed.

(** Lines 104-105. *)
Lemma set_coords_spec h0 hb s n e1 v1 (b : bool) oc nc ocv ncv :
  record_at h0 hb s n e1 v1 ->
  get_camera (heap s) oc = Some ocv ->
  get_camera (heap s) nc = Some ncv ->
  exists o s',
    runs (if negb b then
            ne <- load_example n ;;
            match coords ne with
            | None => raise (AttributeError "coords")
            | Some lc =>
                pts <- load_points lc ;;
                oc <- load_camera oc ;;
                nc <- load_camera nc ;;
                lp <- alloc (ONdarray
                               (NdPoints (reproject_image_points pts oc nc))) ;;
                setattr n (with_coords (Some lp))
            end
          else ret tt) s o s' /\
    hb ⊆ heap s' /\ files s' = files s /\ log s' = log s /\
    (forall l c, get_camera (heap s) l = Some c ->
       get_camera (heap s') l = Some c) /\
    match (if b then Value (v_coords v1)
           else match v_coords v1 with
                | None => Raised (AttributeError "coords")
                | Some pts =>
                    Value (Some (reproject_image_points pts ocv ncv))
                end) with
    | Raised err => o = Raised err
    | Value co =>
        o = Value tt /\
        exists e2, record_at h0 hb s' n e2 (v_with_coords co v1)
    end.
Proof.
  intros Hrec Hoc Hnc.
  assert (Hsame : v_with_coords (v_coords v1) v1 = v1) by (by destruct v1).
  destruct b; simpl.
  - exists (Value tt), s. repeat split; try done; [apply Hrec|].
    exists e1. by rewrite Hsame.
  - pose proof Hrec as (H00 & H0 & Hn & Hl & Hv & Hu).
    destruct (view_example_inv _ _ _ Hv) as (_ & _ & _ & V4 & _ & _).
    destruct (coords e1) as [lc|] eqn:Eco; simpl in V4.
    + destruct (get_points (heap s) lc) as [pts|] eqn:Epts; simpl in V4;
        [|done].
      injection V4 as V4. rewrite <- V4.
      destruct (record_at_assign_new h0 hb s n e1 v1
                  (ONdarray (NdPoints (reproject_image_points pts ocv ncv)))
                  (fun l => with_coords (Some l))
                  (v_with_coords
                     (Some (reproject_image_points pts ocv ncv)) v1) Hrec)
        as (s' & R & Hrec' & Hcam & Hf & Hlog).
      * intros h l Hl' Hv'. apply view_with_coords; [done|]. simpl.
        apply get_points_lookup in Hl'. by rewrite Hl'.
      * intros l Hl' (U1 & U2 & U3 & U4 & U5 & U6).
        repeat split; try done. simpl. by intros ? [= <-].
      * exists (Value tt), s'. split.
        { eapply runs_bind; [by apply runs_load_example|].
          rewrite Eco.
          eapply runs_bind; [by apply runs_load_points|].
          eapply runs_bind; [by apply runs_load_camera|].
          eapply runs_bind; [by apply runs_load_camera|].
          exact R. }
        repeat split; try done; [apply Hrec'|]. eauto.
    + injection V4 as V4. rewrite <- V4.
      exists (Raised (AttributeError "coords")), s.
      split; [|by repeat split].
      eapply runs_bind; [by apply runs_load_example|].
      rewrite Eco. apply runs_raise.
Qed.

Lemma has_3d_camera_view h e v :
  view_camera h (camera e) = Some (v_camera v) ->
  has_3d_camera e = v_has_3d_camera v.
Proof.
  unfold has_3d_camera, v_has_3d_camera.
  destruct (camera e) as [[l|]|]; simpl.
  - destruct (get_camera h l); simpl; [|done]. by intros [= <-].
  - by intros [= <-].
  - by intros [= <-].
Qed.

Lemma is3d_view h e v :
  view_opt get_world h (world_coords e) = Some (v_world_coords v) ->
  is3d e = v_is3d v.
Proof.
  unfold is3d, v_is3d.
  destruct (world_coords e) as [l|]; simpl.
  - destruct (get_world h l); simpl; [|done]. by intros [= <-].
  - by intros [= <-].
Qed.

Lemma record_at_result h0 hb s n e1 v1 :
  record_at h0 hb s n e1 v1 ->
  hb ⊆ heap s /\
  outcome_matches h0 (heap s) (Value (Some n)) (Value (Some v1)).
Proof.
  intros (H00 & H0 & Hn & Hl & Hv & Hu). split; [done|].
  split.
  - unfold view. by rewrite Hl.
  - split; [by eapply unused_weaken|].
    exists e1. split; [done|]. by apply locs_unused_Forall.
Qed.

(** Lines 97-123: the record of the result. *)
Lemma make_record_spec h0 s ex e v oc nc ocv ncv box dst path :
  h0 ⊆ heap s ->
  heap s !! ex = Some (OExample e) ->
  view_example (heap s) e = Some v ->
  get_camera (heap s) oc = Some ocv ->
  get_camera (heap s) nc = Some ncv ->
  h0 !! nc = None ->
  exists o s',
    runs (make_record ex e path oc nc box dst) s o s' /\
    heap s ⊆ heap s' /\ files s' = files s /\
    log s' = rev (snd (expected_record v (files s) path ocv ncv box dst))
             ++ log s /\
    outcome_matches h0 (heap s') o
      (fst (expected_record v (files s) path ocv ncv box dst)).
Proof.
  intros H0 Hex Hv Hoc Hnc Hfnc.
  destruct (view_example_inv _ _ _ Hv) as (V1 & V2 & V3 & V4 & V5 & V6).
  destruct (deepcopy_spec _ _ _ _ Hex Hv)
    as (n & e' & s1 & R1 & (Hsub1 & Hf1 & Hlog1) & Hn & Hl1 & Hv1 & HF).
  assert (Hrec1 : record_at h0 (heap s) s1 n e' v).
  { split; [done|]. split; [done|]. split; [done|]. split; [done|].
    split; [done|]. eapply locs_unused_weaken; [exact H0|].
    by apply locs_unused_Forall. }
  assert (Hoc1 : get_camera (heap s1) oc = Some ocv)
    by eauto using get_camera_weaken.
  assert (Hnc1 : get_camera (heap s1) nc = Some ncv)
    by eauto using get_camera_weaken.
  destruct (set_bbox_spec _ _ _ _ _ _ box Hrec1)
    as (s2 & e2 & R2 & Hrec2 & Hco2 & Hcam2 & Hf2 & Hlog2).
  destruct (set_image_path_spec _ _ _ _ _ _ path Hrec2)
    as (s3 & e3 & R3 & Hrec3 & Hco3 & Hcam3 & Hf3 & Hlog3).
  destruct (set_camera_spec _ _ _ _ _ _ (has_3d_camera e) nc ncv Hrec3)
    as (s4 & e4 & R4 & Hrec4 & Hco4 & Hcam4 & Hf4 & Hlog4); [by eauto|done|].
  destruct (set_coords_spec _ _ _ _ _ _ (is3d e) oc nc ocv ncv Hrec4)
    as (o5 & s5 & R5 & Hsub5 & Hf5 & Hlog5 & Hcam5 & Hres5);
    [by eauto|by eauto|].
  assert (Hfiles5 : files s5 = files s) by congruence.
  assert (Hlogs5 : log s5 = log s) by congruence.
  assert (Hco : v_coords
                  (if has_3d_camera e
                   then v_with_camera (Some (Some ncv))
                          (v_with_image_path (inl path) (v_with_bbox box v))
                   else v_with_image_path (inl path) (v_with_bbox box v))
                = v_coords v) by (by destruct (has_3d_camera e)).
  rewrite Hco in Hres5.
  assert (Rpre : forall o s',
             runs (x <- ret tt ;;
                   transform_mask e n nc dst box ;;; ret (Some n)) s5 o s' ->
             o5 = Value tt ->
             runs (make_record ex e path oc nc box dst) s o s').
  { intros o s' Rk ->. unfold make_record.
    eapply runs_bind; [exact R1|].
    apply runs_bind_assoc.
    eapply runs_bind; [exact R2|].
    eapply runs_bind; [exact R3|].
    eapply runs_bind; [exact R4|].
    eapply runs_bind; [exact R5|]. exact Rk. }
  assert (Rerr : forall err,
             o5 = Raised err ->
             runs (make_record ex e path oc nc box dst) s (Raised err) s5).
  { intros err ->. unfold make_record.
    eapply runs_bind; [exact R1|].
    apply runs_bind_assoc.
    eapply runs_bind; [exact R2|].
    eapply runs_bind; [exact R3|].
    eapply runs_bind; [exact R4|].
    apply runs_bind_raised. exact R5. }
  unfold expected_record, expected_coords.
  rewrite <- (has_3d_camera_view _ _ _ V3), <- (is3d_view _ _ _ V5).
  destruct (if is3d e then Value (v_coords v) else _) as [co|err].
  2:{ exists (Raised err), s5. simpl.
      split; [by apply Rerr|].
      repeat split; try done. }
  destruct Hres5 as [-> (e5 & Hrec5)].
  destruct (transform_mask_spec h0 (heap s) s5 n e5 _ e v nc ncv dst box
              Hrec5)
    as (o6 & s6 & R6 & Hsub6 & Hf6 & Hlog6 & Hres6).
  { eapply view_mask_weaken; [exact Hsub5|done]. }
  { eapply view_camera_weaken; [exact Hsub5|done]. }
  { eauto. }
  { by destruct (has_3d_camera e). }
  rewrite Hfiles5 in *.
  destruct (expected_mask v (files s) ncv dst box) as [[m|err] evs];
    simpl in *.
  - destruct Hres6 as [-> (e6 & Hrec6)].
    exists (Value (Some n)), s6.
    split.
    { apply Rpre; [|done]. eapply runs_bind; [apply runs_ret|].
      eapply runs_bind; [exact R6|]. apply runs_ret. }
    destruct (record_at_result _ _ _ _ _ _ Hrec6) as [Hsub Hout].
    split; [done|]. split; [congruence|]. split; [congruence|].
    assert (Hveq : v_with_mask m
              (v_with_coords co
                 (if has_3d_camera e
                  then v_with_camera (Some (Some ncv))
                         (v_with_image_path (inl path) (v_with_bbox box v))
                  else v_with_image_path (inl path) (v_with_bbox box v)))
            = mkView (inl path) box
                (if has_3d_camera e then Some (Some ncv) else v_camera v)
                co (v_world_coords v) m)
      by (by destruct (has_3d_camera e)).
    by rewrite <- Hveq.
  - subst o6. exists (Raised err), s6.
    split.
    { apply Rpre; [|done]. eapply runs_bind; [apply runs_ret|].
      by apply runs_bind_raised. }
    split; [done|]. split; [congruence|]. split; [congruence|done].
Qed.

End Phases.

(** ** The invocation on the store computes the function by value *)

Section Refinement.
Context `{IL : ImageLib} `{CL : !CameraLib} `{IO : !FileIO} `{RL : Rlemasklib}.

Implicit Types (s : state) (h : gmap loc obj) (l : loc) (e : Example)
  (v : ExampleView).

Lemma add_logs_app evs1 evs2 s :
  add_logs evs2 (add_logs evs1 s) = add_logs (evs1 ++ evs2) s.
Proof. unfold add_logs. simpl. by rewrite rev_app_distr, app_assoc. Qed.

Lemma rev_logs_app (evs1 evs2 : list event) (l0 : list event) :
  rev evs2 ++ rev evs1 ++ l0 = rev (evs1 ++ evs2) ++ l0.
Proof. by rewrite rev_app_distr, app_assoc. Qed.

(** For a well-formed input record, the invocation ends; its outcome,
    the file system and the log are those of [expected], the store
    only grows, and a returned record is made of new objects. *)
Lemma make_efficient_example_refines s ex v new_image_path f a3 min_time
    ignore flip down extreme :
  view (heap s) ex = Some v ->
  exists o s',
    runs (make_efficient_example ex new_image_path f a3 min_time ignore flip
            down extreme) s o s' /\
    heap s ⊆ heap s' /\
    files s' = snd (fst (expected v (files s) new_image_path f a3 min_time
                           ignore flip down extreme)) /\
    log s' = rev (snd (expected v (files s) new_image_path f a3 min_time
                         ignore flip down extreme)) ++ log s /\
    outcome_matches (heap s) (heap s') o
      (fst (fst (expected v (files s) new_image_path f a3 min_time
                   ignore flip down extreme))).
Proof.
  intros Hview.
  destruct (view_inv _ _ _ Hview) as (e & Hex & Hv).
  destruct (view_example_inv _ _ _ Hv) as (V1 & V2 & V3 & V4 & V5 & V6).
  pose proof (runs_load_example _ _ _ Hex) as R0.
  pose proof (source_image_spec _ _ _ V1) as Rsrc.
  pose proof (image_size_spec s v) as Rsize.
  unfold expected, make_efficient_example.
  destruct (expected_size v (files s)) as [wh|err] eqn:Esize.
  2:{ exists (Raised err), (add_logs (size_log v) s). split.
      { eapply runs_bind; [exact R0|]. eapply runs_bind; [exact Rsrc|].
        by apply runs_bind_raised. }
      by repeat split. }
  set (s1 := add_logs (size_log v) s) in *.
  destruct (make_cameras_spec s1 e v V3 V2)
    as (oc & nc & s2 & Rcam & Hsub2 & Hoc2 & Hnc2 & Hfnc & Hne & _ & Hf2
        & Hlog2).
  set (ocv := fst (expected_cameras v)) in *.
  set (ncv0 := snd (expected_cameras v)) in *.
  set (p := expected_plan v wh f extreme).
  assert (Hbox2 : get_box (heap s2) (bbox e) = Some (v_bbox v))
    by (by eapply get_box_weaken).
  set (abspath := ensure_absolute_path new_image_path).
  set (ncv := expected_new_camera v p).
  set (h4 := <[nc := OCamera ncv]> (heap s2)).
  set (s4 := set_heap h4 s2).
  assert (Hsub4 : heap s ⊆ h4).
  { apply insert_subseteq_r; [done|]. exact Hsub2. }
  assert (Hoc4 : get_camera h4 oc = Some ocv)
    by (unfold h4; by rewrite get_camera_insert_ne).
  assert (Hnc4 : get_camera h4 nc = Some ncv)
    by apply get_camera_insert.
  pose proof (destination_is_cached_spec s4 abspath min_time) as Rcached.
  set (s5 := add_logs (cached_log (files s4) abspath min_time) s4) in *.
  assert (Hfiles4 : files s4 = files s) by (simpl; by rewrite Hf2).
  assert (Hlog5 : log s5 = rev (size_log v ++ cached_log (files s) abspath
                                                min_time) ++ log s).
  { change (log s5)
      with (rev (cached_log (files s4) abspath min_time) ++ log s2).
    rewrite Hlog2, Hfiles4.
    change (log s1) with (rev (size_log v) ++ log s).
    apply rev_logs_app. }
  assert (Rpre : forall o s',
    runs (cached <- ret (expected_cached (files s) abspath min_time) ;;
          if negb cached then
            r <- read_source (v_image_path v) ignore ;;
            match r with
            | None => ret None
            | Some im =>
                render_image im oc nc p abspath a3 flip down ;;;
                make_record ex e new_image_path oc nc (expected_bbox v p)
                  (plan_dst_shape p)
            end
          else
            make_record ex e new_image_path oc nc (expected_bbox v p)
              (plan_dst_shape p)) s5 o s' ->
    runs (make_efficient_example ex new_image_path f a3 min_time ignore flip
            down extreme) s o s').
  { intros o s' Rk. unfold make_efficient_example.
    eapply runs_bind; [exact R0|]. eapply runs_bind; [exact Rsrc|].
    eapply runs_bind; [exact Rsize|].
    eapply runs_bind; [exact Rcam|]. cbn [fst snd].
    eapply runs_bind; [by apply runs_load_box|].
    eapply runs_bind; [by apply runs_load_camera|].
    eapply runs_bind; [by apply runs_load_camera|].
    eapply runs_bind; [by apply runs_camera_call|].
    eapply runs_bind.
    { apply runs_camera_call. simpl. apply get_camera_insert. }
    eapply runs_bind.
    { apply runs_load_camera. simpl. apply get_camera_insert. }
    eapply runs_bind.
    { simpl. rewrite insert_insert_eq. exact Rcached. }
    rewrite Hfiles4. exact Rk. }
  assert (Hfiles5 : files s5 = files s) by exact Hfiles4.
  assert (Hex5 : heap s5 !! ex = Some (OExample e))
    by (by eapply lookup_weaken).
  assert (Hv5 : view_example (heap s5) e = Some v)
    by (by eapply view_example_weaken).
  destruct (expected_cached (files s) abspath min_time) eqn:Ecached.
  - destruct (make_record_spec (heap s) s5 ex e v oc nc ocv ncv
                (expected_bbox v p) (plan_dst_shape p) new_image_path)
      as (o & s' & R & Hsub & Hf & Hlog & Hout); try done.
    exists o, s'. split.
    { apply Rpre. eapply runs_bind; [apply runs_ret|]. exact R. }
    rewrite Hfiles5 in Hf, Hlog, Hout.
    split; [by transitivity (heap s5)|]. split; [done|].
    split; [|done]. cbn [fst snd]. rewrite Hlog, Hlog5.
    unfold expected_record_of. apply rev_logs_app.
  - pose proof (read_source_spec s5 v ignore) as Rread.
    rewrite Hfiles5 in Rread.
    assert (Hfiles6 : files (add_logs (read_log v) s5) = files s)
      by exact Hfiles4.
    set (s6 := add_logs (read_log v) s5) in *.
    assert (Hlog6 : log s6 = rev ((size_log v ++ cached_log (files s) abspath
                                      min_time) ++ read_log v) ++ log s).
    { change (log s6) with (rev (read_log v) ++ log s5).
      rewrite Hlog5. apply rev_logs_app. }
    destruct (expected_read v (files s) ignore) as [[im|]|err] eqn:Eread.
    + destruct (render_image_spec s6 im oc nc ocv ncv p abspath a3 flip down)
        as (s7 & R7 & Hsub7 & Hf7 & Hlog7); try done.
      destruct (make_record_spec (heap s) s7 ex e v oc nc ocv ncv
                  (expected_bbox v p) (plan_dst_shape p) new_image_path)
        as (o & s' & R & Hsub & Hf & Hlog & Hout); try done.
      { by transitivity (heap s6). }
      { by eapply lookup_weaken. }
      { by eapply view_example_weaken. }
      { by eapply get_camera_weaken. }
      { by eapply get_camera_weaken. }
      rewrite Hfiles6 in Hf7.
      rewrite Hf7 in Hf, Hlog, Hout.
      exists o, s'. split.
      { apply Rpre. eapply runs_bind; [apply runs_ret|]. simpl.
        eapply runs_bind; [exact Rread|].
        eapply runs_bind; [exact R7|]. exact R. }
      split; [transitivity (heap s6); [done|by transitivity (heap s7)]|].
      split; [done|]. split; [|done].
      cbn [fst snd]. rewrite Hlog, Hlog7, Hlog6.
      unfold expected_record_of.
      rewrite !rev_logs_app. by rewrite <- !app_assoc.
    + exists (Value None), s6. split.
      { apply Rpre. eapply runs_bind; [apply runs_ret|]. simpl.
        eapply runs_bind; [exact Rread|]. apply runs_ret. }
      split; [done|]. split; [done|]. split; [|done].
      cbn [fst snd]. rewrite Hlog6. by rewrite <- !app_assoc.
    + exists (Raised err), s6. split.
      { apply Rpre. eapply runs_bind; [apply runs_ret|]. simpl.
        by apply runs_bind_raised. }
      split; [done|]. split; [done|]. split; [|done].
      cbn [fst snd]. rewrite Hlog6. by rewrite <- !app_assoc.
Qed.

End Refinement.

(** * The properties of the specification *)

(** ** The expanded crop box *)

Section CropBox.
Local Open Scope R_scope.

(** The composition of boxlib calls in [get_expanded_crop_box] is the
    crop box of the specification, for every factor. *)
Lemma get_expanded_crop_box_spec (bbox full_box : Box) (f : R) :
  get_expanded_crop_box bbox full_box f = crop_box_spec bbox full_box f.
Proof.
  unfold get_expanded_crop_box, crop_box_spec, boxlib.intersection,
    boxlib.expand, boxlib.box_around, boxlib.center. simpl.
  fold (rot_side_spec (box_w bbox) (box_h bbox)).
  fold (expansion_factor_spec f).
  set (S := rot_side_spec (box_w bbox) (box_h bbox)).
  set (E := expansion_factor_spec f).
  replace (box_x bbox + box_w bbox / 2 - S / 2 + S / 2 - S * E / 2)
    with (box_x bbox + box_w bbox / 2 - S * E / 2) by lra.
  replace (box_y bbox + box_h bbox / 2 - S / 2 + S / 2 - S * E / 2)
    with (box_y bbox + box_h bbox / 2 - S * E / 2) by lra.
  replace (box_x bbox + box_w bbox / 2 - S * E / 2 + S * E)
    with (box_x bbox + box_w bbox / 2 + S * E / 2) by lra.
  replace (box_y bbox + box_h bbox / 2 - S * E / 2 + S * E)
    with (box_y bbox + box_h bbox / 2 + S * E / 2) by lra.
  reflexivity.
Qed.

(** C3, as amended. For a box [b] of positive width and height, a
    factor of at least 1 and an angle of at most 30 degrees, the crop
    box of [get_expanded_crop_box] contains every point of [b] turned
    about its centre that lies in [full_box]: the crop box is cut to
    [full_box], and contains the whole turned box when [full_box]
    does. *)
Theorem expanded_crop_box_contains_rotated_within_full
    (b full_box : Box) (f theta : R) (p : Point) :
  0 < box_w b -> 0 < box_h b -> 1 <= f -> Rabs theta <= PI / 6 ->
  in_box b p ->
  in_box full_box (rotate_about (boxlib.center b) theta p) ->
  in_box (get_expanded_crop_box b full_box f)
    (rotate_about (boxlib.center b) theta p).
Proof.
  intros Hw Hh Hf Hth Hp Hfull.
  rewrite get_expanded_crop_box_unfold.
  apply in_box_intersection; [|exact Hfull].
  apply unclipped_crop_box_contains_rotated; lra || assumption.
Qed.

(** C3 on the box [(0, 0, 50, 80)] at the corner of a 640x480 frame,
    turned by 30 degrees: the expanded square reaches beyond the frame
    and is cut, the turned corner [(50, 80)] lies in the frame, and
    the crop box contains it. *)
Lemma expanded_crop_box_contains_rotated_within_full_witness :
  in_box (get_expanded_crop_box (mkBox 0 0 50 80) (mkBox 0 0 640 480) 1)
    (rotate_about (boxlib.center (mkBox 0 0 50 80)) (PI / 6) (50, 80)).
Proof.
  pose proof PI_RGT_0 as Hpi.
  pose proof cos_PI6_lower as Hc1. pose proof cos_PI6_upper as Hc2.
  apply (expanded_crop_box_contains_rotated_within_full
           (mkBox 0 0 50 80) (mkBox 0 0 640 480) 1 (PI / 6) (50, 80)).
  - simpl. lra.
  - simpl. lra.
  - lra.
  - rewrite Rabs_right; lra.
  - unfold in_box. simpl. lra.
  - unfold in_box, rotate_about, boxlib.center. simpl.
    rewrite sin_PI6. lra.
Defined.

(** C3, the claim as stated fails: with the full box equal to the
    subject box, the crop box is the subject box itself, and the corner
    [(0, 0)] turned by 30 degrees leaves it. *)
Lemma expanded_crop_box_clipped_counterexample :
  ~ (forall (b full_box : Box) (f theta : R) (p : Point),
       0 < box_w b -> 0 < box_h b -> 1 <= f -> Rabs theta <= PI / 6 ->
       in_box b p ->
       in_box (get_expanded_crop_box b full_box f)
         (rotate_about (boxlib.center b) theta p)).
Proof.
  intros H.
  specialize (H (mkBox 0 0 10 10) (mkBox 0 0 10 10) 1 (PI / 6) (0, 0)).
  pose proof PI_RGT_0 as Hpi.
  destruct H as [_ [Hy _]].
  - simpl. lra.
  - simpl. lra.
  - lra.
  - rewrite Rabs_right; lra.
  - unfold in_box. simpl. lra.
  - revert Hy.
    unfold get_expanded_crop_box, boxlib.intersection, rotate_about,
      boxlib.center. simpl.
    rewrite sin_PI6. pose proof cos_PI6_lower as Hc.
    match goal with |- Rmax ?a 0 <= _ -> _ => pose proof (Rmax_r a 0) end.
    lra.
Qed.

End CropBox.

(** ** The crop plan *)

Section CropPlanFacts.
Context `{IL : ImageLib} `{CL : !CameraLib} `{IO : !FileIO}.
Local Open Scope R_scope.

(** C4. With a positive factor, the crop box of the plan is the
    intersection of the square around the centre of the reprojected
    subject box, of side [max(cos 30 w + sin 30 h, cos 30 h + sin 30 w)]
    times [(1/0.85) * 1.1 * (1/0.85) * f], with the reprojected full
    box: the corner reprojection of the whole image, or
    [(-1e9, -1e9, 2e9, 2e9)] under [extreme_perspective]. *)
Theorem crop_box_is_clipped_expanded_square
    (bbox full_box : Box) (old_camera new_camera : Camera) (f : R)
    (extreme_perspective : bool) :
  0 < f ->
  plan_expanded_bbox
    (crop_plan bbox full_box old_camera new_camera f extreme_perspective)
  = crop_box_spec
      (reproject_box_side_midpoints bbox old_camera new_camera)
      (if extreme_perspective then mkBox (-1e9) (-1e9) 2e9 2e9
       else reproject_box_corners full_box old_camera new_camera)
      f.
Proof.
  intros Hf. unfold crop_plan. simpl.
  destruct (Rlt_dec 0 f) as [_|Hn]; [|contradiction].
  apply get_expanded_crop_box_spec.
Qed.

End CropPlanFacts.


(** ** The connected component with the highest IoU *)

Section Components.
Local Open Scope R_scope.

Ltac eval_minmax :=
  repeat match goal with
    | |- context [Rmax ?a ?b] =>
        first [rewrite (Rmax_left a b) by lra
              |rewrite (Rmax_right a b) by lra]
    | |- context [Rmin ?a ?b] =>
        first [rewrite (Rmin_left a b) by lra
              |rewrite (Rmin_right a b) by lra]
    end.

Lemma two_blob_components :
  connectedComponentsWithStats
    (map (map (fun v => (v mod 256)%Z)) two_blob_mask)
  = Value (3%Z, two_blob_labels,
           [(0, 0, 34, 12, 208)%Z; (1, 1, 10, 10, 100)%Z;
            (23, 1, 10, 10, 100)%Z]).
Proof. vm_compute. reflexivity. Qed.

Lemma iou_background_subject_left :
  boxlib.iou (stat_box (0, 0, 34, 12, 208)%Z) subject_box_left = 240 / 408.
Proof.
  unfold boxlib.iou, boxlib.area, boxlib.intersection, stat_box,
    subject_box_left. simpl.
  eval_minmax. lra.
Qed.

Lemma iou_left_blob_subject_left :
  boxlib.iou (stat_box (1, 1, 10, 10, 100)%Z) subject_box_left = 100 / 240.
Proof.
  unfold boxlib.iou, boxlib.area, boxlib.intersection, stat_box,
    subject_box_left. simpl.
  eval_minmax. lra.
Qed.

Lemma iou_right_blob_subject_left :
  boxlib.iou (stat_box (23, 1, 10, 10, 100)%Z) subject_box_left = 0.
Proof.
  unfold boxlib.iou, boxlib.area, boxlib.intersection, stat_box,
    subject_box_left. simpl.
  eval_minmax. lra.
Qed.

(** The scenario of the specification is met: the subject box meets
    the left blob and not the right one. *)
Lemma subject_left_overlaps_left_blob_only :
  0 < boxlib.area
        (boxlib.intersection (stat_box (1, 1, 10, 10, 100)%Z)
           subject_box_left) /\
  boxlib.area
    (boxlib.intersection (stat_box (23, 1, 10, 10, 100)%Z) subject_box_left)
  = 0.
Proof.
  unfold boxlib.area, boxlib.intersection, stat_box, subject_box_left.
  simpl. split; eval_minmax; lra.
Qed.

Lemma background_is_not_left_blob : two_blob_background <> left_blob.
Proof. vm_compute. discriminate. Qed.

(** C2, the code at the failing input: for the mask with two 10x10
    blobs and the subject box [(0, 0, 20, 12)], which meets the left
    blob only, the background (label 0, bounding box the whole frame)
    has the highest IoU, and the function returns the encoding of the
    background and not of the left blob. *)
Theorem highest_iou_selects_background `{Rlemasklib} :
  get_connected_component_with_highest_iou two_blob_mask subject_box_left
  = Value (rle_encode two_blob_background).
Proof.
  unfold get_connected_component_with_highest_iou.
  rewrite two_blob_components.
  cbn [map].
  rewrite iou_background_subject_left, iou_left_blob_subject_left,
    iou_right_blob_subject_left.
  unfold argmax, argmax_from.
  destruct (Rlt_dec (240 / 408) (100 / 240)) as [Hlt|_]; [lra|].
  destruct (Rlt_dec (240 / 408) 0) as [Hlt|_]; [lra|].
  do 2 f_equal.
Qed.

(** With a subject box that fits the left blob, the left blob is
    selected. *)
Lemma highest_iou_selects_fitting_blob `{Rlemasklib} :
  get_connected_component_with_highest_iou two_blob_mask left_blob_box
  = Value (rle_encode left_blob).
Proof.
  unfold get_connected_component_with_highest_iou.
  rewrite two_blob_components.
  cbn [map].
  assert (H0 : boxlib.iou (stat_box (0, 0, 34, 12, 208)%Z) left_blob_box
               = 100 / 408).
  { unfold boxlib.iou, boxlib.area, boxlib.intersection, stat_box,
      left_blob_box. simpl. eval_minmax. lra. }
  assert (H1 : boxlib.iou (stat_box (1, 1, 10, 10, 100)%Z) left_blob_box
               = 1).
  { unfold boxlib.iou, boxlib.area, boxlib.intersection, stat_box,
      left_blob_box. simpl. eval_minmax. lra. }
  assert (H2 : boxlib.iou (stat_box (23, 1, 10, 10, 100)%Z) left_blob_box
               = 0).
  { unfold boxlib.iou, boxlib.area, boxlib.intersection, stat_box,
      left_blob_box. simpl. eval_minmax. lra. }
  rewrite H0, H1, H2.
  unfold argmax, argmax_from.
  destruct (Rlt_dec (100 / 408) 1) as [_|Hn]; [|lra].
  destruct (Rlt_dec 1 0) as [Hlt|_]; [lra|].
  do 2 f_equal.
Qed.

End Components.

(** ** Invocations *)

Section Invocation.
Context `{IL : ImageLib} `{CL : !CameraLib} `{IO : !FileIO} `{RL : Rlemasklib}.

Implicit Types (s : state) (h : gmap loc obj) (l : loc) (e : Example)
  (v : ExampleView).

Lemma events_of_spec {A} (m : M A) s evs :
  log (final_state m s) = rev evs ++ log s -> events_of m s = evs.
Proof.
  unfold events_of. intros ->.
  rewrite length_app, Nat.add_sub.
  rewrite take_app_length. apply rev_involutive.
Qed.

(** The facts of [make_efficient_example_refines] on the outcome, the
    final state and the operations of the invocation. *)
Lemma invocation_facts s ex v new_image_path f a3 min_time ignore flip down
    extreme :
  view (heap s) ex = Some v ->
  let m := make_efficient_example ex new_image_path f a3 min_time ignore
             flip down extreme in
  let E := expected v (files s) new_image_path f a3 min_time ignore flip
             down extreme in
  heap s ⊆ heap (final_state m s) /\
  files (final_state m s) = snd (fst E) /\
  events_of m s = snd E /\
  outcome_matches (heap s) (heap (final_state m s)) (outcome_of m s)
    (fst (fst E)).
Proof.
  intros Hview m E.
  destruct (make_efficient_example_refines s ex v new_image_path f a3
              min_time ignore flip down extreme Hview)
    as (o & s' & R & Hsub & Hf & Hlog & Hout).
  unfold final_state, outcome_of, m. rewrite R. simpl.
  repeat split; try done.
  apply events_of_spec. unfold final_state. by rewrite R.
Qed.

(** The operations made for the mask are marked as such. *)
Lemma expected_mask_events v fs nc dst box :
  Forall (fun ev => on_mask ev = true) (snd (expected_mask v fs nc dst box)).
Proof.
  unfold expected_mask.
  destruct (v_mask v) as [[|p|im|r]|]; simpl; try constructor.
  - destruct (imread fs (ensure_absolute_path p)); simpl;
      [|by repeat constructor].
    destruct (expected_ex_camera v); simpl; by repeat constructor.
  - destruct (expected_ex_camera v); simpl; by repeat constructor.
  - destruct (expected_ex_camera v); simpl; by repeat constructor.
Qed.

Lemma expected_record_events v fs path oc nc box dst :
  Forall (fun ev => on_mask ev = true)
    (snd (expected_record v fs path oc nc box dst)).
Proof.
  unfold expected_record.
  destruct (expected_coords v oc nc); simpl; [|constructor].
  pose proof (expected_mask_events v fs nc dst box) as H.
  by destruct (expected_mask v fs nc dst box) as [[m|err] evs].
Qed.

(** An example without a mask: no operation is made for one. *)
Lemma expected_record_events_no_mask v fs path oc nc box dst :
  v_mask v = None \/ v_mask v = Some MvNone ->
  snd (expected_record v fs path oc nc box dst) = [].
Proof.
  unfold expected_record, expected_mask.
  destruct (expected_coords v oc nc); simpl; [|done].
  by intros [-> | ->].
Qed.

Lemma outcome_matches_raised h h' o err :
  outcome_matches h h' o (Raised err) -> o = Raised err.
Proof. destruct o as [[l|]|e]; simpl; naive_solver. Qed.

Lemma outcome_matches_none h h' o :
  outcome_matches h h' o (Value None) -> o = Value None.
Proof. destruct o as [[l|]|e]; simpl; naive_solver. Qed.

Lemma outcome_matches_record h h' o v' :
  outcome_matches h h' o (Value (Some v')) ->
  exists l, o = Value (Some l) /\ view h' l = Some v' /\ fresh_record h h' l.
Proof. destruct o as [[l|]|e]; simpl; naive_solver. Qed.

Lemma not_source_read_on_mask (evs : list event) path :
  Forall (fun ev => on_mask ev = true) evs ->
  ~ In (EvImread OnImage path) evs.
Proof.
  intros Hall Hin. rewrite Forall_forall in Hall.
  apply list_elem_of_In in Hin. by apply Hall in Hin.
Qed.

Lemma not_source_read_size_log v path :
  ~ In (EvImread OnImage path) (size_log v).
Proof. unfold size_log. destruct (v_image_path v); simpl; naive_solver. Qed.

Lemma not_source_read_cached_log fs abspath t path :
  ~ In (EvImread OnImage path) (cached_log fs abspath t).
Proof.
  unfold cached_log. destruct (is_file_newer fs abspath t); simpl;
    naive_solver.
Qed.

Lemma not_source_read_render_log abspath a3 flip down path :
  ~ In (EvImread OnImage path) (render_log abspath a3 flip down).
Proof.
  unfold render_log. destruct a3, flip, down; simpl; naive_solver.
Qed.

(** The source image is read only when the destination is not cached,
    and then from the path of the example. *)
Lemma source_read_in_expected v fs new_image_path f a3 min_time ignore flip
    down extreme path :
  In (EvImread OnImage path)
    (snd (expected v fs new_image_path f a3 min_time ignore flip down
            extreme)) ->
  v_image_path v = inl path /\
  (exists wh, expected_size v fs = Value wh) /\
  expected_cached fs (ensure_absolute_path new_image_path) min_time = false.
Proof.
  unfold expected.
  destruct (expected_size v fs) as [wh|err]; simpl.
  2:{ intros Hin. by apply not_source_read_size_log in Hin. }
  assert (Hread : In (EvImread OnImage path) (read_log v) ->
                  v_image_path v = inl path).
  { unfold read_log. destruct (v_image_path v); simpl; naive_solver. }
  destruct (expected_cached fs (ensure_absolute_path new_image_path)
              min_time); simpl.
  - rewrite !in_app_iff. intros [[Hin|Hin]|Hin].
    + by apply not_source_read_size_log in Hin.
    + by apply not_source_read_cached_log in Hin.
    + eapply not_source_read_on_mask in Hin; [done|].
      apply expected_record_events.
  - destruct (expected_read v fs ignore) as [[im|]|err]; simpl;
      rewrite !in_app_iff.
    + intros [[Hin|Hin]|[Hin|[Hin|Hin]]]; eauto.
      * by apply not_source_read_size_log in Hin.
      * by apply not_source_read_cached_log in Hin.
      * by apply not_source_read_render_log in Hin.
      * eapply not_source_read_on_mask in Hin; [done|].
        apply expected_record_events.
    + intros [[Hin|Hin]|Hin]; eauto.
      * by apply not_source_read_size_log in Hin.
      * by apply not_source_read_cached_log in Hin.
    + intros [[Hin|Hin]|Hin]; eauto.
      * by apply not_source_read_size_log in Hin.
      * by apply not_source_read_cached_log in Hin.
Qed.

(** C1. In an invocation that reads the source image from [path] and
    whose read fails with [err]: a [FileNotFoundError] is raised
    whatever the flag [ignore_broken_image]; any other error (an
    instance of [Exception]) makes the function return [None] when the
    flag is set; and with the flag unset the error is raised. *)
Theorem source_read_failure_outcome s ex v new_image_path f a3 min_time
    ignore flip down extreme path err :
  let m := make_efficient_example ex new_image_path f a3 min_time ignore
             flip down extreme in
  view (heap s) ex = Some v ->
  In (EvImread OnImage path) (events_of m s) ->
  imread (files s) path = Raised err ->
  (isinstance_FileNotFoundError err = true -> outcome_of m s = Raised err) /\
  (isinstance_FileNotFoundError err = false ->
   isinstance_Exception err = true -> ignore = true ->
   outcome_of m s = Value None) /\
  (isinstance_FileNotFoundError err = false -> ignore = false ->
   outcome_of m s = Raised err).
Proof.
  intros m Hview Hin Hread.
  destruct (invocation_facts s ex v new_image_path f a3 min_time ignore flip
              down extreme Hview) as (_ & _ & Hev & Hout).
  fold m in Hev, Hout. rewrite Hev in Hin.
  destruct (source_read_in_expected _ _ _ _ _ _ _ _ _ _ _ Hin)
    as (Hip & [wh Hsize] & Hcached).
  revert Hout. unfold expected. rewrite Hsize, Hcached.
  unfold expected_read. rewrite Hip, Hread.
  destruct err; simpl; destruct ignore; simpl; intros Hout;
    repeat split; intros; try done;
    eauto using outcome_matches_raised, outcome_matches_none.
Qed.

Lemma on_mask_spares_image (evs : list event) :
  Forall (fun ev => on_mask ev = true) evs -> Forall spares_image evs.
Proof.
  intros H. eapply Forall_impl; [exact H|].
  intros [| | |[]|[]| |]; unfold spares_image; simpl; naive_solver.
Qed.

Lemma size_log_spares_image v : Forall spares_image (size_log v).
Proof.
  unfold size_log. destruct (v_image_path v); repeat constructor; done.
Qed.

Lemma cached_log_spares_image fs abspath t :
  Forall spares_image (cached_log fs abspath t).
Proof.
  unfold cached_log. destruct (is_file_newer fs abspath t);
    repeat constructor; done.
Qed.

(** With a cached destination the file system is left as it is, and
    the operations are the size query, the two checks of the
    destination, and those for the mask. *)
Lemma expected_when_cached v fs new_image_path f a3 min_time ignore flip
    down extreme :
  expected_cached fs (ensure_absolute_path new_image_path) min_time = true ->
  let E := expected v fs new_image_path f a3 min_time ignore flip down
             extreme in
  snd (fst E) = fs /\
  Forall spares_image (snd E) /\
  (v_mask v = None \/ v_mask v = Some MvNone ->
   Forall (fun ev => is_pixel_computation ev = false) (snd E)).
Proof.
  intros Hcached. unfold expected. rewrite Hcached.
  destruct (expected_size v fs) as [wh|err]; simpl.
  - split; [done|]. split.
    + repeat apply Forall_app_2.
      * apply size_log_spares_image.
      * apply cached_log_spares_image.
      * apply on_mask_spares_image, expected_record_events.
    + intros Hmask. unfold expected_record_of.
      rewrite expected_record_events_no_mask by done.
      rewrite app_nil_r. apply Forall_app_2.
      * unfold size_log. destruct (v_image_path v); by repeat constructor.
      * unfold cached_log.
        destruct (is_file_newer fs _ min_time); by repeat constructor.
  - split; [done|]. split; [apply size_log_spares_image|].
    intros _. unfold size_log.
    destruct (v_image_path v); by repeat constructor.
Qed.

Lemma outcome_matches_equivalent h0 h1 h1' h2 o1 o2 o' :
  outcome_matches h0 h1 o1 o' -> outcome_matches h1' h2 o2 o' ->
  outcomes_equivalent h1 o1 h2 o2.
Proof.
  destruct o' as [[v'|]|err]; intros H1 H2.
  - apply outcome_matches_record in H1 as (l1 & -> & Hv1 & _).
    apply outcome_matches_record in H2 as (l2 & -> & Hv2 & _).
    simpl. eauto.
  - apply outcome_matches_none in H1 as ->.
    by apply outcome_matches_none in H2 as ->.
  - apply outcome_matches_raised in H1 as ->.
    by apply outcome_matches_raised in H2 as ->.
Qed.

(** C5, as amended. If the destination file is newer than [min_time]
    and readable as an image, the invocation makes no read of the
    source image, no write, and no pixel computation except for the
    mask of an example that carries one (none at all for an example
    without a mask), and leaves the file system as it is; a second
    invocation with the same inputs, from the state the first one
    left, does the same and ends with an equivalent outcome. *)
Theorem cached_destination_skips_image_work s ex v new_image_path f a3
    min_time ignore flip down extreme :
  let m := make_efficient_example ex new_image_path f a3 min_time ignore
             flip down extreme in
  let abspath := ensure_absolute_path new_image_path in
  let s1 := final_state m s in
  view (heap s) ex = Some v ->
  is_file_newer (files s) abspath min_time = true ->
  is_image_readable (files s) abspath = true ->
  Forall spares_image (events_of m s) /\
  (v_mask v = None \/ v_mask v = Some MvNone ->
   Forall (fun ev => is_pixel_computation ev = false) (events_of m s)) /\
  files s1 = files s /\
  Forall spares_image (events_of m s1) /\
  files (final_state m s1) = files s /\
  outcomes_equivalent (heap s1) (outcome_of m s)
    (heap (final_state m s1)) (outcome_of m s1).
Proof.
  intros m abspath s1 Hview Hnewer Hreadable.
  assert (Hcached : expected_cached (files s) abspath min_time = true)
    by (unfold expected_cached; by rewrite Hnewer, Hreadable).
  destruct (invocation_facts s ex v new_image_path f a3 min_time ignore flip
              down extreme Hview) as (Hsub & Hf & Hev & Hout).
  destruct (expected_when_cached v (files s) new_image_path f a3 min_time
              ignore flip down extreme Hcached) as (Ef & Eev & Enomask).
  fold m in Hsub, Hf, Hev, Hout. fold s1 in Hsub, Hf, Hout.
  rewrite Ef in Hf.
  assert (Hview1 : view (heap s1) ex = Some v) by (by eapply view_weaken).
  destruct (invocation_facts s1 ex v new_image_path f a3 min_time ignore
              flip down extreme Hview1) as (Hsub2 & Hf2 & Hev2 & Hout2).
  fold m in Hsub2, Hf2, Hev2, Hout2.
  rewrite Hf in Hf2, Hev2, Hout2. rewrite Ef in Hf2.
  rewrite Hev, Hev2.
  repeat split; try done.
  by eapply outcome_matches_equivalent.
Qed.

(** When the function by value returns a record: the size query
    succeeded, and the record is built from the crop plan. *)
Lemma expected_returns_record v fs new_image_path f a3 min_time ignore flip
    down extreme v' :
  let E := expected v fs new_image_path f a3 min_time ignore flip down
             extreme in
  fst (fst E) = Value (Some v') ->
  exists wh co mk,
    expected_size v fs = Value wh /\
    let p := expected_plan v wh f extreme in
    let oc := fst (expected_cameras v) in
    let nc := expected_new_camera v p in
    v' = mkView (inl new_image_path) (expected_bbox v p)
           (if v_has_3d_camera v then Some (Some nc) else v_camera v)
           co (v_world_coords v) mk /\
    expected_coords v oc nc = Value co /\
    fst (expected_mask v (snd (fst E)) nc (plan_dst_shape p)
           (expected_bbox v p)) = Value mk.
Proof.
  unfold expected.
  destruct (expected_size v fs) as [wh|err]; simpl; [|done].
  set (p := expected_plan v wh f extreme).
  assert (Hrec : forall fs',
    fst (expected_record_of v fs' p new_image_path) = Value (Some v') ->
    exists co mk,
      v' = mkView (inl new_image_path) (expected_bbox v p)
             (if v_has_3d_camera v
              then Some (Some (expected_new_camera v p)) else v_camera v)
             co (v_world_coords v) mk /\
      expected_coords v (fst (expected_cameras v)) (expected_new_camera v p)
      = Value co /\
      fst (expected_mask v fs' (expected_new_camera v p) (plan_dst_shape p)
             (expected_bbox v p)) = Value mk).
  { intros fs'. unfold expected_record_of, expected_record.
    destruct (expected_coords v _ _) as [co|err]; simpl; [|done].
    destruct (expected_mask v fs' _ _ _) as [[mk|err] evs]; simpl; [|done].
    intros [= <-]. by exists co, mk. }
  destruct (expected_cached fs _ min_time); simpl.
  - intros H. destruct (Hrec _ H) as (co & mk & ? & ? & ?).
    by exists wh, co, mk.
  - destruct (expected_read v fs ignore) as [[im|]|err]; simpl; try done.
    intros H. destruct (Hrec _ H) as (co & mk & ? & ? & ?).
    by exists wh, co, mk.
Qed.

Lemma expected_coords_cases v oc nc co :
  expected_coords v oc nc = Value co ->
  (v_is3d v = true -> co = v_coords v) /\
  (v_is3d v = false ->
   exists pts, v_coords v = Some pts /\
               co = Some (reproject_image_points pts oc nc)).
Proof.
  unfold expected_coords. destruct (v_is3d v).
  - intros [= <-]. by split.
  - destruct (v_coords v) as [pts|]; [|done]. intros [= <-].
    split; [done|]. eauto.
Qed.

Lemma expected_mask_cases v fs nc dst box mk :
  fst (expected_mask v fs nc dst box) = Value mk ->
  (v_mask v = None \/ v_mask v = Some MvNone -> mk = v_mask v) /\
  (forall m0, v_mask v = Some m0 -> m0 <> MvNone ->
     exists r, mk = Some (MvRle r)).
Proof.
  unfold expected_mask.
  destruct (v_mask v) as [[|p|im|enc]|]; simpl.
  - intros [= <-]. split; [done|]. by intros ? [= <-].
  - destruct (imread fs _); simpl; [|done].
    destruct (expected_ex_camera v); simpl; [|done].
    destruct (get_connected_component_with_highest_iou _ _); simpl; [|done].
    intros [= <-]. split; [by intros [|]|]. eauto.
  - destruct (expected_ex_camera v); simpl; [|done].
    intros [= <-]. split; [by intros [|]|]. eauto.
  - destruct (expected_ex_camera v); simpl; [|done].
    intros [= <-]. split; [by intros [|]|]. eauto.
  - intros [= <-]. split; [done|]. by intros ? [=].
Qed.

(** C6, as amended. When the function returns a record, the record
    is a new object made of new objects, and its value is that of the
    input with: [bbox] the box reprojected to the new camera after its
    shift and scaling, [image_path] the new path, [camera] the new
    camera exactly when the input has a camera, [coords] reprojected
    from the old to the new camera exactly when the input has no
    [world_coords], and [mask] the encoded reprojected mask when the
    input carries a mask; the other attributes and, without a mask,
    the mask attribute are those of the input. *)
Theorem returned_record_value s ex v new_image_path f a3 min_time ignore
    flip down extreme l' :
  let m := make_efficient_example ex new_image_path f a3 min_time ignore
             flip down extreme in
  let s1 := final_state m s in
  view (heap s) ex = Some v ->
  outcome_of m s = Value (Some l') ->
  exists wh co mk,
    expected_size v (files s) = Value wh /\
    let p := expected_plan v wh f extreme in
    let oc := fst (expected_cameras v) in
    let nc := expected_new_camera v p in
    view (heap s1) l'
    = Some (mkView (inl new_image_path)
              (reproject_box_side_midpoints (v_bbox v) oc nc)
              (if v_has_3d_camera v then Some (Some nc) else v_camera v)
              co (v_world_coords v) mk) /\
    (v_is3d v = true -> co = v_coords v) /\
    (v_is3d v = false ->
     exists pts, v_coords v = Some pts /\
                 co = Some (reproject_image_points pts oc nc)) /\
    (v_mask v = None \/ v_mask v = Some MvNone -> mk = v_mask v) /\
    (forall m0, v_mask v = Some m0 -> m0 <> MvNone ->
       exists r, mk = Some (MvRle r)) /\
    fst (expected_mask v (files s1) nc (plan_dst_shape p)
           (reproject_box_side_midpoints (v_bbox v) oc nc)) = Value mk /\
    fresh_record (heap s) (heap s1) l'.
Proof.
  intros m s1 Hview Hret.
  destruct (invocation_facts s ex v new_image_path f a3 min_time ignore flip
              down extreme Hview) as (Hsub & Hf & Hev & Hout).
  fold m in Hsub, Hf, Hev, Hout. fold s1 in Hsub, Hf, Hout.
  rewrite Hret in Hout.
  destruct (fst (fst (expected v (files s) new_image_path f a3 min_time
                        ignore flip down extreme)))
    as [[v'|]|err] eqn:Eout; try done.
  destruct Hout as [Hv' Hfresh].
  destruct (expected_returns_record _ _ _ _ _ _ _ _ _ _ _ Eout)
    as (wh & co & mk & Hsize & -> & Hco & Hmk).
  rewrite <- Hf in Hmk.
  destruct (expected_coords_cases _ _ _ _ Hco) as [Hco1 Hco2].
  destruct (expected_mask_cases _ _ _ _ _ _ Hmk) as [Hmk1 Hmk2].
  unfold expected_bbox in *.
  exists wh, co, mk. split; [done|]. split; [exact Hv'|].
  split; [done|]. split; [done|]. split; [done|]. split; [done|].
  split; [exact Hmk|exact Hfresh].
Qed.

(** What an invocation makes of the new camera of lines 53-54: the
    returned record is expressed in it, and the image written is
    reprojected to it. *)
Lemma invocation_uses_new_camera s ex v new_image_path f a3 min_time ignore
    flip down extreme wh :
  let m := make_efficient_example ex new_image_path f a3 min_time ignore
             flip down extreme in
  let s1 := final_state m s in
  let abspath := ensure_absolute_path new_image_path in
  let p := expected_plan v wh f extreme in
  let oc := fst (expected_cameras v) in
  let nc := expected_new_camera v p in
  view (heap s) ex = Some v ->
  expected_size v (files s) = Value wh ->
  (forall l', outcome_of m s = Value (Some l') ->
     exists r, view (heap s1) l' = Some r /\
       v_bbox r = reproject_box_side_midpoints (v_bbox v) oc nc /\
       (v_has_3d_camera v = true -> v_camera r = Some (Some nc)) /\
       (v_is3d v = false ->
        exists pts, v_coords v = Some pts /\
                    v_coords r = Some (reproject_image_points pts oc nc))) /\
  (expected_cached (files s) abspath min_time = false ->
   forall im, expected_read v (files s) ignore = Value (Some im) ->
     files s1
     = imwrite (ensure_parent_dir_exists (files s) abspath) abspath
         (expected_image im oc nc p a3 flip down) 95).
Proof.
  intros m s1 abspath p oc nc Hview Hsize.
  destruct (invocation_facts s ex v new_image_path f a3 min_time ignore flip
              down extreme Hview) as (_ & Hf & _ & Hout).
  fold m in Hf, Hout. fold s1 in Hf, Hout. split.
  - intros l' Hret. rewrite Hret in Hout.
    destruct (fst (fst (expected v (files s) new_image_path f a3 min_time
                          ignore flip down extreme)))
      as [[v'|]|err] eqn:Eout; try done.
    destruct Hout as [Hv' _].
    destruct (expected_returns_record _ _ _ _ _ _ _ _ _ _ _ Eout)
      as (wh' & co & mk & Hsize' & -> & Hco & _).
    assert (wh' = wh) as -> by congruence.
    destruct (expected_coords_cases _ _ _ _ Hco) as [_ Hco2].
    eexists. split; [exact Hv'|]. cbn [v_bbox v_camera v_coords].
    split; [reflexivity|]. split.
    + by intros ->.
    + intros H2d. destruct (Hco2 H2d) as (pts & Hpts & ->). by exists pts.
  - intros Hcached im Hread. rewrite Hf. unfold expected.
    rewrite Hsize. fold abspath. by rewrite Hcached, Hread.
Qed.

(** C7. With [further_expansion_factor = 0] the crop box that shifts
    the new camera and gives the destination shape is the
    side-midpoint reprojected subject box itself, not expanded, padded
    or cut to the full box: the returned record is expressed in the
    camera shifted by the corner of that box, and the image written
    has the shape of that box, scaled. *)
Theorem zero_factor_uses_bare_reprojected_box s ex v new_image_path a3
    min_time ignore flip down extreme wh :
  let m := make_efficient_example ex new_image_path 0 a3 min_time ignore
             flip down extreme in
  let s1 := final_state m s in
  let abspath := ensure_absolute_path new_image_path in
  let oc := fst (expected_cameras v) in
  let nc0 := snd (expected_cameras v) in
  let rb := reproject_box_side_midpoints (v_bbox v) oc nc0 in
  let sf := scale_factor_of rb in
  let nc := scale_output (shift_image nc0 (- box_x rb, - box_y rb)%R) sf in
  let dst_shape :=
    (rounded_int (sf * box_h rb), rounded_int (sf * box_w rb)) in
  view (heap s) ex = Some v ->
  expected_size v (files s) = Value wh ->
  (forall l', outcome_of m s = Value (Some l') ->
     exists r, view (heap s1) l' = Some r /\
       v_bbox r = reproject_box_side_midpoints (v_bbox v) oc nc /\
       (v_has_3d_camera v = true -> v_camera r = Some (Some nc)) /\
       (v_is3d v = false ->
        exists pts, v_coords v = Some pts /\
                    v_coords r = Some (reproject_image_points pts oc nc))) /\
  (expected_cached (files s) abspath min_time = false ->
   forall im, expected_read v (files s) ignore = Value (Some im) ->
     exists p,
       plan_expanded_bbox p = rb /\ plan_scale_factor p = sf /\
       plan_dst_shape p = dst_shape /\
       files s1
       = imwrite (ensure_parent_dir_exists (files s) abspath) abspath
           (expected_image im oc nc p a3 flip down) 95).
Proof.
  intros m s1 abspath oc nc0 rb sf nc dst_shape Hview Hsize.
  destruct (invocation_uses_new_camera s ex v new_image_path 0 a3 min_time
              ignore flip down extreme wh Hview Hsize) as [Hrec Him].
  fold m s1 abspath oc in Hrec, Him.
  assert (Hbox : plan_expanded_bbox (expected_plan v wh 0 extreme) = rb).
  { unfold expected_plan, crop_plan. cbn [plan_expanded_bbox].
    destruct (Rlt_dec 0 0) as [Hlt|_]; [|reflexivity].
    exfalso. revert Hlt. apply Rlt_irrefl. }
  assert (Hsf : plan_scale_factor (expected_plan v wh 0 extreme) = sf)
    by reflexivity.
  assert (Hdst : plan_dst_shape (expected_plan v wh 0 extreme) = dst_shape).
  { unfold expected_plan, crop_plan. cbn [plan_dst_shape].
    destruct (Rlt_dec 0 0) as [Hlt|_]; [|reflexivity].
    exfalso. revert Hlt. apply Rlt_irrefl. }
  assert (Hnc : expected_new_camera v (expected_plan v wh 0 extreme) = nc).
  { unfold expected_new_camera. by rewrite Hbox, Hsf. }
  rewrite Hnc in Hrec, Him. split; [exact Hrec|].
  intros Hcached im Hread.
  exists (expected_plan v wh 0 extreme).
  split; [exact Hbox|]. split; [exact Hsf|]. split; [exact Hdst|].
  by apply Him.
Qed.

(** C8. The scale factor applied to the new camera is
    [min(1.2, 256 / max(w, h) * 1.5)] for the width and height of the
    side-midpoint reprojected subject box (for [max(w, h) = 0] the
    quotient is [inf] and the minimum 1.2), and is at most 1.2: the
    returned record is expressed in the new camera scaled by it, and
    the image written is reprojected to that camera. *)
Theorem scale_factor_formula s ex v new_image_path f a3 min_time ignore
    flip down extreme wh :
  let m := make_efficient_example ex new_image_path f a3 min_time ignore
             flip down extreme in
  let s1 := final_state m s in
  let abspath := ensure_absolute_path new_image_path in
  let oc := fst (expected_cameras v) in
  let nc0 := snd (expected_cameras v) in
  let rb := reproject_box_side_midpoints (v_bbox v) oc nc0 in
  let longer := Rmax (box_w rb) (box_h rb) in
  let p := expected_plan v wh f extreme in
  let crop := plan_expanded_bbox p in
  view (heap s) ex = Some v ->
  expected_size v (files s) = Value wh ->
  exists sf,
    (longer <> 0%R -> sf = Rmin 1.2 (256 / longer * 1.5)) /\
    (longer = 0%R -> sf = 1.2%R) /\
    (sf <= 1.2)%R /\
    plan_scale_factor p = sf /\
    let nc :=
      scale_output (shift_image nc0 (- box_x crop, - box_y crop)%R) sf in
    (forall l', outcome_of m s = Value (Some l') ->
       exists r, view (heap s1) l' = Some r /\
         v_bbox r = reproject_box_side_midpoints (v_bbox v) oc nc /\
         (v_has_3d_camera v = true -> v_camera r = Some (Some nc)) /\
         (v_is3d v = false ->
          exists pts, v_coords v = Some pts /\
                      v_coords r
                      = Some (reproject_image_points pts oc nc))) /\
    (expected_cached (files s) abspath min_time = false ->
     forall im, expected_read v (files s) ignore = Value (Some im) ->
       files s1
       = imwrite (ensure_parent_dir_exists (files s) abspath) abspath
           (expected_image im oc nc p a3 flip down) 95).
Proof.
  intros m s1 abspath oc nc0 rb longer p crop Hview Hsize.
  destruct (invocation_uses_new_camera s ex v new_image_path f a3 min_time
              ignore flip down extreme wh Hview Hsize) as [Hrec Him].
  fold m s1 abspath oc p in Hrec, Him.
  exists (plan_scale_factor p).
  assert (Hsf : plan_scale_factor p = scale_factor_of rb) by reflexivity.
  split; [|split; [|split; [|split; [reflexivity|]]]].
  - intros Hne. rewrite Hsf. unfold scale_factor_of. fold longer.
    by destruct (Req_dec_T longer 0).
  - intros Hz. rewrite Hsf. unfold scale_factor_of. fold longer.
    by destruct (Req_dec_T longer 0).
  - rewrite Hsf. unfold scale_factor_of.
    destruct (Req_dec_T _ 0); [apply Rle_refl|apply Rmin_l].
  - split; [exact Hrec|exact Him].
Qed.

Lemma view_example_locs_used h e v :
  view_example h e = Some v ->
  Forall (fun l => is_Some (h !! l)) (example_locs e).
Proof.
  intros Hv.
  destruct (view_example_inv _ _ _ Hv) as (V1 & V2 & V3 & V4 & V5 & V6).
  unfold example_locs. repeat apply Forall_app_2.
  - destruct (image_path e) as [p|l]; [constructor|]. simpl in V1.
    destruct (get_image h l) eqn:E; [|done].
    apply get_image_lookup in E. repeat constructor. eauto.
  - apply get_box_lookup in V2. repeat constructor. eauto.
  - destruct (camera e) as [[l|]|]; try constructor; [|constructor].
    simpl in V3. destruct (get_camera h l) eqn:E; [|done].
    apply get_camera_lookup in E. eauto.
  - destruct (coords e) as [l|]; [|constructor]. simpl in V4.
    destruct (get_points h l) eqn:E; [|done].
    apply get_points_lookup in E. repeat constructor. eauto.
  - destruct (world_coords e) as [l|]; [|constructor]. simpl in V5.
    destruct (get_world h l) eqn:E; [|done].
    apply get_world_lookup in E. repeat constructor. eauto.
  - destruct (mask e) as [[|p|l]|]; try constructor; [|constructor].
    simpl in V6. destruct (h !! l); [eauto|done].
Qed.

(** C9. An invocation on a well-formed input record leaves every
    object of the store as it was (what it changes are objects it
    created): the input record and all it refers to keep their value.
    A returned record is a new object, refers to new objects only and
    so shares none with the input; in particular its camera is not
    the camera object of the input. *)
Theorem input_left_unchanged s ex v new_image_path f a3 min_time ignore
    flip down extreme :
  let m := make_efficient_example ex new_image_path f a3 min_time ignore
             flip down extreme in
  let s1 := final_state m s in
  view (heap s) ex = Some v ->
  heap s ⊆ heap s1 /\
  view (heap s1) ex = Some v /\
  forall l', outcome_of m s = Value (Some l') ->
    l' <> ex /\
    fresh_record (heap s) (heap s1) l' /\
    forall e e',
      heap s !! ex = Some (OExample e) ->
      heap s1 !! l' = Some (OExample e') ->
      (forall l, In l (example_locs e') ->
         heap s !! l = None /\ ~ In l (example_locs e)) /\
      (forall lc lc',
         camera e = Some (Some lc) -> camera e' = Some (Some lc') ->
         lc <> lc').
Proof.
  intros m s1 Hview.
  destruct (invocation_facts s ex v new_image_path f a3 min_time ignore flip
              down extreme Hview) as (Hsub & Hf & Hev & Hout).
  fold m in Hsub, Hf, Hev, Hout. fold s1 in Hsub, Hf, Hout.
  split; [done|]. split; [by eapply view_weaken|].
  intros l' Hret. rewrite Hret in Hout.
  destruct (fst (fst (expected v (files s) new_image_path f a3 min_time
                        ignore flip down extreme)))
    as [[v'|]|err]; try done.
  destruct Hout as [Hv' Hfresh].
  destruct (view_inv _ _ _ Hview) as (e0 & Hex & Hve).
  pose proof Hfresh as (Hl' & e1 & He1 & Hlocs).
  split; [intros ->; congruence|]. split; [done|].
  intros e e' He He'.
  assert (e = e0) as -> by congruence.
  assert (e' = e1) as -> by congruence.
  pose proof (view_example_locs_used _ _ _ Hve) as Hused.
  rewrite Forall_forall in Hlocs, Hused.
  assert (Hdisj : forall l, In l (example_locs e1) ->
            heap s !! l = None /\ ~ In l (example_locs e0)).
  { intros l Hin. apply list_elem_of_In in Hin.
    pose proof (Hlocs _ Hin) as Hnone. split; [done|].
    intros Hin'. apply list_elem_of_In in Hin'.
    destruct (Hused _ Hin') as [o Ho]. congruence. }
  split; [done|].
  intros lc lc' Hc Hc' ->.
  destruct (Hdisj lc') as [_ Hn].
  - unfold example_locs. rewrite Hc'. rewrite !in_app_iff. simpl. tauto.
  - apply Hn. unfold example_locs. rewrite Hc. rewrite !in_app_iff.
    simpl. tauto.
Qed.

(** Without a camera the mask is never produced. *)
Lemma expected_mask_without_camera v fs nc dst box mk :
  v_has_3d_camera v = false -> v_mask v = Some mk -> mk <> MvNone ->
  (forall mk', fst (expected_mask v fs nc dst box) <> Value mk') /\
  ((forall p, mk = MvPath p ->
      exists m0, imread fs (ensure_absolute_path p) = Value m0) ->
   fst (expected_mask v fs nc dst box)
   = Raised (AttributeError (missing_camera_attr v))).
Proof.
  intros Hcam Hmask Hmk.
  assert (Hexc : expected_ex_camera v
                 = Raised (AttributeError (missing_camera_attr v))).
  { unfold expected_ex_camera, missing_camera_attr, v_has_3d_camera in *.
    by destruct (v_camera v) as [[c|]|]. }
  unfold expected_mask. rewrite Hmask, Hexc.
  destruct mk as [|p|im|enc]; simpl; try done.
  destruct (imread fs (ensure_absolute_path p)) as [m0|err] eqn:Eread;
    simpl.
  - by split.
  - split; [done|]. intros H. destruct (H p eq_refl) as [m0 ?].
    congruence.
Qed.

(** C10. The mask is reprojected from the camera attribute of the
    example itself. For an example that carries a mask and has no
    camera attribute, or has it set to [None], the invocation never
    returns a record; when it gets as far as the mask (the size query
    and, unless the destination is cached, the read of the source
    succeed, the coordinates are there, and a mask given as a path can
    be read) it raises an [AttributeError]. *)
Theorem mask_without_camera_fails s ex v new_image_path f a3 min_time ignore
    flip down extreme mk :
  let m := make_efficient_example ex new_image_path f a3 min_time ignore
             flip down extreme in
  let s1 := final_state m s in
  let abspath := ensure_absolute_path new_image_path in
  view (heap s) ex = Some v ->
  v_has_3d_camera v = false ->
  v_mask v = Some mk -> mk <> MvNone ->
  (forall l', outcome_of m s <> Value (Some l')) /\
  ((exists wh, expected_size v (files s) = Value wh) ->
   (expected_cached (files s) abspath min_time = true \/
    exists im, expected_read v (files s) ignore = Value (Some im)) ->
   (v_is3d v = true \/ exists pts, v_coords v = Some pts) ->
   (forall p, mk = MvPath p ->
      exists m0, imread (files s1) (ensure_absolute_path p) = Value m0) ->
   outcome_of m s = Raised (AttributeError (missing_camera_attr v))).
Proof.
  intros m s1 abspath Hview Hcam Hmask Hmk.
  destruct (invocation_facts s ex v new_image_path f a3 min_time ignore flip
              down extreme Hview) as (Hsub & Hf & Hev & Hout).
  fold m in Hsub, Hf, Hev, Hout. fold s1 in Hsub, Hf, Hout.
  split.
  - intros l' Hret. rewrite Hret in Hout.
    destruct (fst (fst (expected v (files s) new_image_path f a3 min_time
                          ignore flip down extreme)))
      as [[v'|]|err] eqn:Eout; try done.
    destruct (expected_returns_record _ _ _ _ _ _ _ _ _ _ _ Eout)
      as (wh & co & mk' & _ & _ & _ & Hmk').
    by eapply expected_mask_without_camera in Hmk'.
  - intros [wh Hsize] Hread Hcoords Hpath.
    rewrite Hf in Hpath.
    apply outcome_matches_raised with (h := heap s) (h' := heap s1).
    revert Hout Hpath. unfold expected. rewrite Hsize.
    assert (Hrec : forall fs',
      (forall p, mk = MvPath p ->
         exists m0, imread fs' (ensure_absolute_path p) = Value m0) ->
      fst (expected_record_of v fs' (expected_plan v wh f extreme)
             new_image_path)
      = Raised (AttributeError (missing_camera_attr v))).
    { intros fs' Hp. unfold expected_record_of, expected_record.
      assert (exists co, expected_coords v (fst (expected_cameras v))
                (expected_new_camera v (expected_plan v wh f extreme))
              = Value co) as [co ->].
      { unfold expected_coords.
        destruct Hcoords as [-> | [pts ->]]; [eauto|].
        destruct (v_is3d v); eauto. }
      pose proof (expected_mask_without_camera v fs'
                    (expected_new_camera v (expected_plan v wh f extreme))
                    (plan_dst_shape (expected_plan v wh f extreme))
                    (expected_bbox v (expected_plan v wh f extreme)) mk
                    Hcam Hmask Hmk) as [_ Hraise].
      specialize (Hraise Hp).
      destruct (expected_mask v fs' _ _ _) as [[mk'|err] evs]; simpl in *;
        by simplify_eq. }
    destruct Hread as [Hc | [im Him]].
    + fold abspath. rewrite Hc. simpl. intros Hout Hpath.
      by rewrite (Hrec _ Hpath) in Hout.
    + fold abspath.
      destruct (expected_cached (files s) abspath min_time); simpl.
      * intros Hout Hpath. by rewrite (Hrec _ Hpath) in Hout.
      * rewrite Him. simpl. intros Hout Hpath.
        by rewrite (Hrec _ Hpath) in Hout.
Qed.

End Invocation.

(** * Further properties of the code *)

(** ** [get_expanded_crop_box] and the crop plan *)

Section CropBoxExtras.
Local Open Scope R_scope.

Lemma rot_side_spec_nonneg (w h : R) :
  0 <= w -> 0 <= h -> 0 <= rot_side_spec w h.
Proof.
  intros Hw Hh. destruct (rot_side_spec_lower w h Hw Hh) as [H _]. lra.
Qed.

Lemma rot_side_spec_upper (w h : R) :
  0 <= w -> 0 <= h -> rot_side_spec w h <= w + h.
Proof.
  intros Hw Hh. unfold rot_side_spec. rewrite sin_PI6.
  pose proof cos_PI6_upper as Hc.
  assert (cos (PI / 6) * w <= 1 * w) by (apply Rmult_le_compat_r; lra).
  assert (cos (PI / 6) * h <= 1 * h) by (apply Rmult_le_compat_r; lra).
  apply Rmax_lub; lra.
Qed.

Lemma unclipped_crop_box_coords (b : Box) (f : R) :
  let side := rot_side_spec (box_w b) (box_h b) * expansion_factor_spec f in
  box_x (unclipped_crop_box b f) = box_x b + box_w b / 2 - side / 2 /\
  box_y (unclipped_crop_box b f) = box_y b + box_h b / 2 - side / 2 /\
  box_w (unclipped_crop_box b f) = side /\
  box_h (unclipped_crop_box b f) = side.
Proof.
  unfold unclipped_crop_box, boxlib.expand, boxlib.box_around,
    boxlib.center. cbv zeta. simpl.
  generalize (rot_side_spec (box_w b) (box_h b) * expansion_factor_spec f).
  generalize (rot_side_spec (box_w b) (box_h b)).
  intros S SE. split; [lra|]. split; [lra|]. split; reflexivity.
Qed.

(** An intersection with a box that contains the first one gives the
    first one back. *)
Lemma intersection_contained (a b : Box) :
  0 <= box_w a -> 0 <= box_h a ->
  box_x b <= box_x a -> box_y b <= box_y a ->
  box_x a + box_w a <= box_x b + box_w b ->
  box_y a + box_h a <= box_y b + box_h b ->
  boxlib.intersection a b = a.
Proof.
  intros Hw Hh Hx Hy Hx2 Hy2. unfold boxlib.intersection.
  rewrite (Rmax_left (box_x a) (box_x b)) by lra.
  rewrite (Rmax_left (box_y a) (box_y b)) by lra.
  rewrite (Rmin_left (box_x a + box_w a)) by lra.
  rewrite (Rmin_left (box_y a + box_h a)) by lra.
  rewrite (Rmax_right 0) by lra. rewrite (Rmax_right 0) by lra.
  destruct a as [x y w h]. simpl. f_equal; lra.
Qed.

(** X1. The crop box never has a negative width or height, whatever
    the boxes and the factor; and when it has a positive width and
    height each of its points lies in [full_box] and in the expanded
    square: the crop does not reach beyond the full box. *)
Theorem crop_box_within_full_box (b full_box : Box) (f : R) :
  let crop := get_expanded_crop_box b full_box f in
  0 <= box_w crop /\ 0 <= box_h crop /\
  forall p : Point,
    0 < box_w crop -> 0 < box_h crop -> in_box crop p ->
    in_box full_box p /\ in_box (unclipped_crop_box b f) p.
Proof.
  intros crop. subst crop. rewrite get_expanded_crop_box_unfold.
  generalize (unclipped_crop_box b f). intros u.
  unfold in_box, boxlib.intersection. simpl.
  split; [apply Rmax_l|]. split; [apply Rmax_l|]. intros p.
  pose proof (Rmax_l (box_x u) (box_x full_box)).
  pose proof (Rmax_r (box_x u) (box_x full_box)).
  pose proof (Rmax_l (box_y u) (box_y full_box)).
  pose proof (Rmax_r (box_y u) (box_y full_box)).
  pose proof (Rmin_l (box_x u + box_w u) (box_x full_box + box_w full_box)).
  pose proof (Rmin_r (box_x u + box_w u) (box_x full_box + box_w full_box)).
  pose proof (Rmin_l (box_y u + box_h u) (box_y full_box + box_h full_box)).
  pose proof (Rmin_r (box_y u + box_h u) (box_y full_box + box_h full_box)).
  generalize dependent (Rmax (box_x u) (box_x full_box)). intros x1 ? ?.
  generalize dependent (Rmax (box_y u) (box_y full_box)). intros y1 ? ?.
  generalize dependent
    (Rmin (box_x u + box_w u) (box_x full_box + box_w full_box)).
  intros x2 ? ?.
  generalize dependent
    (Rmin (box_y u + box_h u) (box_y full_box + box_h full_box)).
  intros y2 ? ?.
  intros Hw Hh [[Hx1 Hx2] [Hy1 Hy2]].
  assert (Hwx : 0 <= x2 - x1).
  { destruct (Rle_dec 0 (x2 - x1)) as [Hle|Hn]; [done|].
    rewrite (Rmax_left 0) in Hw by lra. lra. }
  assert (Hwy : 0 <= y2 - y1).
  { destruct (Rle_dec 0 (y2 - y1)) as [Hle|Hn]; [done|].
    rewrite (Rmax_left 0) in Hh by lra. lra. }
  rewrite (Rmax_right 0) in Hx2 by lra.
  rewrite (Rmax_right 0) in Hy2 by lra.
  repeat split; lra.
Qed.

End CropBoxExtras.

Section CropPlanExtras.
Context `{IL : ImageLib} `{CL : !CameraLib} `{IO : !FileIO}.
Local Open Scope R_scope.

(** X2. Under [extreme_perspective] nothing is clipped: when the
    expanded square around the reprojected subject box lies within
    [(-1e9, -1e9, 2e9, 2e9)], it is the crop box as it is. *)
Theorem extreme_perspective_keeps_expanded_square
    (bbox full_box : Box) (old_camera new_camera : Camera) (f : R) :
  let rb := reproject_box_side_midpoints bbox old_camera new_camera in
  let u := unclipped_crop_box rb f in
  0 < f -> 0 <= box_w rb -> 0 <= box_h rb ->
  -1e9 <= box_x u -> -1e9 <= box_y u ->
  box_x u + box_w u <= 1e9 -> box_y u + box_h u <= 1e9 ->
  plan_expanded_bbox (crop_plan bbox full_box old_camera new_camera f true)
  = u.
Proof.
  intros rb u Hf Hw Hh Hx Hy Hx2 Hy2. unfold crop_plan. simpl.
  destruct (Rlt_dec 0 f) as [_|Hn]; [|contradiction].
  rewrite get_expanded_crop_box_unfold. fold rb. fold u.
  destruct (unclipped_crop_box_coords rb f) as (_ & _ & Ew & Eh).
  fold u in Ew, Eh.
  pose proof (rot_side_spec_nonneg _ _ Hw Hh) as HS.
  assert (HE : 0 <= expansion_factor_spec f)
    by (unfold expansion_factor_spec; lra).
  assert (0 <= rot_side_spec (box_w rb) (box_h rb) * expansion_factor_spec f)
    by (by apply Rmult_le_pos).
  clearbody u.
  apply intersection_contained; simpl; lra.
Qed.

(** X3. For a reprojected subject box whose longer side [m] is
    positive, the scale factor is positive; it brings a longer side of
    320 pixels or more to exactly 384 pixels, and is 1.2 for a shorter
    one. *)
Theorem scale_factor_targets_384
    (bbox full_box : Box) (old_camera new_camera : Camera) (f : R)
    (extreme_perspective : bool) :
  let rb := reproject_box_side_midpoints bbox old_camera new_camera in
  let m := Rmax (box_w rb) (box_h rb) in
  let sf := plan_scale_factor
              (crop_plan bbox full_box old_camera new_camera f
                 extreme_perspective) in
  0 < m ->
  0 < sf /\
  (320 <= m -> sf * m = 384) /\
  (m <= 320 -> sf = 1.2).
Proof.
  intros rb m sf Hm. subst sf. unfold crop_plan, scale_factor_of. simpl.
  fold rb. fold m.
  destruct (Req_dec_T m 0) as [E0|_]; [lra|].
  clearbody m.
  assert (Hdiv : 256 / m * 1.5 = 384 / m) by (unfold Rdiv; lra).
  rewrite Hdiv.
  assert (Hinv : 384 / m * m = 384).
  { unfold Rdiv. rewrite Rmult_assoc, Rinv_l by lra. lra. }
  assert (Hpos : 0 < 384 / m) by (apply Rdiv_lt_0_compat; lra).
  split; [apply Rmin_glb_lt; lra|]. split.
  - intros Hbig.
    assert (384 / m <= 1.2).
    { apply (Rmult_le_reg_r m); [done|]. lra. }
    by rewrite Rmin_right.
  - intros Hsmall.
    assert (1.2 <= 384 / m).
    { apply (Rmult_le_reg_r m); [done|]. lra. }
    by rewrite Rmin_left.
Qed.

End CropPlanExtras.

(** ** [get_connected_component_with_highest_iou] *)

Section ComponentExtras.
Local Open Scope R_scope.

(** [np.argmax]: the index found is that of a largest element, and
    every element before it is smaller. *)
Lemma argmax_from_spec (t : list R) :
  forall (pre : list R) (best : nat) (bv : R),
    (best < length pre)%nat -> nth best pre 0 = bv ->
    (forall j, (j < length pre)%nat ->
       nth j pre 0 <= bv /\ ((j < best)%nat -> nth j pre 0 < bv)) ->
    let k := argmax_from t (length pre) best bv in
    (k < length (pre ++ t))%nat /\
    forall j, (j < length (pre ++ t))%nat ->
      nth j (pre ++ t) 0 <= nth k (pre ++ t) 0 /\
      ((j < k)%nat -> nth j (pre ++ t) 0 < nth k (pre ++ t) 0).
Proof.
  induction t as [|x t IH]; intros pre best bv Hbest Hbv Hall; simpl.
  - rewrite app_nil_r. rewrite Hbv. split; [done|]. exact Hall.
  - assert (Hlen : length (pre ++ [x]) = S (length pre))
      by (rewrite length_app; simpl; lia).
    assert (Happ : pre ++ x :: t = (pre ++ [x]) ++ t)
      by (by rewrite <- app_assoc).
    rewrite Happ.
    destruct (Rlt_dec bv x) as [Hlt|Hge].
    + specialize (IH (pre ++ [x]) (length pre) x).
      rewrite Hlen in IH. apply IH.
      * lia.
      * rewrite app_nth2 by lia. by rewrite Nat.sub_diag.
      * intros j Hj. destruct (decide (j < length pre)%nat) as [Hjl|Hjl].
        -- rewrite app_nth1 by done. destruct (Hall j Hjl) as [Hle _].
           split; intros; lra.
        -- assert (j = length pre) as -> by lia.
           rewrite app_nth2 by lia. rewrite Nat.sub_diag. simpl.
           split; [lra|lia].
    + specialize (IH (pre ++ [x]) best bv).
      rewrite Hlen in IH. apply IH.
      * lia.
      * by rewrite app_nth1.
      * intros j Hj. destruct (decide (j < length pre)%nat) as [Hjl|Hjl].
        -- rewrite app_nth1 by done. by apply Hall.
        -- assert (j = length pre) as -> by lia.
           rewrite app_nth2 by lia. rewrite Nat.sub_diag. simpl.
           split; [lra|lia].
Qed.

Lemma argmax_spec (l : list R) :
  l <> [] ->
  (argmax l < length l)%nat /\
  forall j, (j < length l)%nat ->
    nth j l 0 <= nth (argmax l) l 0 /\
    ((j < argmax l)%nat -> nth j l 0 < nth (argmax l) l 0).
Proof.
  destruct l as [|x t]; [done|]. intros _.
  apply (argmax_from_spec t [x] 0%nat x).
  - simpl. lia.
  - done.
  - intros j Hj. simpl in Hj. assert (j = 0%nat) as -> by lia.
    simpl. split; [lra|lia].
Qed.

Lemma label_fold_count (mask : Grid Z) (fuel : nat)
    (ps : list (nat * nat)) :
  forall (labels : Grid Z) (n : Z),
    (1 <= n)%Z ->
    (1 <= snd (fold_left
                 (fun (acc : Grid Z * Z) (p : nat * nat) =>
                    let '(labels, next) := acc in
                    let '(r, c) := p in
                    if negb (grid_get 0%Z mask r c =? 0)%Z
                       && (grid_get 0%Z labels r c =? 0)%Z
                    then (flood fuel mask [(r, c)] next labels,
                          (next + 1)%Z)
                    else (labels, next))
                 ps (labels, n)))%Z.
Proof.
  induction ps as [|[r c] ps IH]; intros labels n Hn; cbn [fold_left].
  - done.
  - destruct (negb (grid_get 0%Z mask r c =? 0)%Z
              && (grid_get 0%Z labels r c =? 0)%Z); apply IH; lia.
Qed.

(** The labelling counts the background: there is at least one
    label. *)
Lemma label_components_count (mask : Grid Z) :
  (1 <= snd (label_components mask))%Z.
Proof. unfold label_components. by apply label_fold_count. Qed.

Lemma grid_rows_map {A B} (f : A -> B) (g : Grid A) :
  grid_rows (map (map f) g) = grid_rows g.
Proof. apply length_map. Qed.

Lemma grid_cols_map {A B} (f : A -> B) (g : Grid A) :
  grid_cols (map (map f) g) = grid_cols g.
Proof.
  unfold grid_cols. destruct g as [|row g]; [done|]. simpl.
  apply length_map.
Qed.

(** X4. For a mask with at least one row and one column, the
    function returns the encoding of the pixels of one label of the
    labelling of line 146, the background (label 0) included: a label
    whose bounding box has an IoU with the person box that no other
    label exceeds. *)
Theorem selected_label_has_highest_iou `{Rlemasklib}
    (mask : Grid Z) (person_box : Box) :
  (0 < grid_rows mask)%nat -> (0 < grid_cols mask)%nat ->
  exists n labels stats k,
    connectedComponentsWithStats (map (map (fun v => (v mod 256)%Z)) mask)
    = Value (n, labels, stats) /\
    (k < length stats)%nat /\
    get_connected_component_with_highest_iou mask person_box
    = Value (rle_encode
               (map (map (fun v => (v =? Z.of_nat k)%Z)) labels)) /\
    forall j, (j < length stats)%nat ->
      boxlib.iou (stat_box (nth j stats (0, 0, 0, 0, 0)%Z)) person_box
      <= boxlib.iou (stat_box (nth k stats (0, 0, 0, 0, 0)%Z)) person_box.
Proof.
  intros Hrows Hcols.
  unfold get_connected_component_with_highest_iou.
  pose proof (label_components_count
                (map (map (fun v => (v mod 256)%Z)) mask)) as Hcount.
  unfold connectedComponentsWithStats.
  rewrite grid_rows_map, grid_cols_map.
  destruct (grid_rows mask) as [|rows']; [lia|].
  destruct (grid_cols mask) as [|cols']; [lia|].
  cbn [Nat.eqb orb].
  destruct (label_components (map (map (fun v => (v mod 256)%Z)) mask))
    as [labels n]. simpl in Hcount.
  set (stats := map (fun l => component_stat labels (Z.of_nat l))
                  (seq 0 (Z.to_nat n))).
  set (ious := map (fun component_box => boxlib.iou component_box person_box)
                 (map stat_box stats)).
  assert (Hlen : length ious = length stats)
    by (unfold ious; by rewrite !length_map).
  assert (Hne : ious <> []).
  { intros Hnil. apply (f_equal (@length R)) in Hnil.
    rewrite Hlen in Hnil. unfold stats in Hnil.
    rewrite length_map, length_seq in Hnil. simpl in Hnil. lia. }
  destruct (argmax_spec ious Hne) as [Hk Hmax].
  assert (Hnth : forall j, (j < length stats)%nat ->
            nth j ious 0
            = boxlib.iou (stat_box (nth j stats (0, 0, 0, 0, 0)%Z))
                person_box).
  { intros j Hj. unfold ious. rewrite map_map.
    rewrite (nth_indep _ 0
               (boxlib.iou (stat_box (0, 0, 0, 0, 0)%Z) person_box))
      by (rewrite length_map; lia).
    apply (map_nth (fun s => boxlib.iou (stat_box s) person_box)). }
  exists n, labels, stats, (argmax ious). rewrite Hlen in Hk, Hmax.
  split; [done|]. split; [done|]. split; [done|].
  intros j Hj. rewrite <- !Hnth by done. by apply Hmax.
Qed.

Lemma grid_get_const_zero (rows cols r c : nat) :
  grid_get 0%Z (grid_const rows cols 0%Z) r c = 0%Z.
Proof.
  unfold grid_get, grid_const.
  destruct (decide (r < rows)%nat) as [Hr|Hr].
  - rewrite (nth_indep _ [] (repeat 0%Z cols))
      by (by rewrite repeat_length).
    rewrite nth_repeat. apply nth_repeat.
  - rewrite (nth_overflow (repeat (repeat 0%Z cols) rows))
      by (rewrite repeat_length; lia).
    by destruct c.
Qed.

Lemma label_components_empty (rows cols : nat) :
  (0 < rows)%nat ->
  label_components (grid_const rows cols 0%Z)
  = (grid_const rows cols 0%Z, 1%Z).
Proof.
  intros Hrows. unfold label_components.
  assert (Hr : grid_rows (grid_const rows cols 0%Z) = rows)
    by apply repeat_length.
  assert (Hc : grid_cols (grid_const rows cols 0%Z) = cols).
  { unfold grid_cols, grid_const. destruct rows; [lia|]. simpl.
    apply repeat_length. }
  rewrite Hr, Hc.
  generalize (S (8 * rows * cols)). intros fuel.
  generalize (pixels rows cols). intros ps.
  induction ps as [|[r c] ps IH]; simpl; [done|].
  by rewrite grid_get_const_zero.
Qed.

(** X5. A mask without any foreground pixel gives the encoding of
    the full frame, whatever the person box: the only label is the
    background, and it is selected. *)
Theorem empty_mask_selects_whole_frame `{Rlemasklib}
    (rows cols : nat) (person_box : Box) :
  (0 < rows)%nat -> (0 < cols)%nat ->
  get_connected_component_with_highest_iou (grid_const rows cols 0%Z)
    person_box
  = Value (rle_encode (grid_const rows cols true)).
Proof.
  intros Hrows Hcols.
  unfold get_connected_component_with_highest_iou.
  assert (Hmod : map (map (fun v => (v mod 256)%Z)) (grid_const rows cols 0%Z)
                 = grid_const rows cols 0%Z).
  { unfold grid_const. by rewrite !map_repeat. }
  rewrite Hmod. unfold connectedComponentsWithStats.
  assert (Hr : grid_rows (grid_const rows cols 0%Z) = rows)
    by apply repeat_length.
  assert (Hc : grid_cols (grid_const rows cols 0%Z) = cols).
  { unfold grid_cols, grid_const. destruct rows; [lia|]. simpl.
    apply repeat_length. }
  rewrite Hr, Hc.
  assert ((rows =? 0)%nat = false) as -> by (apply Nat.eqb_neq; lia).
  assert ((cols =? 0)%nat = false) as -> by (apply Nat.eqb_neq; lia).
  cbn [orb].
  rewrite (label_components_empty rows cols Hrows).
  simpl. do 2 f_equal. unfold grid_const. by rewrite !map_repeat.
Qed.

End ComponentExtras.

(** ** [make_efficient_example]: errors, the write, and what the
    record depends on *)

Section InvocationExtras.
Context `{IL : ImageLib} `{CL : !CameraLib} `{IO : !FileIO} `{RL : Rlemasklib}.

Implicit Types (s : state) (h : gmap loc obj) (l : loc) (e : Example)
  (v : ExampleView).

Lemma writes_of_on_mask (evs : list event) :
  Forall (fun ev => on_mask ev = true) evs ->
  List.filter is_file_write evs = [].
Proof.
  induction 1 as [|ev evs Hev _ IH]; simpl; [done|].
  rewrite IH. by destruct ev as [| | |[]|[]| |].
Qed.

Lemma writes_of_size_log v : List.filter is_file_write (size_log v) = [].
Proof. unfold size_log. by destruct (v_image_path v). Qed.

Lemma writes_of_cached_log fs abspath t :
  List.filter is_file_write (cached_log fs abspath t) = [].
Proof. unfold cached_log. by destruct (is_file_newer fs abspath t). Qed.

Lemma writes_of_read_log v : List.filter is_file_write (read_log v) = [].
Proof. unfold read_log. by destruct (v_image_path v). Qed.

Lemma writes_of_render_log abspath a3 flip down :
  List.filter is_file_write (render_log abspath a3 flip down)
  = [EvMkdir abspath; EvImwrite abspath].
Proof. unfold render_log. by destruct a3, flip, down. Qed.

(** The record part never gives [None]. *)
Lemma expected_record_not_none v fs path oc nc box dst :
  fst (expected_record v fs path oc nc box dst) <> Value None.
Proof.
  unfold expected_record.
  destruct (expected_coords v oc nc); simpl; [|done].
  by destruct (expected_mask v fs nc dst box) as [[m|err] evs].
Qed.

(** A mask that is not a path is transformed without the file
    system. *)
Lemma expected_mask_without_files v fs1 fs2 nc dst box :
  (forall mp, v_mask v <> Some (MvPath mp)) ->
  expected_mask v fs1 nc dst box = expected_mask v fs2 nc dst box.
Proof.
  intros Hmask. unfold expected_mask.
  destruct (v_mask v) as [[|mp|im|enc]|]; try done. by destruct (Hmask mp).
Qed.

(** X6. The size query of line 29 is outside every guard: when the
    source is a path and [improc.image_extents] fails, the invocation
    raises that error, whatever the flags and even with a cached
    destination; it has done nothing else and written nothing. *)
Theorem size_query_failure_propagates s ex v new_image_path f a3 min_time
    ignore flip down extreme p err :
  let m := make_efficient_example ex new_image_path f a3 min_time ignore
             flip down extreme in
  view (heap s) ex = Some v ->
  v_image_path v = inl p ->
  image_extents (files s) (ensure_absolute_path p) = Raised err ->
  outcome_of m s = Raised err /\
  files (final_state m s) = files s /\
  events_of m s = [EvImageExtents (ensure_absolute_path p)].
Proof.
  intros m Hview Hip Hext.
  destruct (invocation_facts s ex v new_image_path f a3 min_time ignore flip
              down extreme Hview) as (_ & Hf & Hev & Hout).
  fold m in Hf, Hev, Hout.
  revert Hf Hev Hout. unfold expected, expected_size, size_log.
  rewrite Hip, Hext. simpl. intros Hf Hev Hout.
  split; [by eapply outcome_matches_raised|done].
Qed.

(** X7. When the destination is not cached and the source image is
    there, the image is written once, to the absolute destination
    path, after its parent directory was ensured; this holds also when
    the record cannot be built afterwards. *)
Theorem uncached_invocation_writes_destination s ex v new_image_path f a3
    min_time ignore flip down extreme wh im :
  let m := make_efficient_example ex new_image_path f a3 min_time ignore
             flip down extreme in
  let abspath := ensure_absolute_path new_image_path in
  let p := expected_plan v wh f extreme in
  view (heap s) ex = Some v ->
  expected_size v (files s) = Value wh ->
  expected_cached (files s) abspath min_time = false ->
  expected_read v (files s) ignore = Value (Some im) ->
  files (final_state m s)
  = imwrite (ensure_parent_dir_exists (files s) abspath) abspath
      (expected_image im (fst (expected_cameras v)) (expected_new_camera v p)
         p a3 flip down) 95 /\
  List.filter is_file_write (events_of m s)
  = [EvMkdir abspath; EvImwrite abspath].
Proof.
  intros m abspath p Hview Hsize Hcached Hread.
  destruct (invocation_facts s ex v new_image_path f a3 min_time ignore flip
              down extreme Hview) as (_ & Hf & Hev & _).
  fold m in Hf, Hev. rewrite Hf, Hev.
  unfold expected. rewrite Hsize. fold abspath. rewrite Hcached, Hread.
  cbn [fst snd]. split; [done|].
  unfold expected_record_of. rewrite !List.filter_app.
  rewrite writes_of_size_log, writes_of_cached_log, writes_of_read_log,
    writes_of_render_log.
  rewrite (writes_of_on_mask _ (expected_record_events _ _ _ _ _ _ _)).
  done.
Qed.

(** X8. The function returns [None] in one case only:
    [ignore_broken_image] is set, the destination is not cached, the
    source is a path, and its read failed with an [Exception] that is
    not a [FileNotFoundError]. Nothing was written. *)
Theorem none_only_for_ignored_broken_source s ex v new_image_path f a3
    min_time ignore flip down extreme :
  let m := make_efficient_example ex new_image_path f a3 min_time ignore
             flip down extreme in
  view (heap s) ex = Some v ->
  outcome_of m s = Value None ->
  ignore = true /\
  expected_cached (files s) (ensure_absolute_path new_image_path) min_time
  = false /\
  (exists p err,
     v_image_path v = inl p /\ imread (files s) p = Raised err /\
     isinstance_Exception err = true /\
     isinstance_FileNotFoundError err = false) /\
  files (final_state m s) = files s.
Proof.
  intros m Hview Hnone.
  destruct (invocation_facts s ex v new_image_path f a3 min_time ignore flip
              down extreme Hview) as (_ & Hf & _ & Hout).
  fold m in Hf, Hout. rewrite Hnone in Hout.
  revert Hf Hout. unfold expected.
  destruct (expected_size v (files s)) as [wh|err]; [|done].
  destruct (expected_cached (files s) _ min_time); cbn [fst snd].
  { intros _ Hout. exfalso.
    eapply (expected_record_not_none v (files s)).
    unfold expected_record_of in Hout.
    destruct (fst (expected_record _ _ _ _ _ _ _)) as [[v'|]|err] eqn:E;
      [done|exact E|done]. }
  unfold expected_read.
  destruct (v_image_path v) as [p|im] eqn:Hip.
  - destruct (imread (files s) p) as [im|err] eqn:Hread.
    + cbn [fst snd]. intros _ Hout. exfalso.
      eapply (expected_record_not_none v).
      unfold expected_record_of in Hout.
      destruct (fst (expected_record _ _ _ _ _ _ _)) as [[v'|]|err] eqn:E;
        [done|exact E|done].
    + destruct (isinstance_Exception err) eqn:Hexc; [|done].
      destruct ignore; simpl; [|done].
      destruct (isinstance_FileNotFoundError err) eqn:Hfnf; simpl; [done|].
      intros Hf _. repeat split; try done. by exists p, err.
  - cbn [fst snd]. intros _ Hout. exfalso.
    eapply (expected_record_not_none v).
    unfold expected_record_of in Hout.
    destruct (fst (expected_record _ _ _ _ _ _ _)) as [[v'|]|err] eqn:E;
      [done|exact E|done].
Qed.

(** X9. A 2-D example that lacks [coords] makes the invocation raise
    an [AttributeError] at line 105, after the image: when the
    destination is not cached the image has been written by then. *)
Theorem missing_coords_raises_after_write s ex v new_image_path f a3
    min_time ignore flip down extreme wh :
  let m := make_efficient_example ex new_image_path f a3 min_time ignore
             flip down extreme in
  let abspath := ensure_absolute_path new_image_path in
  view (heap s) ex = Some v ->
  v_is3d v = false -> v_coords v = None ->
  expected_size v (files s) = Value wh ->
  (expected_cached (files s) abspath min_time = true \/
   exists im, expected_read v (files s) ignore = Value (Some im)) ->
  outcome_of m s = Raised (AttributeError "coords") /\
  (expected_cached (files s) abspath min_time = false ->
   In (EvImwrite abspath) (events_of m s)).
Proof.
  intros m abspath Hview H2d Hco Hsize Hread.
  destruct (invocation_facts s ex v new_image_path f a3 min_time ignore flip
              down extreme Hview) as (_ & _ & Hev & Hout).
  fold m in Hev, Hout. rewrite Hev.
  assert (Hrec : forall fs' p,
            expected_record_of v fs' p new_image_path
            = (Raised (AttributeError "coords"), [])).
  { intros fs' p. unfold expected_record_of, expected_record,
      expected_coords. by rewrite H2d, Hco. }
  revert Hout. unfold expected. rewrite Hsize. fold abspath.
  destruct (expected_cached (files s) abspath min_time) eqn:Hc.
  - rewrite Hrec. cbn [fst snd]. intros Hout.
    split; [by eapply outcome_matches_raised|done].
  - destruct Hread as [?|[im Him]]; [done|]. rewrite Him, Hrec.
    cbn [fst snd]. intros Hout.
    split; [by eapply outcome_matches_raised|]. intros _.
    rewrite !in_app_iff. right. right. left.
    unfold render_log. rewrite !in_app_iff. simpl. tauto.
Qed.

(** X10. [ignore_broken_image] covers the read of the source image
    only: when the mask is a path whose read fails, the invocation
    raises that error whatever the flag (provided it gets as far as
    the mask). *)
Theorem broken_mask_file_is_raised s ex v new_image_path f a3 min_time
    ignore flip down extreme wh mp err :
  let m := make_efficient_example ex new_image_path f a3 min_time ignore
             flip down extreme in
  let abspath := ensure_absolute_path new_image_path in
  view (heap s) ex = Some v ->
  v_mask v = Some (MvPath mp) ->
  expected_size v (files s) = Value wh ->
  (expected_cached (files s) abspath min_time = true \/
   exists im, expected_read v (files s) ignore = Value (Some im)) ->
  (v_is3d v = true \/ exists pts, v_coords v = Some pts) ->
  imread (files (final_state m s)) (ensure_absolute_path mp) = Raised err ->
  outcome_of m s = Raised err.
Proof.
  intros m abspath Hview Hmask Hsize Hread Hcoords Hmread.
  destruct (invocation_facts s ex v new_image_path f a3 min_time ignore flip
              down extreme Hview) as (_ & Hf & _ & Hout).
  fold m in Hf, Hout. rewrite Hf in Hmread.
  apply outcome_matches_raised with (h := heap s)
                                    (h' := heap (final_state m s)).
  assert (Hrec : forall fs' p,
            imread fs' (ensure_absolute_path mp) = Raised err ->
            fst (expected_record_of v fs' p new_image_path) = Raised err).
  { intros fs' p Hr. unfold expected_record_of, expected_record.
    assert (exists co, expected_coords v (fst (expected_cameras v))
                         (expected_new_camera v p) = Value co) as [co ->].
    { unfold expected_coords.
      destruct Hcoords as [-> | [pts ->]]; [eauto|].
      destruct (v_is3d v); eauto. }
    unfold expected_mask. by rewrite Hmask, Hr. }
  revert Hout Hmread. unfold expected. rewrite Hsize. fold abspath.
  destruct (expected_cached (files s) abspath min_time) eqn:Hc.
  - cbn [fst snd]. intros Hout Hr. by rewrite (Hrec _ _ Hr) in Hout.
  - destruct Hread as [?|[im Him]]; [done|]. rewrite Him.
    cbn [fst snd]. intros Hout Hr. by rewrite (Hrec _ _ Hr) in Hout.
Qed.

(** X11. A returned record depends on the value of the input, the
    image size, the destination path, the expansion factor and
    [extreme_perspective] only: for a mask that is not a path, two
    invocations that agree on these return records of equal value,
    whatever their flags ([horizontal_flip] included: the box and the
    coordinates are not mirrored), the cache and the pixels. *)
Theorem returned_record_depends_on_geometry_only sa sb exa exb v
    new_image_path f extreme a3a a3b ta tb iga igb flipa flipb downa downb
    la lb :
  let ma := make_efficient_example exa new_image_path f a3a ta iga flipa
              downa extreme in
  let mb := make_efficient_example exb new_image_path f a3b tb igb flipb
              downb extreme in
  view (heap sa) exa = Some v ->
  view (heap sb) exb = Some v ->
  (forall mp, v_mask v <> Some (MvPath mp)) ->
  expected_size v (files sa) = expected_size v (files sb) ->
  outcome_of ma sa = Value (Some la) ->
  outcome_of mb sb = Value (Some lb) ->
  exists r,
    view (heap (final_state ma sa)) la = Some r /\
    view (heap (final_state mb sb)) lb = Some r.
Proof.
  intros ma mb Hva Hvb Hmask Hsize Hra Hrb.
  destruct (invocation_facts sa exa v new_image_path f a3a ta iga flipa
              downa extreme Hva) as (_ & _ & _ & Houta).
  destruct (invocation_facts sb exb v new_image_path f a3b tb igb flipb
              downb extreme Hvb) as (_ & _ & _ & Houtb).
  fold ma in Houta. fold mb in Houtb. rewrite Hra in Houta.
  rewrite Hrb in Houtb.
  destruct (fst (fst (expected v (files sa) _ _ _ _ _ _ _ _)))
    as [[va|]|erra] eqn:Ea; try done.
  destruct (fst (fst (expected v (files sb) _ _ _ _ _ _ _ _)))
    as [[vb|]|errb] eqn:Eb; try done.
  destruct Houta as [-> _]. destruct Houtb as [-> _].
  destruct (expected_returns_record _ _ _ _ _ _ _ _ _ _ _ Ea)
    as (wha & coa & mka & Hsa & -> & Hcoa & Hmka).
  destruct (expected_returns_record _ _ _ _ _ _ _ _ _ _ _ Eb)
    as (whb & cob & mkb & Hsb & -> & Hcob & Hmkb).
  assert (wha = whb) as -> by congruence.
  assert (coa = cob) as -> by congruence.
  rewrite (expected_mask_without_files v _
             (snd (fst (expected v (files sb) new_image_path f a3b tb igb
                          flipb downb extreme))))
    in Hmka by done.
  assert (mka = mkb) as -> by congruence.
  eexists. split; reflexivity.
Qed.

Lemma not_size_query_on_mask (evs : list event) path :
  Forall (fun ev => on_mask ev = true) evs ->
  ~ In (EvImageExtents path) evs.
Proof.
  intros Hall Hin. rewrite Forall_forall in Hall.
  apply list_elem_of_In in Hin. by apply Hall in Hin.
Qed.

(** X12. When the image of the example is an array in memory, the
    invocation queries no file for the size and reads no source image,
    and it never returns [None]. *)
Theorem in_memory_image_is_not_read s ex v new_image_path f a3 min_time
    ignore flip down extreme im :
  let m := make_efficient_example ex new_image_path f a3 min_time ignore
             flip down extreme in
  view (heap s) ex = Some v ->
  v_image_path v = inr im ->
  (forall path, ~ In (EvImageExtents path) (events_of m s)) /\
  (forall path, ~ In (EvImread OnImage path) (events_of m s)) /\
  outcome_of m s <> Value None.
Proof.
  intros m Hview Hip.
  destruct (invocation_facts s ex v new_image_path f a3 min_time ignore flip
              down extreme Hview) as (_ & _ & Hev & Hout).
  fold m in Hev, Hout. rewrite Hev.
  pose proof (fun p => expected_record_events v (files s) new_image_path
                (fst (expected_cameras v)) (expected_new_camera v p)
                (expected_bbox v p) (plan_dst_shape p)) as Hrec0.
  revert Hout. unfold expected, expected_size, size_log, expected_read,
    read_log. rewrite Hip. cbn [app].
  set (wh := (snd (image_shape im), fst (image_shape im))).
  set (p := expected_plan v wh f extreme).
  set (abspath := ensure_absolute_path new_image_path).
  assert (Hnc : forall path, ~ In (EvImageExtents path)
                               (cached_log (files s) abspath min_time)).
  { intros path. unfold cached_log.
    destruct (is_file_newer (files s) abspath min_time); simpl;
      naive_solver. }
  assert (Hnr : forall path, ~ In (EvImageExtents path)
                               (render_log abspath a3 flip down)).
  { intros path. unfold render_log. destruct a3, flip, down; simpl;
      naive_solver. }
  destruct (expected_cached (files s) abspath min_time); cbn [fst snd].
  - intros Hout. split; [|split].
    + intros path. rewrite in_app_iff. intros [Hin|Hin].
      * by apply Hnc in Hin.
      * eapply not_size_query_on_mask in Hin; [done|].
        apply expected_record_events.
    + intros path. rewrite in_app_iff. intros [Hin|Hin].
      * by apply not_source_read_cached_log in Hin.
      * eapply not_source_read_on_mask in Hin; [done|].
        apply expected_record_events.
    + intros Hn. rewrite Hn in Hout.
      apply (expected_record_not_none v (files s) new_image_path
               (fst (expected_cameras v)) (expected_new_camera v p)
               (expected_bbox v p) (plan_dst_shape p)).
      unfold expected_record_of in Hout.
      by destruct (fst (expected_record _ _ _ _ _ _ _)) as [[v'|]|err].
  - intros Hout. split; [|split].
    + intros path. rewrite !in_app_iff. intros [Hin|[Hin|Hin]].
      * by apply Hnc in Hin.
      * by apply Hnr in Hin.
      * eapply not_size_query_on_mask in Hin; [done|].
        apply expected_record_events.
    + intros path. rewrite !in_app_iff. intros [Hin|[Hin|Hin]].
      * by apply not_source_read_cached_log in Hin.
      * by apply not_source_read_render_log in Hin.
      * eapply not_source_read_on_mask in Hin; [done|].
        apply expected_record_events.
    + intros Hn. rewrite Hn in Hout.
      match type of Hout with
      | context [expected_record_of v ?fs' p new_image_path] =>
          apply (expected_record_not_none v fs' new_image_path
                   (fst (expected_cameras v)) (expected_new_camera v p)
                   (expected_bbox v p) (plan_dst_shape p))
      end.
      unfold expected_record_of in Hout.
      by destruct (fst (expected_record _ _ _ _ _ _ _)) as [[v'|]|err].
Qed.

End InvocationExtras.

(** * The properties on concrete inputs *)

Section Concrete.
Import Flat.
Local Open Scope R_scope.

Lemma crop_box_is_clipped_expanded_square_witness :
  plan_expanded_bbox
    (crop_plan box0 (boxlib.full (640, 480)) camera0
       camera0 1 false)
  = crop_box_spec
      (reproject_box_side_midpoints box0 camera0 camera0)
      (reproject_box_corners (boxlib.full (640, 480)) camera0
         camera0)
      1.
Proof.
  apply (crop_box_is_clipped_expanded_square box0
           (boxlib.full (640, 480)) camera0 camera0 1 false).
  lra.
Defined.

Local Close Scope R_scope.

(** C1 on a source file that exists and does not decode, with
    [ignore_broken_image] set: the function returns [None]. *)
Lemma source_read_failure_outcome_witness :
  outcome_of (invoke true) (state_of heap2d fs_corrupt) = Value None.
Proof.
  pose proof (source_read_failure_outcome (state_of heap2d fs_corrupt)
                1%positive view2d "dst.jpg" 1%R false None true false false
                false "src.jpg"
                (OtherException "cannot identify image file")) as H.
  cbv zeta in H.
  destruct H as (_ & Hnone & _).
  - vm_compute; reflexivity.
  - vm_compute. right. right. left. reflexivity.
  - vm_compute; reflexivity.
  - apply Hnone; vm_compute; reflexivity.
Defined.

(** C5 on a 2-D example whose destination is cached. *)
Lemma cached_destination_skips_image_work_witness :
  let s := state_of heap2d fs_cached in
  Forall spares_image (events_of (invoke false) s) /\
  files (final_state (invoke false) s) = files s.
Proof.
  intros s.
  pose proof (cached_destination_skips_image_work s 1%positive view2d
                "dst.jpg" 1%R false None false false false false) as H.
  cbv zeta in H.
  destruct H as (H1 & _ & H3 & _).
  - vm_compute; reflexivity.
  - vm_compute; reflexivity.
  - vm_compute; reflexivity.
  - split; [exact H1|exact H3].
Defined.

(** C5, the claim as stated fails: for a 3-D example with a dense mask
    and a cached destination, the mask is reprojected, which is a pixel
    computation. *)
Lemma cached_destination_mask_counterexample :
  ~ (forall (s : state) (ex : loc) (v : ExampleView) (new_image_path : string)
       (f : R) (a3 : bool) (min_time : option R)
       (ignore flip down extreme : bool),
       view (heap s) ex = Some v ->
       is_file_newer (files s) (ensure_absolute_path new_image_path) min_time
       = true ->
       is_image_readable (files s) (ensure_absolute_path new_image_path)
       = true ->
       Forall (fun ev => is_source_read ev = false /\
                         is_pixel_computation ev = false /\
                         is_file_write ev = false)
         (events_of (make_efficient_example ex new_image_path f a3 min_time
                       ignore flip down extreme) s)).
Proof.
  intros H.
  specialize (H (state_of heap3d_mask fs_cached) 1%positive view3d_mask
                "dst.jpg" 1%R false None false false false false).
  assert (Hall : Forall (fun ev => is_source_read ev = false /\
                                   is_pixel_computation ev = false /\
                                   is_file_write ev = false)
                   (events_of (invoke false)
                      (state_of heap3d_mask fs_cached))).
  { apply H; vm_compute; reflexivity. }
  clear H. rename Hall into H.
  rewrite Forall_forall in H.
  destruct (H (EvPixel OnMask Reproject)) as (_ & Hpixel & _).
  - vm_compute. apply list_elem_of_In. simpl. tauto.
  - discriminate.
Qed.

(** C6 on a 3-D example without a mask. *)
Lemma returned_record_value_witness :
  let s := state_of heap3d fs_cached in
  exists v',
    view (heap (final_state (invoke false) s)) 10%positive = Some v' /\
    v_image_path v' = inl "dst.jpg" /\
    v_world_coords v' = v_world_coords view3d /\
    v_mask v' = None.
Proof.
  intros s.
  pose proof (returned_record_value s 1%positive view3d "dst.jpg" 1%R false
                None false false false false 10%positive) as H.
  cbv zeta in H.
  destruct H as (wh & co & mk & _ & Hv & _ & _ & Hmk & _).
  - vm_compute; reflexivity.
  - vm_compute. reflexivity.
  - eexists. split; [exact Hv|]. simpl. split; [reflexivity|].
    split; [reflexivity|]. apply Hmk. left. reflexivity.
Defined.

(** C6, the claim as stated fails: for a 3-D example with a dense
    mask, the mask of the returned record is an encoded mask, not a copy
    of the mask of the input. *)
Lemma returned_record_mask_counterexample :
  let s := state_of heap3d_mask fs_cached in
  view (heap s) 1%positive = Some view3d_mask /\
  outcome_of (invoke false) s = Value (Some 11%positive) /\
  v_mask <$> view (heap (final_state (invoke false) s)) 11%positive
  = Some (Some (MvRle [[false; true]; [true; false]])) /\
  v_mask view3d_mask = Some (MvDense [[0; 255]; [255; 0]]%Z).
Proof.
  intros s. split; [vm_compute; reflexivity|].
  split; [vm_compute; reflexivity|].
  split; [vm_compute; reflexivity|reflexivity].
Qed.

(** C9 on a 3-D example. *)
Lemma input_left_unchanged_witness :
  let s := state_of heap3d fs_cached in
  heap s ⊆ heap (final_state (invoke false) s) /\
  view (heap (final_state (invoke false) s)) 1%positive = Some view3d.
Proof.
  intros s.
  pose proof (input_left_unchanged s 1%positive view3d "dst.jpg" 1%R false
                None false false false false) as H.
  cbv zeta in H.
  destruct H as (H1 & H2 & _).
  - vm_compute; reflexivity.
  - split; [exact H1|exact H2].
Defined.

(** C10 on a 2-D example with a dense mask and no camera attribute. *)
Lemma mask_without_camera_fails_witness :
  outcome_of (invoke false) (state_of heap2d_mask fs_cached)
  = Raised (AttributeError "camera").
Proof.
  pose proof (mask_without_camera_fails (state_of heap2d_mask fs_cached)
                1%positive view2d_mask "dst.jpg" 1%R false None false false
                false false (MvDense [[0; 255]; [255; 0]]%Z)) as H.
  cbv zeta in H.
  destruct H as (_ & Hraise).
  - vm_compute; reflexivity.
  - vm_compute; reflexivity.
  - vm_compute; reflexivity.
  - discriminate.
  - apply Hraise.
    + eexists. vm_compute. reflexivity.
    + left. vm_compute. reflexivity.
    + right. eexists. vm_compute. reflexivity.
    + intros p Hp. discriminate Hp.
Defined.

(** C7 on a 3-D example with factor 0 and no destination yet: the
    camera of the returned record is the camera of the input shifted
    by the corner of the reprojected subject box. *)
Lemma zero_factor_uses_bare_reprojected_box_witness :
  let s := state_of heap3d fs_source in
  let m := make_efficient_example 1%positive "dst.jpg" 0%R false None false
             false false false in
  let rb := reproject_box_side_midpoints box0 camera0 camera0 in
  let nc := scale_output (shift_image camera0 (- box_x rb, - box_y rb)%R)
              (scale_factor_of rb) in
  exists r,
    view (heap (final_state m s)) 10%positive = Some r /\
    v_camera r = Some (Some nc).
Proof.
  intros s m rb nc.
  pose proof (zero_factor_uses_bare_reprojected_box s 1%positive view3d
                "dst.jpg" false None false false false false (2, 2)%Z) as H.
  cbv zeta in H.
  destruct H as [Hrec _].
  - vm_compute; reflexivity.
  - vm_compute; reflexivity.
  - destruct (Hrec 10%positive) as (r & Hr & _ & Hcam & _).
    + vm_compute; reflexivity.
    + exists r. split; [exact Hr|]. apply Hcam. reflexivity.
Defined.

(** C8 on the same example with factor 1. *)
Lemma scale_factor_formula_witness :
  let s := state_of heap3d fs_source in
  let crop := plan_expanded_bbox (expected_plan view3d (2, 2)%Z 1%R false) in
  exists sf r,
    (sf <= 1.2)%R /\
    view (heap (final_state (invoke false) s)) 10%positive = Some r /\
    v_camera r
    = Some (Some (scale_output
                    (shift_image camera0 (- box_x crop, - box_y crop)%R)
                    sf)).
Proof.
  intros s crop.
  pose proof (scale_factor_formula s 1%positive view3d "dst.jpg" 1%R false
                None false false false false (2, 2)%Z) as H.
  cbv zeta in H.
  destruct H as (sf & _ & _ & Hle & _ & Hrec & _).
  - vm_compute; reflexivity.
  - vm_compute; reflexivity.
  - destruct (Hrec 10%positive) as (r & Hr & _ & Hcam & _).
    + vm_compute; reflexivity.
    + exists sf, r. split; [exact Hle|]. split; [exact Hr|].
      apply Hcam. reflexivity.
Defined.

End Concrete.

(** * The further properties on concrete inputs *)

Section ConcreteExtras.
Import Flat.
Local Open Scope R_scope.

(** X1 on a box that is the whole frame: the crop box is the frame. *)
Lemma crop_box_within_full_box_witness :
  let b := mkBox 0 0 10 10 in
  let crop := get_expanded_crop_box b b 1 in
  0 <= box_w crop /\ 0 <= box_h crop /\
  in_box b (5, 5) /\ in_box (unclipped_crop_box b 1) (5, 5).
Proof.
  intros b crop.
  assert (Hc : crop = b).
  { subst crop. rewrite get_expanded_crop_box_unfold.
    destruct (unclipped_crop_box_coords b 1) as (Ex & Ey & Ew & Eh).
    cbv zeta in Ex, Ey, Ew, Eh. unfold boxlib.intersection.
    rewrite Ex, Ey, Ew, Eh. subst b. simpl.
    destruct (rot_side_spec_lower 10 10) as [HS _]; [lra|lra|].
    unfold expansion_factor_spec.
    set (S := rot_side_spec 10 10) in *. clearbody S.
    rewrite (Rmax_right _ 0) by lra. rewrite (Rmin_right _ (0 + 10)) by lra.
    rewrite (Rmax_right 0) by lra. f_equal; lra. }
  pose proof (crop_box_within_full_box b b 1) as H. cbv zeta in H.
  fold crop in H. destruct H as (Hw & Hh & H).
  split; [exact Hw|]. split; [exact Hh|].
  apply (H (5, 5)); rewrite Hc; unfold in_box; simpl; lra.
Defined.

(** X2 on the box [(100, 100, 50, 80)] between equal cameras. *)
Lemma extreme_perspective_keeps_expanded_square_witness :
  plan_expanded_bbox
    (crop_plan box0 (boxlib.full (640, 480)) camera0 camera0 1 true)
  = unclipped_crop_box
      (reproject_box_side_midpoints box0 camera0 camera0) 1.
Proof.
  pose proof (rot_side_spec_nonneg 50 80) as HS0.
  pose proof (rot_side_spec_upper 50 80) as HS1.
  assert (E50 : 50 / 1 * 1 = 50) by lra.
  assert (E80 : 80 / 1 * 1 = 80) by lra.
  apply (extreme_perspective_keeps_expanded_square box0
           (boxlib.full (640, 480)) camera0 camera0 1);
    try (simpl; lra);
    destruct (unclipped_crop_box_coords
                (reproject_box_side_midpoints box0 camera0 camera0) 1)
      as (Ex & Ey & Ew & Eh);
    cbv zeta in Ex, Ey, Ew, Eh; rewrite ?Ex, ?Ey, ?Ew, ?Eh; simpl;
    rewrite E50, E80; unfold expansion_factor_spec;
    set (S := rot_side_spec 50 80) in *; clearbody S; lra.
Defined.

(** X3 on the same box: the scale factor is positive. *)
Lemma scale_factor_targets_384_witness :
  0 < plan_scale_factor
        (crop_plan box0 (boxlib.full (640, 480)) camera0 camera0 1 false).
Proof.
  apply (scale_factor_targets_384 box0 (boxlib.full (640, 480)) camera0
           camera0 1 false).
  simpl. pose proof (Rmax_l (50 / 1 * 1) (80 / 1 * 1)). lra.
Defined.

Local Close Scope R_scope.

(** X4 on two foreground pixels that touch by a corner. *)
Lemma selected_label_has_highest_iou_witness :
  let mask := [[255; 0]; [0; 255]]%Z in
  exists n labels stats k,
    connectedComponentsWithStats (map (map (fun v => (v mod 256)%Z)) mask)
    = Value (n, labels, stats) /\
    (k < length stats)%nat /\
    get_connected_component_with_highest_iou mask box0
    = Value (rle_encode
               (map (map (fun v => (v =? Z.of_nat k)%Z)) labels)) /\
    forall j, (j < length stats)%nat ->
      (boxlib.iou (stat_box (nth j stats (0, 0, 0, 0, 0)%Z)) box0
       <= boxlib.iou (stat_box (nth k stats (0, 0, 0, 0, 0)%Z)) box0)%R.
Proof.
  intros mask.
  apply (selected_label_has_highest_iou mask box0);
    subst mask; unfold grid_rows, grid_cols; simpl; lia.
Defined.

(** X5 on a mask of one background pixel. *)
Lemma empty_mask_selects_whole_frame_witness :
  get_connected_component_with_highest_iou (grid_const 1 1 0%Z) box0
  = Value (rle_encode (grid_const 1 1 true)).
Proof.
  apply (empty_mask_selects_whole_frame 1 1 box0); lia.
Defined.

(** X6 on a source that is missing, with a cached destination and
    [ignore_broken_image] set. *)
Lemma size_query_failure_propagates_witness :
  let s := state_of heap2d fs_destination_only in
  outcome_of (invoke true) s = Raised (FileNotFoundError "src.jpg") /\
  files (final_state (invoke true) s) = files s /\
  events_of (invoke true) s = [EvImageExtents "src.jpg"].
Proof.
  intros s.
  apply (size_query_failure_propagates s 1%positive view2d "dst.jpg" 1%R
           false None true false false false "src.jpg"
           (FileNotFoundError "src.jpg")).
  - vm_compute; reflexivity.
  - reflexivity.
  - vm_compute; reflexivity.
Defined.

(** X7 on a 2-D example whose destination does not exist yet. *)
Lemma uncached_invocation_writes_destination_witness :
  List.filter is_file_write
    (events_of (invoke false) (state_of heap2d fs_source))
  = [EvMkdir "dst.jpg"; EvImwrite "dst.jpg"].
Proof.
  pose proof (uncached_invocation_writes_destination
                (state_of heap2d fs_source) 1%positive view2d "dst.jpg" 1%R
                false None false false false false (2, 2)%Z picture) as H.
  cbv zeta in H.
  destruct H as [_ H].
  - vm_compute; reflexivity.
  - vm_compute; reflexivity.
  - vm_compute; reflexivity.
  - vm_compute; reflexivity.
  - exact H.
Defined.

(** X8 on a source that does not decode. *)
Lemma none_only_for_ignored_broken_source_witness :
  let s := state_of heap2d fs_corrupt in
  files (final_state (invoke true) s) = files s.
Proof.
  intros s.
  pose proof (none_only_for_ignored_broken_source s 1%positive view2d
                "dst.jpg" 1%R false None true false false false) as H.
  cbv zeta in H.
  destruct H as (_ & _ & _ & H).
  - vm_compute; reflexivity.
  - vm_compute; reflexivity.
  - exact H.
Defined.

(** X9 on a 2-D example without [coords]. *)
Lemma missing_coords_raises_after_write_witness :
  let s := state_of heap2d_nocoords fs_source in
  outcome_of (invoke false) s = Raised (AttributeError "coords") /\
  In (EvImwrite "dst.jpg") (events_of (invoke false) s).
Proof.
  intros s.
  pose proof (missing_coords_raises_after_write s 1%positive
                view2d_nocoords "dst.jpg" 1%R false None false false false
                false (2, 2)%Z) as H.
  cbv zeta in H.
  destruct H as [H1 H2].
  - vm_compute; reflexivity.
  - reflexivity.
  - reflexivity.
  - vm_compute; reflexivity.
  - right. exists picture. vm_compute; reflexivity.
  - split; [exact H1|]. apply H2. vm_compute; reflexivity.
Defined.

(** X10 on a 3-D example whose mask file is missing, with
    [ignore_broken_image] set. *)
Lemma broken_mask_file_is_raised_witness :
  outcome_of
    (make_efficient_example 1%positive "dst.jpg" 1%R false None true false
       false false)
    (state_of heap3d_maskpath fs_cached)
  = Raised (FileNotFoundError "mask.png").
Proof.
  apply (broken_mask_file_is_raised (state_of heap3d_maskpath fs_cached)
           1%positive view3d_maskpath "dst.jpg" 1%R false None true false
           false false (2, 2)%Z "mask.png").
  - vm_compute; reflexivity.
  - reflexivity.
  - vm_compute; reflexivity.
  - left. vm_compute; reflexivity.
  - left. reflexivity.
  - vm_compute; reflexivity.
Defined.

(** X11 on a 3-D example: a cached destination and no flag on one
    side, no destination and the three image flags on the other. *)
Lemma returned_record_depends_on_geometry_only_witness :
  let sa := state_of heap3d fs_cached in
  let sb := state_of heap3d fs_source in
  let ma := make_efficient_example 1%positive "dst.jpg" 1%R false None false
              false false false in
  let mb := make_efficient_example 1%positive "dst.jpg" 1%R true None false
              true true false in
  exists r,
    view (heap (final_state ma sa)) 10%positive = Some r /\
    view (heap (final_state mb sb)) 11%positive = Some r.
Proof.
  intros sa sb ma mb.
  apply (returned_record_depends_on_geometry_only sa sb 1%positive
           1%positive view3d "dst.jpg" 1%R false false true None None
           false false false true false true 10%positive 11%positive).
  - vm_compute; reflexivity.
  - vm_compute; reflexivity.
  - intros mp Hmp. discriminate Hmp.
  - vm_compute; reflexivity.
  - vm_compute; reflexivity.
  - vm_compute; reflexivity.
Defined.

(** X12 on a 2-D example whose image is an array. *)
Lemma in_memory_image_is_not_read_witness :
  outcome_of (invoke true) (state_of heap2d_inmem fs_source) <> Value None.
Proof.
  pose proof (in_memory_image_is_not_read
                (state_of heap2d_inmem fs_source) 1%positive view2d_inmem
                "dst.jpg" 1%R false None true false false false picture)
    as H.
  cbv zeta in H.
  destruct H as (_ & _ & H).
  - vm_compute; reflexivity.
  - reflexivity.
  - exact H.
Defined.

End ConcreteExtras.
